(** * Blackjack EV engine (src/src/App.tsx): hand totals, finite shoe,
    dealer outcome distribution and player action EVs.

    Conventions of the embedding.
    - Card counts, hand totals and split depths are JavaScript numbers that
      only ever hold integers; they are modelled as [Z].
    - Probabilities and EVs are JavaScript doubles; they are modelled as
      exact rationals ([Qc]), so rounding is not part of the model: a
      statement about the numeric value of a sum or a product is a
      statement about exact arithmetic, which the doubles of the code
      follow up to rounding.
    - A division by zero (which yields a non-finite double in JavaScript)
      is reported as the error [DivByZero].
    - String-keyed records are association lists in insertion order.  For
      the outcome records, whose keys ["17"] to ["21"] JavaScript lists in
      ascending order before ["bust"], only the values under the keys are
      modelled; no statement below depends on the order of their keys.
    - The shoe is a mutable object shared by every call: functions that
      touch it are written in a state monad whose state holds the shoe
      (and the memo table of the enclosing evaluation).
    - Recursion follows the shrinking shoe; the recursive functions take a
      fuel argument and the entry points supply more fuel than the shoe
      has cards. *)

From Stdlib Require Import ZArith QArith Qcanon List Lia Bool.
From stdpp Require Import base decidable countable gmap strings.
Import ListNotations.
Local Open Scope Z_scope.

(** ** Types and constants *)

Inductive Rank : Type :=
  | Ace | R2 | R3 | R4 | R5 | R6 | R7 | R8 | R9 | R10 | Jack | Queen | King.

Definition RANKS : list Rank := [Ace; R2; R3; R4; R5; R6; R7; R8; R9; R10; Jack; Queen; King].

#[global] Instance Rank_eq_dec : EqDecision Rank.
Proof. solve_decision. Defined.

Definition rank_to_nat (r : Rank) : nat :=
  match r with
  | Ace => 0 | R2 => 1 | R3 => 2 | R4 => 3 | R5 => 4 | R6 => 5 | R7 => 6
  | R8 => 7 | R9 => 8 | R10 => 9 | Jack => 10 | Queen => 11 | King => 12
  end%nat.

Definition rank_of_nat (n : nat) : option Rank := RANKS !! n.

#[global] Instance Rank_countable : Countable Rank.
Proof.
  apply (inj_countable rank_to_nat rank_of_nat).
  intros []; reflexivity.
Defined.

Definition rankValue (r : Rank) : Z :=
  match r with
  | Ace => 11
  | Jack | Queen | King | R10 => 10
  | R2 => 2 | R3 => 3 | R4 => 4 | R5 => 5 | R6 => 6 | R7 => 7 | R8 => 8 | R9 => 9
  end.

(** [blackjackPays: 1.5 | 1.2]. *)
Inductive Payout : Type := Pays3to2 | Pays6to5.

Definition payoutValue (p : Payout) : Qc :=
  match p with
  | Pays3to2 => Q2Qc (3 # 2)
  | Pays6to5 => Q2Qc (6 # 5)
  end.

Record Rules : Type := {
  decks : Z;
  dealerHitsSoft17 : bool;
  blackjackPays : Payout;
  lateSurrender : bool;
  doubleAllowed : bool;
  doubleAfterSplit : bool;
  resplitPairs : Z;
  splitAcesOneCardOnly : bool;
  resplitAces : bool
}.

Definition DEFAULT_RULES : Rules := {|
  decks := 6;
  dealerHitsSoft17 := true;
  blackjackPays := Pays3to2;
  lateSurrender := true;
  doubleAllowed := true;
  doubleAfterSplit := true;
  resplitPairs := 3;
  splitAcesOneCardOnly := true;
  resplitAces := false
|}.

Definition Hand : Type := list Rank.

(** ** Hand utilities *)

Record Totals : Type := {
  hard : Z;
  soft : option Z;
  isSoft : bool;
  best : Z
}.

(** First loop of [handTotals]: non-ace points and number of aces. *)
Fixpoint countCards (cards : Hand) (total aces : Z) : Z * Z :=
  match cards with
  | [] => (total, aces)
  | r :: rest =>
      if decide (r = Ace) then countCards rest total (aces + 1)
      else countCards rest (total + rankValue r) aces
  end.

(** Second loop of [handTotals]: [n] iterations remain, [i] is the loop
    index. *)
Fixpoint placeAces (n : nat) (i aces best0 : Z) : Z :=
  match n with
  | O => best0
  | S n' =>
      placeAces n' (i + 1) aces
        (if best0 + 11 <=? 21 - (aces - 1 - i) then best0 + 11 else best0 + 1)
  end.

Definition handTotals (cards : Hand) : Totals :=
  let '(total, aces) := countCards cards 0 0 in
  let best0 := placeAces (Z.to_nat aces) 0 aces total in
  let isSoft0 := (0 <? aces) && (best0 <=? 21) && (best0 - total - (aces - 1) =? 11) in
  let hard0 := total + aces * 1 in
  {| hard := hard0;
     soft := if isSoft0 then Some best0 else None;
     isSoft := isSoft0;
     best := if isSoft0 then best0 else hard0 |}.

Definition includesAce (cards : Hand) : bool :=
  existsb (fun r => bool_decide (r = Ace)) cards.

Definition isBlackjack (cards : Hand) : bool :=
  (length cards =? 2)%nat && (best (handTotals cards) =? 21) && includesAce cards.

Definition isBust (cards : Hand) : bool := 21 <? best (handTotals cards).

Definition normalizeRank (r : Rank) : Rank :=
  match r with
  | Jack | Queen | King => R10
  | _ => r
  end.

Definition canSplit (cards : Hand) : bool :=
  match cards with
  | [c0; c1] => bool_decide (normalizeRank c0 = normalizeRank c1)
  | _ => false
  end.

(** ** Finite shoe model *)

(** [Record<Rank, number>]: one count per rank. *)
Record Shoe : Type := {
  cA : Z; c2 : Z; c3 : Z; c4 : Z; c5 : Z; c6 : Z; c7 : Z;
  c8 : Z; c9 : Z; c10 : Z; cJ : Z; cQ : Z; cK : Z
}.

(** [s[r]] *)
Definition count (s : Shoe) (r : Rank) : Z :=
  match r with
  | Ace => cA s | R2 => c2 s | R3 => c3 s | R4 => c4 s | R5 => c5 s
  | R6 => c6 s | R7 => c7 s | R8 => c8 s | R9 => c9 s | R10 => c10 s
  | Jack => cJ s | Queen => cQ s | King => cK s
  end.

(** [s[r] = v] *)
Definition setCount (s : Shoe) (r : Rank) (v : Z) : Shoe :=
  let 'Build_Shoe a b c d e f g h i j k l m := s in
  match r with
  | Ace => Build_Shoe v b c d e f g h i j k l m
  | R2 => Build_Shoe a v c d e f g h i j k l m
  | R3 => Build_Shoe a b v d e f g h i j k l m
  | R4 => Build_Shoe a b c v e f g h i j k l m
  | R5 => Build_Shoe a b c d v f g h i j k l m
  | R6 => Build_Shoe a b c d e v g h i j k l m
  | R7 => Build_Shoe a b c d e f v h i j k l m
  | R8 => Build_Shoe a b c d e f g v i j k l m
  | R9 => Build_Shoe a b c d e f g h v j k l m
  | R10 => Build_Shoe a b c d e f g h i v k l m
  | Jack => Build_Shoe a b c d e f g h i j v l m
  | Queen => Build_Shoe a b c d e f g h i j k v m
  | King => Build_Shoe a b c d e f g h i j k l v
  end.

Definition zeroShoe : Shoe := Build_Shoe 0 0 0 0 0 0 0 0 0 0 0 0 0.

Definition makeFullShoe (nDecks : Z) : Shoe :=
  fold_left (fun s r => setCount s r (4 * nDecks)) RANKS zeroShoe.

Definition shoeTotal (s : Shoe) : Z :=
  fold_left (fun t r => t + count s r) RANKS 0.

Definition draw (s : Shoe) (r : Rank) : Shoe := setCount s r (count s r - 1).
Definition undraw (s : Shoe) (r : Rank) : Shoe := setCount s r (count s r + 1).

(** [RANKS.map(r => s[r]).join(",")]: the list of the thirteen counts. *)
Definition shoeKey (s : Shoe) : list Z := map (count s) RANKS.

(** The local closure [remove] of [initShoeMulti]. *)
Definition removeCard (s : Shoe) (r : Rank) : Shoe :=
  if 0 <? count s r then setCount s r (count s r - 1) else s.

Definition initShoeMulti (nDecks : Z) (hands : list Hand) (dealerUp : Rank) : Shoe :=
  let s := fold_left (fun s h => fold_left removeCard h s) hands (makeFullShoe nDecks) in
  removeCard s dealerUp.

(** Every count is non-negative (the shoe invariant of the data model). *)
Definition shoe_wf (s : Shoe) : Prop := forall r, 0 <= count s r.

(** Number of cards that can still be drawn: the recursion measure. *)
Definition drawable (s : Shoe) : Z :=
  fold_left (fun t r => t + Z.max 0 (count s r)) RANKS 0.

(** ** Numbers *)

Local Open Scope Qc_scope.

Definition ofZ (z : Z) : Qc := Q2Qc (inject_Z z).

(** [Math.max] on two finite numbers. *)
Definition Qcmax (a b : Qc) : Qc :=
  match a ?= b with
  | Lt => b
  | _ => a
  end.

(** [Math.max(a, o)] where [None] stands for the sentinel
    [Number.NEGATIVE_INFINITY] of an action that is not available. *)
Definition maxOpt (a : Qc) (o : option Qc) : Qc :=
  match o with
  | Some b => Qcmax a b
  | None => a
  end.

(** ** JavaScript objects used as records: insertion-ordered key/value lists *)

Section AList.
Context {K V : Type} `{EqDecision K}.

(** [o[k]] *)
Fixpoint alookup (k : K) (o : list (K * V)) : option V :=
  match o with
  | [] => None
  | (k', v) :: rest => if decide (k = k') then Some v else alookup k rest
  end.

(** [o[k] = v]: overwrite in place or append a new key. *)
Fixpoint aset (k : K) (v : V) (o : list (K * V)) : list (K * V) :=
  match o with
  | [] => [(k, v)]
  | (k', v') :: rest =>
      if decide (k = k') then (k, v) :: rest else (k', v') :: aset k v rest
  end.

(** [Object.keys(o)] *)
Definition akeys (o : list (K * V)) : list K := map fst o.
End AList.

(** ** The state and error monad *)

Inductive res (X : Type) : Type :=
  | Ok (x : X)
  | DivByZero
  | OutOfFuel.
Arguments Ok {X} x.
Arguments DivByZero {X}.
Arguments OutOfFuel {X}.

Definition M (St X : Type) : Type := St -> res (X * St).

#[global] Instance M_ret {St} : MRet (M St) :=
  fun X x st => Ok (x, st).

#[global] Instance M_bind {St} : MBind (M St) :=
  fun X Y k m st =>
    match m st with
    | Ok (x, st') => k x st'
    | DivByZero => DivByZero
    | OutOfFuel => OutOfFuel
    end.

Definition outOfFuel {St X} : M St X := fun _ => OutOfFuel.

(** [a / b] on numbers, failing where JavaScript leaves the finite numbers. *)
Definition divide {St} (a b : Z) : M St Qc :=
  fun st => if (b =? 0)%Z then DivByZero else Ok (ofZ a / ofZ b, st).

(** States are a shoe together with the table ([Map]) of the enclosing
    evaluation. *)
Definition getShoe {T} : M (Shoe * T) Shoe := fun st => Ok (fst st, st).
Definition modifyShoe {T} (f : Shoe -> Shoe) : M (Shoe * T) unit :=
  fun st => Ok (tt, (f (fst st), snd st)).
Definition getTable {T} : M (Shoe * T) T := fun st => Ok (snd st, st).
Definition modifyTable {T} (f : T -> T) : M (Shoe * T) unit :=
  fun st => Ok (tt, (fst st, f (snd st))).

(** Run [m] with a table of its own ([new Map()]) on the caller's shoe. *)
Definition scoped {T X} (init : T) (m : M (Shoe * T) X) : M Shoe X :=
  fun shoe =>
    match m (shoe, init) with
    | Ok (x, st') => Ok (x, fst st')
    | DivByZero => DivByZero
    | OutOfFuel => OutOfFuel
    end.

(** Call a function that only knows the shoe. *)
Definition liftShoe {T X} (m : M Shoe X) : M (Shoe * T) X :=
  fun st =>
    match m (fst st) with
    | Ok (x, shoe') => Ok (x, (shoe', snd st))
    | DivByZero => DivByZero
    | OutOfFuel => OutOfFuel
    end.

(** [for (const r of l) acc = body(r, acc)] *)
Fixpoint foldM {St X} (body : Rank -> X -> M St X) (l : list Rank) (acc : X) : M St X :=
  match l with
  | [] => mret acc
  | r :: rest => acc' ← body r acc; foldM body rest acc'
  end.

(** One iteration of the loop every evaluator runs over the ranks:
[[
      if (shoe[r] <= 0) continue;
      const p = shoe[r] / tot;
      draw(shoe, r);  x = child(r);  undraw(shoe, r);
      acc = upd(acc, p, x);
]] *)
Definition drawStep {T X Acc} (tot : Z) (child : Rank -> M (Shoe * T) X)
    (upd : Acc -> Qc -> X -> Acc) (r : Rank) (acc : Acc) : M (Shoe * T) Acc :=
  shoe ← getShoe;
  if (count shoe r <=? 0)%Z then mret acc
  else
    p ← divide (count shoe r) tot;
    _ ← modifyShoe (fun s => draw s r);
    x ← child r;
    _ ← modifyShoe (fun s => undraw s r);
    mret (upd acc p x).

(** [const tot = shoeTotal(shoe); for (const r of RANKS) { ... }] *)
Definition drawLoop {T X Acc} (child : Rank -> M (Shoe * T) X)
    (upd : Acc -> Qc -> X -> Acc) (init : Acc) : M (Shoe * T) Acc :=
  shoe ← getShoe;
  foldM (drawStep (shoeTotal shoe) child upd) RANKS init.

(** ** Dealer distribution with finite shoe *)

(** Keys of the outcome record: [String(t.best)] or ["bust"]. *)
Inductive Outcome : Type :=
  | OTotal (t : Z)
  | OBust.

#[global] Instance Outcome_eq_dec : EqDecision Outcome.
Proof. solve_decision. Defined.

Definition Dist : Type := list (Outcome * Qc).

(** [o[k] || 0] *)
Definition dget (o : Dist) (k : Outcome) : Qc := default 0 (alookup k o).

(** [for (const k of Object.keys(next)) out[k] = (out[k] || 0) + p * next[k]] *)
Definition mix (out : Dist) (p : Qc) (next : Dist) : Dist :=
  fold_left (fun o k => aset k (dget o k + p * dget next k) o) (akeys next) out.

(** The memo key [`${t.best}|${t.isSoft ? "S" : "H"}|${shoeKey(shoe)}`]. *)
Definition DKey : Type := Z * bool * list Z.

Definition shouldStand (t : Totals) (rules : Rules) : bool :=
  if (21 <? best t)%Z then false
  else if isSoft t then
    if (17 <? best t)%Z then true
    else if (best t =? 17)%Z then negb (dealerHitsSoft17 rules)
    else false
  else (17 <=? best t)%Z.

Definition memoSet (key : DKey) (out : Dist) : M (Shoe * gmap DKey Dist) Dist :=
  _ ← modifyTable (fun memo => <[key := out]> memo);
  mret out.

Fixpoint probsFor (rules : Rules) (fuel : nat) (cards : Hand)
    : M (Shoe * gmap DKey Dist) Dist :=
  match fuel with
  | O => outOfFuel
  | S fuel' =>
      shoe ← getShoe;
      let t := handTotals cards in
      let key : DKey := (best t, isSoft t, shoeKey shoe) in
      memo ← getTable;
      match memo !! key with
      | Some out => mret out
      | None =>
          if (length cards =? 2)%nat && (best t =? 21)%Z then
            memoSet key [(OTotal 21, 1)]
          else if (21 <? best t)%Z then
            memoSet key [(OBust, 1)]
          else if shouldStand t rules then
            memoSet key [(OTotal (best t), 1)]
          else if (shoeTotal shoe =? 0)%Z then
            memoSet key []
          else
            out ← drawLoop (fun r => probsFor rules fuel' (cards ++ [r])) mix [];
            memoSet key out
      end
  end.

Definition fuelFor (shoe : Shoe) : nat := S (Z.to_nat (drawable shoe)).

Definition dealerOutcomeProbs (upcard : Rank) (rules : Rules) : M Shoe Dist :=
  fun shoeStart =>
    scoped (∅ : gmap DKey Dist)
      (drawLoop (fun r => probsFor rules (fuelFor shoeStart) [upcard; r]) mix [])
      shoeStart.

(** ** EV engine (finite shoe, recursion + memo) *)

Module Ctx.
Record PlayerContext : Type := {
  rules : Rules;
  upcard : Rank;
  canDouble : bool;
  canSplit : bool;
  splitDepth : Z;
  isSplitAces : bool;
  doubleAfterSplit : option bool   (* optional field: [None] is [undefined] *)
}.
End Ctx.
Abbreviation PlayerContext := Ctx.PlayerContext.

(** Truthiness of an optional boolean: [undefined] is falsy. *)
Definition truthy (o : option bool) : bool := default false o.

Definition standOutcome (pt : Z) (dist : Dist) (ev : Qc) (k : Outcome) : Qc :=
  let p := dget dist k in
  match k with
  | OBust => ev + p
  | OTotal dt =>
      if (dt <? pt)%Z then ev + p
      else if (pt <? dt)%Z then ev - p
      else ev
  end.

Definition evStand (player : Hand) (upcard : Rank) (rules : Rules) : M Shoe Qc :=
  let pt := best (handTotals player) in
  if (21 <? pt)%Z then mret (-(1))
  else
    dist ← dealerOutcomeProbs upcard rules;
    mret (fold_left (standOutcome pt dist) (akeys dist) 0).

Definition evInitialBlackjack (upcard : Rank) (rules : Rules) : M Shoe Qc :=
  dist ← dealerOutcomeProbs upcard rules;
  let pDealerBJ := dget dist (OTotal 21) in
  let payout := payoutValue (blackjackPays rules) in
  mret ((1 - pDealerBJ) * payout).

(** [handKey]: the pairs (normalized rank, number of cards) of the hand, in
    the order [sort()] gives their strings: "10" < "2" < ... < "9" < "A". *)
Definition handKeyOrder : list Rank := [R10; R2; R3; R4; R5; R6; R7; R8; R9; Ace].

Definition handKey (hand : Hand) : list (Rank * nat) :=
  let normalized := map normalizeRank hand in
  filter (fun e => bool_decide (snd e ≠ O))
    (map (fun r => (r, length (filter (fun x => x = r) normalized))) handKeyOrder).

(** The cache key of [bestActionEV]; the fields are joined with "|" in the
    source. *)
Definition CKey : Type :=
  list (Rank * nat) * (Z * bool) * Rank * bool * bool * Z * bool * bool * bool * list Z.

Definition cacheKey (hand : Hand) (ctx : PlayerContext) (shoe : Shoe) : CKey :=
  let t := handTotals hand in
  (handKey hand, (best t, isSoft t), Ctx.upcard ctx, Ctx.canDouble ctx,
   Ctx.canSplit ctx, Ctx.splitDepth ctx, Ctx.isSplitAces ctx,
   dealerHitsSoft17 (Ctx.rules ctx), lateSurrender (Ctx.rules ctx), shoeKey shoe).

Definition cacheSet (key : CKey) (v : Qc) : M (Shoe * gmap CKey Qc) Qc :=
  _ ← modifyTable (fun cache => <[key := v]> cache);
  mret v.

(** The context of the two hands a split produces. *)
Definition childCtx (ctx : PlayerContext) (splittingAces canResplit : bool) : PlayerContext :=
  {| Ctx.rules := Ctx.rules ctx;
     Ctx.upcard := Ctx.upcard ctx;
     Ctx.canDouble := truthy (Ctx.doubleAfterSplit ctx);
     Ctx.canSplit := canResplit;
     Ctx.splitDepth := Ctx.splitDepth ctx + 1;
     Ctx.isSplitAces := splittingAces;
     Ctx.doubleAfterSplit := Ctx.doubleAfterSplit ctx |}.

Section Actions.
(** The blocks below occur twice in the source, in [bestActionEV] and in
    [actionEVsFinite]; [recur] is the recursive call to [bestActionEV]. *)
Context (recur : Hand -> PlayerContext -> M (Shoe * gmap CKey Qc) Qc).
Context (hand : Hand) (ctx : PlayerContext).

Definition standOn (h : Hand) : M (Shoe * gmap CKey Qc) Qc :=
  liftShoe (evStand h (Ctx.upcard ctx) (Ctx.rules ctx)).

Definition hitChild (r : Rank) : M (Shoe * gmap CKey Qc) Qc :=
  if Ctx.isSplitAces ctx && splitAcesOneCardOnly (Ctx.rules ctx)
  then standOn (hand ++ [r])
  else recur (hand ++ [r]) ctx.

Definition hitBlock : M (Shoe * gmap CKey Qc) Qc :=
  drawLoop hitChild (fun hitEV p v => hitEV + p * v) 0.

Definition doubleCond : bool :=
  Ctx.canDouble ctx && (length hand =? 2)%nat && doubleAllowed (Ctx.rules ctx).

Definition doubleBlock : M (Shoe * gmap CKey Qc) Qc :=
  v2 ← drawLoop (fun r => standOn (hand ++ [r])) (fun v2 p v => v2 + p * v) 0;
  mret (2 * v2).

Definition surrenderCond : bool :=
  lateSurrender (Ctx.rules ctx) && (length hand =? 2)%nat && (Ctx.splitDepth ctx =? 0)%Z.

(** [hand.length === 2 && normalizeRank(hand[0]) === normalizeRank(hand[1])] *)
Definition pairCond : bool :=
  match hand with
  | [h0; h1] => bool_decide (normalizeRank h0 = normalizeRank h1)
  | _ => false
  end.

Definition splitChild (h0 h1 : Rank) (r : Rank) : M (Shoe * gmap CKey Qc) (Qc * Qc) :=
  let splittingAces := bool_decide (h0 = Ace) && bool_decide (h1 = Ace) in
  let canResplit :=
    (Ctx.splitDepth ctx <? resplitPairs (Ctx.rules ctx))%Z
    && (if splittingAces then resplitAces (Ctx.rules ctx) else true) in
  let child := childCtx ctx splittingAces canResplit in
  leftEV ← (if splittingAces && splitAcesOneCardOnly (Ctx.rules ctx)
            then standOn [h0; r] else recur [h0; r] child);
  rightEV ← (if splittingAces && splitAcesOneCardOnly (Ctx.rules ctx)
             then standOn [h1; r] else recur [h1; r] child);
  mret (leftEV, rightEV).

Definition splitBlock (h0 h1 : Rank) : M (Shoe * gmap CKey Qc) Qc :=
  lr ← drawLoop (splitChild h0 h1)
         (fun lr p x => (fst lr + p * fst x, snd lr + p * snd x)) (0, 0);
  mret (fst lr + snd lr).
End Actions.

Fixpoint bestActionEV (fuel : nat) (hand : Hand) (ctx : PlayerContext)
    : M (Shoe * gmap CKey Qc) Qc :=
  match fuel with
  | O => outOfFuel
  | S fuel' =>
      shoe ← getShoe;
      let key := cacheKey hand ctx shoe in
      cache ← getTable;
      match cache !! key with
      | Some v => mret v
      | None =>
          if isBust hand then cacheSet key (-(1))
          else
            let initial := (length hand =? 2)%nat && (Ctx.splitDepth ctx =? 0)%Z in
            if initial && isBlackjack hand then
              v ← liftShoe (evInitialBlackjack (Ctx.upcard ctx) (Ctx.rules ctx));
              cacheSet key v
            else
              standEV ← standOn ctx hand;
              hitEV ← hitBlock (bestActionEV fuel') hand ctx;
              doubleEV ← (if doubleCond hand ctx
                          then v ← doubleBlock hand ctx; mret (Some v)
                          else mret None);
              let surrenderEV :=
                if surrenderCond hand ctx then Some (Q2Qc (-1 # 2)) else None in
              splitEV ← (match hand with
                         | [h0; h1] =>
                             if Ctx.canSplit ctx && pairCond hand
                             then v ← splitBlock (bestActionEV fuel') ctx h0 h1; mret (Some v)
                             else mret None
                         | _ => mret None
                         end);
              let bestEV :=
                maxOpt (maxOpt (maxOpt (Qcmax standEV hitEV) doubleEV) surrenderEV) splitEV in
              cacheSet key bestEV
      end
  end.

(** The table [{ [action: string]: number }] of [actionEVsFinite]. *)
Definition Table : Type := list (string * Qc).

Definition actionEVsFinite (hand : Hand) (ctx : PlayerContext) : M Shoe Table :=
  fun shoe0 =>
    scoped (∅ : gmap CKey Qc)
      (standEV ← standOn ctx hand;
       let res := aset "Stand"%string standEV [] in
       hitEV ← hitBlock (bestActionEV (fuelFor shoe0)) hand ctx;
       let res := aset "Hit"%string hitEV res in
       res ← (if doubleCond hand ctx
              then v ← doubleBlock hand ctx; mret (aset "Double"%string v res)
              else mret res);
       let res :=
         if surrenderCond hand ctx then aset "Surrender"%string (Q2Qc (-1 # 2)) res
         else res in
       res ← (match hand with
              | [h0; h1] =>
                  if pairCond hand
                  then v ← splitBlock (bestActionEV (fuelFor shoe0)) ctx h0 h1;
                       mret (aset "Split"%string v res)
                  else mret res
              | _ => mret res
              end);
       if (length hand =? 2)%nat && isBlackjack hand then
         v ← liftShoe (evInitialBlackjack (Ctx.upcard ctx) (Ctx.rules ctx));
         mret (aset "Blackjack"%string v res)
       else mret res)
      shoe0.

(** The context the application builds for each hand it shows. *)
Definition initialCtx (rules : Rules) (dealerUp : Rank) (hand : Hand) : PlayerContext :=
  {| Ctx.rules := rules;
     Ctx.upcard := dealerUp;
     Ctx.canDouble := (length hand =? 2)%nat;
     Ctx.canSplit := canSplit hand;
     Ctx.splitDepth := 0;
     Ctx.isSplitAces := false;
     Ctx.doubleAfterSplit := Some (doubleAfterSplit rules) |}.

(** ** Vocabulary of the statements *)

(** Points of a card when every ace counts 1. *)
Definition hardValue (r : Rank) : Z :=
  match r with
  | Ace => 1
  | _ => rankValue r
  end.

(** The outcome keys a banker distribution may hold. *)
Definition validOutcome (k : Outcome) : Prop :=
  match k with
  | OTotal t => (17 <= t <= 21)%Z
  | OBust => True
  end.

(** Sum of the probabilities of a record. *)
Definition dsum (d : Dist) : Qc := fold_right (fun e acc => snd e + acc) 0 d.

(** The standing rule as the specification words it. *)
Definition standsBySpec (t : Totals) (rules : Rules) : Prop :=
  (isSoft t = false /\ (17 <= best t)%Z)
  \/ (isSoft t = true /\ (17 < best t)%Z)
  \/ (isSoft t = true /\ best t = 17%Z /\ dealerHitsSoft17 rules = false).

(** Probability of drawing rank [r] from the shoe. *)
Definition weight (s : Shoe) (r : Rank) : Qc := ofZ (count s r) / ofZ (shoeTotal s).

(** Shoe-weighted sum of [f] over the ranks of [l] with positive count. *)
Definition weightedOver (s : Shoe) (f : Rank -> Qc) (l : list Rank) : Qc :=
  fold_right (fun r acc => (if (0 <? count s r)%Z then weight s r * f r else 0) + acc)
    0 l.

(** Shoe-weighted average of [f] over every rank with positive count. *)
Definition weightedAvg (s : Shoe) (f : Rank -> Qc) : Qc := weightedOver s f RANKS.

(** Value part of a result (0 when there is none). *)
Definition valueOf {X} (r : res (Qc * X)) : Qc :=
  match r with
  | Ok (v, _) => v
  | _ => 0
  end.

(** Stand-EV of [hand] extended by [r], after [r] has left the shoe. *)
Definition standAfterDraw (hand : Hand) (upcard : Rank) (rules : Rules) (s : Shoe)
    (r : Rank) : Qc :=
  valueOf (evStand (hand ++ [r]) upcard rules (draw s r)).

(** Sum of [f] over a list of keys. *)
Definition sumKeys (f : Outcome -> Qc) (ks : list Outcome) : Qc :=
  fold_right (fun k acc => f k + acc) 0 ks.

(** A banker distribution: distinct keys, all of them legal outcomes, and
    (when [exact] is set) probabilities that add up to 1. *)
Definition goodDist (exact : bool) (d : Dist) : Prop :=
  NoDup (akeys d) /\ Forall validOutcome (akeys d) /\ (exact = true -> dsum d = 1).

Definition memoGood (exact : bool) (memo : gmap DKey Dist) : Prop :=
  map_Forall (fun _ d => goodDist exact d) memo.

(** Cards of the ranks in [l] that can still be drawn. *)
Definition posSum (s : Shoe) (l : list Rank) : Z :=
  fold_right (fun r acc => Z.max 0 (count s r) + acc)%Z 0%Z l.

(** The invariant of a mixing loop: the mass gathered so far is the share
    of the ranks already visited. *)
Definition mixInv (exact : bool) (s : Shoe) (rest : list Rank) (acc : Dist) : Prop :=
  NoDup (akeys acc) /\ Forall validOutcome (akeys acc)
  /\ (exact = true -> dsum acc = ofZ (shoeTotal s - posSum s rest) / ofZ (shoeTotal s)).

(** A computation gives the shoe back: whenever it returns, the shoe is
    the one it was started on. *)
Definition restores {T X} (m : M (Shoe * T) X) : Prop :=
  forall s t x s' t', m (s, t) = Ok (x, (s', t')) -> s' = s.

Definition restoresShoe {X} (m : M Shoe X) : Prop :=
  forall s x s', m s = Ok (x, s') -> s' = s.

(** The table [actionEVsFinite] builds, entry by entry in insertion order,
    given the values of its Hit and Split blocks. *)
Definition tableOf (hand : Hand) (ctx : PlayerContext) (s : Shoe) (hitEV splitEV : Qc)
    : Table :=
  let up := Ctx.upcard ctx in
  let rules := Ctx.rules ctx in
  [("Stand"%string, valueOf (evStand hand up rules s)); ("Hit"%string, hitEV)]
  ++ (if doubleCond hand ctx
      then [("Double"%string, 2 * weightedAvg s (standAfterDraw hand up rules s))]
      else [])
  ++ (if surrenderCond hand ctx then [("Surrender"%string, Q2Qc (-1 # 2))] else [])
  ++ (if pairCond hand then [("Split"%string, splitEV)] else [])
  ++ (if (length hand =? 2)%nat && isBlackjack hand
      then [("Blackjack"%string, valueOf (evInitialBlackjack up rules s))]
      else []).

(** ** The application's helpers *)

(** [{ move: string; ev: number }]; [None] is the [-Infinity] the search
    starts from. *)
Record BestMove : Type := {
  move : string;
  ev : option Qc
}.

(** [v > bestV] *)
Definition gtBest (v : Qc) (bestV : option Qc) : bool :=
  match bestV with
  | None => true
  | Some b => match b ?= v with Lt => true | _ => false end
  end.

Definition bestMoveFrom (evs : Table) : BestMove :=
  fold_left
    (fun acc e => if gtBest (snd e) (ev acc) then {| move := fst e; ev := Some (snd e) |}
                  else acc)
    evs {| move := "Stand"%string; ev := None |}.

(** One element of [perHand] in [App]. *)
Record HandInfo : Type := {
  evs : Table;
  bestOf : BestMove;
  totals : Totals;
  ctxOf : PlayerContext
}.

(** The body of [hands.map((hand) => ...)] in [App], on the shared
    [baseShoe]. *)
Definition evalHand (rules : Rules) (dealerUp : Rank) (hand : Hand) : M Shoe HandInfo :=
  let ctx := initialCtx rules dealerUp hand in
  tbl ← actionEVsFinite hand ctx;
  mret {| evs := tbl; bestOf := bestMoveFrom tbl; totals := handTotals hand; ctxOf := ctx |}.

Fixpoint perHandFrom (rules : Rules) (dealerUp : Rank) (hands : list Hand)
    : M Shoe (list HandInfo) :=
  match hands with
  | [] => mret []
  | hand :: rest =>
      info ← evalHand rules dealerUp hand;
      infos ← perHandFrom rules dealerUp rest;
      mret (info :: infos)
  end.

(** [baseShoe] and [perHand] of [App]. *)
Definition perHand (rules : Rules) (dealerUp : Rank) (hands : list Hand)
    : res (list HandInfo * Shoe) :=
  perHandFrom rules dealerUp hands (initShoeMulti (decks rules) hands dealerUp).

(** [s + h.best.ev] where either side may be [-Infinity]. *)
Definition addEV (s e : option Qc) : option Qc :=
  match s, e with
  | Some a, Some b => Some (a + b)
  | _, _ => None
  end.

(** [perHand.reduce((s, h) => s + h.best.ev, 0)] *)
Definition totalEV (infos : list HandInfo) : option Qc :=
  fold_left (fun s h => addEV s (ev (bestOf h))) infos (Some 0).

(** Number of visible cards of rank [r] among the hands and the upcard. *)
Definition visible (hands : list Hand) (dealerUp : Rank) (r : Rank) : Z :=
  Z.of_nat (length (filter (fun x => x = r) (concat hands ++ [dealerUp]))).

(** A banker record whose probabilities are non-negative and add up to at
    most 1. *)
Definition subDist (d : Dist) : Prop :=
  NoDup (akeys d) /\ Forall validOutcome (akeys d)
  /\ Forall (fun e => 0 <= snd e) d /\ dsum d <= 1.

(** The invariant of a mixing loop for [subDist]: the mass gathered so
    far is at most the share of the ranks already visited. *)
Definition subInv (s : Shoe) (rest : list Rank) (acc : Dist) : Prop :=
  NoDup (akeys acc) /\ Forall validOutcome (akeys acc)
  /\ Forall (fun e => 0 <= snd e) acc
  /\ dsum acc <= ofZ (shoeTotal s - posSum s rest) / ofZ (shoeTotal s).

(** ** The banker recursion without memo and without mutation

    A reference for the memoized code: the algorithm of [probsFor] on shoe
    values, where every branch works on its own copy [draw shoe r] and
    nothing is cached. *)

Fixpoint foldRes {Acc} (step : Rank -> Acc -> res Acc) (l : list Rank) (acc : Acc)
    : res Acc :=
  match l with
  | [] => Ok acc
  | r :: rest =>
      match step r acc with
      | Ok acc' => foldRes step rest acc'
      | DivByZero => DivByZero
      | OutOfFuel => OutOfFuel
      end
  end.

Definition pureStep {X Acc} (shoe : Shoe) (tot : Z) (child : Rank -> res X)
    (upd : Acc -> Qc -> X -> Acc) (r : Rank) (acc : Acc) : res Acc :=
  if (count shoe r <=? 0)%Z then Ok acc
  else if (tot =? 0)%Z then DivByZero
  else
    match child r with
    | Ok x => Ok (upd acc (ofZ (count shoe r) / ofZ tot) x)
    | DivByZero => DivByZero
    | OutOfFuel => OutOfFuel
    end.

Definition pureLoop {X Acc} (shoe : Shoe) (child : Rank -> res X)
    (upd : Acc -> Qc -> X -> Acc) (init : Acc) : res Acc :=
  foldRes (pureStep shoe (shoeTotal shoe) child upd) RANKS init.

Fixpoint probsPure (rules : Rules) (fuel : nat) (cards : Hand) (shoe : Shoe) : res Dist :=
  match fuel with
  | O => OutOfFuel
  | S fuel' =>
      let t := handTotals cards in
      if (length cards =? 2)%nat && (best t =? 21)%Z then Ok [(OTotal 21, 1)]
      else if (21 <? best t)%Z then Ok [(OBust, 1)]
      else if shouldStand t rules then Ok [(OTotal (best t), 1)]
      else if (shoeTotal shoe =? 0)%Z then Ok []
      else pureLoop shoe (fun r => probsPure rules fuel' (cards ++ [r]) (draw shoe r)) mix []
  end.

Definition dealerPure (upcard : Rank) (rules : Rules) (shoe : Shoe) : res Dist :=
  pureLoop shoe (fun r => probsPure rules (fuelFor shoe) [upcard; r] (draw shoe r)) mix [].

(** Every memo entry is what the reference computes for every hand and
    shoe that produce its key. *)
Definition memoSound (rules : Rules) (memo : gmap DKey Dist) : Prop :=
  forall b sf sk d,
    memo !! ((b, sf, sk) : DKey) = Some d ->
    forall cards s fuel,
      best (handTotals cards) = b -> isSoft (handTotals cards) = sf -> shoeKey s = sk ->
      (drawable s < Z.of_nat fuel)%Z ->
      probsPure rules fuel cards s = Ok d.

(** Two hands that no later card can tell apart. *)
Definition sameFuture (cards cards' : Hand) : Prop :=
  hard (handTotals cards) = hard (handTotals cards')
  /\ isSoft (handTotals cards) = isSoft (handTotals cards')
  /\ (includesAce cards = includesAce cards' \/ (12 <= hard (handTotals cards))%Z).

(** ** The player recursion without cache and without mutation

    A reference for [bestActionEV] and [actionEVsFinite]: the same
    algorithm on shoe values, every branch on its own copy of the shoe and
    nothing cached. *)

#[global] Instance res_ret : MRet res := fun X x => Ok x.

#[global] Instance res_bind : MBind res :=
  fun X Y k m =>
    match m with
    | Ok x => k x
    | DivByZero => DivByZero
    | OutOfFuel => OutOfFuel
    end.

(** The value a shoe computation returns. *)
Definition resValue {X St} (r : res (X * St)) : res X :=
  match r with
  | Ok (x, _) => Ok x
  | DivByZero => DivByZero
  | OutOfFuel => OutOfFuel
  end.

Definition standPure (ctx : PlayerContext) (h : Hand) (shoe : Shoe) : res Qc :=
  resValue (evStand h (Ctx.upcard ctx) (Ctx.rules ctx) shoe).

Section PureActions.
Context (recur : Hand -> PlayerContext -> Shoe -> res Qc).
Context (hand : Hand) (ctx : PlayerContext) (shoe : Shoe).

Definition hitPure : res Qc :=
  pureLoop shoe
    (fun r => if Ctx.isSplitAces ctx && splitAcesOneCardOnly (Ctx.rules ctx)
              then standPure ctx (hand ++ [r]) (draw shoe r)
              else recur (hand ++ [r]) ctx (draw shoe r))
    (fun hitEV p v => hitEV + p * v) 0.

Definition doublePure : res Qc :=
  v2 ← pureLoop shoe (fun r => standPure ctx (hand ++ [r]) (draw shoe r))
         (fun v2 p v => v2 + p * v) 0;
  mret (2 * v2).

Definition splitChildPure (h0 h1 r : Rank) : res (Qc * Qc) :=
  let splittingAces := bool_decide (h0 = Ace) && bool_decide (h1 = Ace) in
  let canResplit :=
    (Ctx.splitDepth ctx <? resplitPairs (Ctx.rules ctx))%Z
    && (if splittingAces then resplitAces (Ctx.rules ctx) else true) in
  let child := childCtx ctx splittingAces canResplit in
  leftEV ← (if splittingAces && splitAcesOneCardOnly (Ctx.rules ctx)
            then standPure ctx [h0; r] (draw shoe r)
            else recur [h0; r] child (draw shoe r));
  rightEV ← (if splittingAces && splitAcesOneCardOnly (Ctx.rules ctx)
             then standPure ctx [h1; r] (draw shoe r)
             else recur [h1; r] child (draw shoe r));
  mret (leftEV, rightEV).

Definition splitPure (h0 h1 : Rank) : res Qc :=
  lr ← pureLoop shoe (splitChildPure h0 h1)
         (fun lr p x => (fst lr + p * fst x, snd lr + p * snd x)) (0, 0);
  mret (fst lr + snd lr).
End PureActions.

Fixpoint bestPure (fuel : nat) (hand : Hand) (ctx : PlayerContext) (shoe : Shoe)
    : res Qc :=
  match fuel with
  | O => OutOfFuel
  | S fuel' =>
      if isBust hand then Ok (-(1))
      else if (length hand =? 2)%nat && (Ctx.splitDepth ctx =? 0)%Z && isBlackjack hand
      then resValue (evInitialBlackjack (Ctx.upcard ctx) (Ctx.rules ctx) shoe)
      else
        standEV ← standPure ctx hand shoe;
        hitEV ← hitPure (bestPure fuel') hand ctx shoe;
        doubleEV ← (if doubleCond hand ctx
                    then v ← doublePure hand ctx shoe; mret (Some v)
                    else mret None);
        let surrenderEV :=
          if surrenderCond hand ctx then Some (Q2Qc (-1 # 2)) else None in
        splitEV ← (match hand with
                   | [h0; h1] =>
                       if Ctx.canSplit ctx && pairCond hand
                       then v ← splitPure (bestPure fuel') ctx shoe h0 h1; mret (Some v)
                       else mret None
                   | _ => mret None
                   end);
        mret (maxOpt (maxOpt (maxOpt (Qcmax standEV hitEV) doubleEV) surrenderEV) splitEV)
  end.

(** The table of [actionEVsFinite], every entry computed by the reference. *)
Definition tablePure (hand : Hand) (ctx : PlayerContext) (shoe : Shoe) : res Table :=
  standEV ← standPure ctx hand shoe;
  hitEV ← hitPure (bestPure (fuelFor shoe)) hand ctx shoe;
  splitEV ← (match hand with
             | [h0; h1] =>
                 if pairCond hand then splitPure (bestPure (fuelFor shoe)) ctx shoe h0 h1
                 else mret 0
             | _ => mret 0
             end);
  mret (tableOf hand ctx shoe hitEV splitEV).

(** Every cache entry is what the reference computes for every hand,
    context (of the same rules and double-after-split setting) and shoe
    that produce its key. *)
Definition cacheSound (rules0 : Rules) (das0 : option bool) (cache : gmap CKey Qc) : Prop :=
  forall key v,
    cache !! key = Some v ->
    forall hand ctx s fuel,
      cacheKey hand ctx s = key ->
      Ctx.rules ctx = rules0 -> Ctx.doubleAfterSplit ctx = das0 ->
      (drawable s < Z.of_nat fuel)%Z ->
      bestPure fuel hand ctx s = Ok v.

(** Two hands with the same normalized cards up to order. *)
Definition sameCards (hand hand' : Hand) : Prop :=
  Permutation (map normalizeRank hand) (map normalizeRank hand').

(** ** Shoe arithmetic *)

Lemma shoeTotal_fields s :
  shoeTotal s =
  (cA s + c2 s + c3 s + c4 s + c5 s + c6 s + c7 s + c8 s + c9 s + c10 s
   + cJ s + cQ s + cK s)%Z.
Proof. reflexivity. Qed.

Lemma count_setCount_same s r v : count (setCount s r v) r = v.
Proof. destruct s, r; reflexivity. Qed.

Lemma count_setCount_other s r r' v : r <> r' -> count (setCount s r v) r' = count s r'.
Proof. destruct s, r, r'; intros Hne; try reflexivity; congruence. Qed.

Lemma undraw_draw s r : undraw (draw s r) r = s.
Proof. destruct s, r; unfold undraw, draw; cbn; f_equal; lia. Qed.

Lemma shoeTotal_draw s r : shoeTotal (draw s r) = (shoeTotal s - 1)%Z.
Proof. destruct s, r; unfold shoeTotal, draw; cbn; lia. Qed.

Lemma drawable_draw s r :
  (0 < count s r)%Z -> drawable (draw s r) = (drawable s - 1)%Z.
Proof.
  destruct s, r; unfold drawable, draw; cbn; intros Hpos;
    match goal with
    | H : (0 < ?c)%Z |- _ =>
        rewrite (Z.max_r 0 (c - 1)), (Z.max_r 0 c) by lia
    end; ring.
Qed.

Lemma shoe_wf_draw s r : shoe_wf s -> (0 < count s r)%Z -> shoe_wf (draw s r).
Proof.
  intros Hwf Hpos r'. unfold draw.
  destruct (decide (r = r')) as [<- | Hne].
  - rewrite count_setCount_same. lia.
  - rewrite count_setCount_other by assumption. apply Hwf.
Qed.

Lemma shoe_wf_fields s :
  shoe_wf s ->
  (0 <= cA s /\ 0 <= c2 s /\ 0 <= c3 s /\ 0 <= c4 s /\ 0 <= c5 s /\ 0 <= c6 s
   /\ 0 <= c7 s /\ 0 <= c8 s /\ 0 <= c9 s /\ 0 <= c10 s /\ 0 <= cJ s
   /\ 0 <= cQ s /\ 0 <= cK s)%Z.
Proof.
  intros H.
  pose proof (H Ace); pose proof (H R2); pose proof (H R3); pose proof (H R4);
  pose proof (H R5); pose proof (H R6); pose proof (H R7); pose proof (H R8);
  pose proof (H R9); pose proof (H R10); pose proof (H Jack); pose proof (H Queen);
  pose proof (H King). cbn in *. lia.
Qed.

Lemma drawable_wf s : shoe_wf s -> drawable s = shoeTotal s.
Proof.
  intros H. apply shoe_wf_fields in H. destruct s; unfold drawable, shoeTotal; cbn in *.
  rewrite !Z.max_r by lia. reflexivity.
Qed.

Lemma drawable_acc_nonneg s l acc :
  (0 <= acc)%Z -> (0 <= fold_left (fun t r => t + Z.max 0 (count s r)) l acc)%Z.
Proof.
  revert acc. induction l as [| r rest IH]; intros acc Hacc; cbn [fold_left]; [exact Hacc |].
  apply IH. lia.
Qed.

Lemma drawable_nonneg s : (0 <= drawable s)%Z.
Proof. apply drawable_acc_nonneg. lia. Qed.

Lemma count_le_total s r : shoe_wf s -> (count s r <= shoeTotal s)%Z.
Proof.
  intros H. apply shoe_wf_fields in H. destruct s, r; unfold shoeTotal; cbn in *; lia.
Qed.

Lemma shoe_wf_total_pos s r : shoe_wf s -> (0 < count s r)%Z -> shoeTotal s <> 0%Z.
Proof. intros H Hpos. pose proof (count_le_total s r H). lia. Qed.

Lemma shoe_wf_empty s r : shoe_wf s -> shoeTotal s = 0%Z -> (count s r <= 0)%Z.
Proof. intros H Hz. pose proof (count_le_total s r H). lia. Qed.

(** ** Hand totals *)

Lemma countCards_sum cards total aces :
  let '(total', aces') := countCards cards total aces in
  (total' + aces' = total + aces + fold_right (fun r acc => hardValue r + acc) 0 cards
   /\ aces <= aces')%Z.
Proof.
  revert total aces. induction cards as [| r rest IH]; intros total aces; cbn.
  - lia.
  - destruct (decide (r = Ace)) as [-> | Hne].
    + specialize (IH total (aces + 1)%Z). destruct (countCards rest total (aces + 1)).
      cbn. lia.
    + specialize (IH (total + rankValue r)%Z aces).
      destruct (countCards rest (total + rankValue r) aces).
      assert (hardValue r = rankValue r) as -> by (destruct r; try reflexivity; congruence).
      lia.
Qed.

Lemma hard_handTotals cards :
  hard (handTotals cards) = fold_right (fun r acc => hardValue r + acc)%Z 0%Z cards.
Proof.
  unfold handTotals. pose proof (countCards_sum cards 0 0) as H.
  destruct (countCards cards 0 0) as [total aces]. cbn. lia.
Qed.

Lemma hardValue_pos r : (1 <= hardValue r)%Z.
Proof. destruct r; cbn; lia. Qed.

Lemma hard_app cards r :
  hard (handTotals (cards ++ [r])) = (hard (handTotals cards) + hardValue r)%Z.
Proof.
  rewrite !hard_handTotals. induction cards as [| c rest IH]; cbn; [lia |].
  cbn in IH. rewrite IH. lia.
Qed.

Lemma best_cases cards :
  let t := handTotals cards in
  (isSoft t = true /\ best t = (hard t + 10)%Z /\ (best t <= 21)%Z)
  \/ (isSoft t = false /\ best t = hard t).
Proof.
  unfold handTotals. destruct (countCards cards 0 0) as [total aces]. cbn.
  match goal with |- context [if ?b then _ else _] => destruct b eqn:E end; cbn.
  - left. apply andb_true_iff in E as [E E3]. apply andb_true_iff in E as [E1 E2].
    apply Z.eqb_eq in E3. apply Z.leb_le in E2. lia.
  - right. auto.
Qed.

(** ** C5 *)

Lemma shouldStand_spec t rules :
  (best t <= 21)%Z -> shouldStand t rules = true <-> standsBySpec t rules.
Proof.
  intros Hle. unfold shouldStand, standsBySpec.
  destruct (Z.ltb_spec 21 (best t)); [lia |].
  destruct (isSoft t).
  - destruct (Z.ltb_spec 17 (best t)).
    + split; [intros _; right; left; auto | auto].
    + destruct (Z.eqb_spec (best t) 17).
      * destruct (dealerHitsSoft17 rules); cbn; split; intros Hx;
          try discriminate; try reflexivity.
        -- destruct Hx as [[? _] | [[_ ?] | (_ & _ & ?)]]; try discriminate; lia.
        -- right; right; auto.
      * split; [discriminate |].
        intros [[? _] | [[_ ?] | (_ & ? & _)]]; try discriminate; lia.
  - destruct (Z.leb_spec 17 (best t)).
    + split; [intros _; left; auto | auto].
    + split; [discriminate |].
      intros [[_ ?] | [[? _] | (? & _)]]; try discriminate; lia.
Qed.

(** ** Reasoning about the monad and the loop over the ranks *)

Lemma bind_Ok {St X Y} (m : M St X) (k : X -> M St Y) st x st' :
  m st = Ok (x, st') -> (m ≫= k) st = k x st'.
Proof. intros H. unfold mbind, M_bind. rewrite H. reflexivity. Qed.

Lemma bind_inv {St X Y} (m : M St X) (k : X -> M St Y) st y st2 :
  (m ≫= k) st = Ok (y, st2) ->
  exists x st1, m st = Ok (x, st1) /\ k x st1 = Ok (y, st2).
Proof.
  unfold mbind, M_bind. destruct (m st) as [[x st1] | |]; try discriminate.
  intros H. exists x, st1. auto.
Qed.

Lemma foldM_inv {St X} (body : Rank -> X -> M St X) (Inv : list Rank -> X -> St -> Prop) :
  (forall r rest acc st, Inv (r :: rest) acc st ->
     exists acc' st', body r acc st = Ok (acc', st') /\ Inv rest acc' st') ->
  forall l acc st, Inv l acc st ->
    exists acc' st', foldM body l acc st = Ok (acc', st') /\ Inv [] acc' st'.
Proof.
  intros Hbody l. induction l as [| r rest IH]; intros acc st HI; cbn.
  - exists acc, st. auto.
  - destruct (Hbody _ _ _ _ HI) as (acc1 & st1 & E & HI1).
    rewrite (bind_Ok _ _ _ _ _ E). apply IH. exact HI1.
Qed.

Section DrawStep.
Context {T X Acc : Type}.
Context (tot : Z) (child : Rank -> M (Shoe * T) X) (upd : Acc -> Qc -> X -> Acc).

Lemma drawStep_skip r acc s t :
  (count s r <= 0)%Z -> drawStep tot child upd r acc (s, t) = Ok (acc, (s, t)).
Proof.
  intros H. unfold drawStep, mbind, M_bind, getShoe; cbn.
  destruct (Z.leb_spec (count s r) 0); [reflexivity | lia].
Qed.

Lemma drawStep_draw r acc s t x s' t' :
  (0 < count s r)%Z -> tot <> 0%Z ->
  child r (draw s r, t) = Ok (x, (s', t')) ->
  drawStep tot child upd r acc (s, t)
  = Ok (upd acc (ofZ (count s r) / ofZ tot) x, (undraw s' r, t')).
Proof.
  intros Hpos Htot Hchild. unfold drawStep, mbind, M_bind, getShoe, divide, modifyShoe; cbn.
  destruct (Z.leb_spec (count s r) 0); [lia |].
  destruct (Z.eqb_spec tot 0); [contradiction |].
  cbn. rewrite Hchild. reflexivity.
Qed.

(** Whatever a step returns, it returns with the shoe its child left,
    one card put back. *)
Lemma drawStep_inv r acc s t acc' s' t' :
  drawStep tot child upd r acc (s, t) = Ok (acc', (s', t')) ->
  ((count s r <= 0)%Z /\ s' = s /\ t' = t /\ acc' = acc)
  \/ ((0 < count s r)%Z /\ tot <> 0%Z /\
      exists x s1, child r (draw s r, t) = Ok (x, (s1, t')) /\ s' = undraw s1 r
                   /\ acc' = upd acc (ofZ (count s r) / ofZ tot) x).
Proof.
  unfold drawStep, mbind, M_bind, getShoe, divide, modifyShoe; cbn.
  destruct (Z.leb_spec (count s r) 0).
  - intros [= -> -> ->]. left. auto.
  - destruct (Z.eqb_spec tot 0); [discriminate |]. cbn.
    destruct (child r (draw s r, t)) as [[x [s1 t1]] | |] eqn:E; try discriminate.
    cbn. intros [= <- <- <-]. right. repeat split; try assumption.
    exists x, s1. auto.
Qed.
End DrawStep.

(** A loop over the ranks whose children give the shoe back, run on a
    well-formed shoe: it ends, gives the shoe back, and establishes any
    invariant its steps preserve. *)
Lemma drawLoop_spec {T X Acc} (child : Rank -> M (Shoe * T) X)
    (upd : Acc -> Qc -> X -> Acc) (init : Acc)
    (I : T -> Prop) (Q : Rank -> X -> Prop) (R : list Rank -> Acc -> Prop) s t :
  shoe_wf s -> I t ->
  (forall r t0, (0 < count s r)%Z -> I t0 ->
     exists x t1, child r (draw s r, t0) = Ok (x, (draw s r, t1)) /\ I t1 /\ Q r x) ->
  R RANKS init ->
  (forall r rest acc, R (r :: rest) acc -> (count s r <= 0)%Z -> R rest acc) ->
  (forall r rest acc x, R (r :: rest) acc -> (0 < count s r)%Z -> Q r x ->
     R rest (upd acc (weight s r) x)) ->
  exists acc t', drawLoop child upd init (s, t) = Ok (acc, (s, t')) /\ I t' /\ R [] acc.
Proof.
  intros Hwf HI Hchild Hinit Hskip Hstep.
  unfold drawLoop. rewrite (bind_Ok _ _ (s, t) s (s, t)) by reflexivity.
  destruct (foldM_inv (drawStep (shoeTotal s) child upd)
              (fun l acc st => fst st = s /\ I (snd st) /\ R l acc)) with
    (l := RANKS) (acc := init) (st := (s, t)) as (acc & [s' t'] & E & Hs & HI' & HR).
  - intros r rest acc [s0 t0] (Hs & HI0 & HR). cbn in Hs, HI0. subst s0.
    destruct (Z.le_gt_cases (count s r) 0) as [Hle | Hgt].
    + exists acc, (s, t0). rewrite drawStep_skip by assumption. eauto.
    + destruct (Hchild r t0) as (x & t1 & E & HI1 & HQ); [lia | assumption |].
      exists (upd acc (weight s r) x), (s, t1).
      rewrite (drawStep_draw _ _ _ _ _ _ _ x (draw s r) t1); try assumption; try lia.
      * rewrite undraw_draw. fold (weight s r). split; [reflexivity |].
        split; [reflexivity |]. split; [exact HI1 |].
        exact (Hstep r rest acc x HR Hgt HQ).
      * apply (shoe_wf_total_pos s r); [assumption | lia].
  - cbn. auto.
  - cbn in Hs. subst s'. exists acc, t'. auto.
Qed.

(** ** Numbers *)

Lemma ofZ_add a b : ofZ (a + b) = ofZ a + ofZ b.
Proof.
  apply Qc_is_canon. unfold ofZ. cbn. rewrite !Qred_correct.
  rewrite inject_Z_plus. reflexivity.
Qed.

Lemma ofZ_0 : ofZ 0 = 0.
Proof. apply Qc_is_canon. reflexivity. Qed.

Lemma ofZ_inv0 z : ofZ z = 0 -> z = 0%Z.
Proof.
  unfold ofZ. intros H. apply (f_equal this) in H. cbn in H.
  assert (Qred (inject_Z z) == 0%Q) as H0 by (rewrite H; reflexivity).
  rewrite Qred_correct in H0. unfold Qeq in H0. cbn in H0. lia.
Qed.

Lemma ofZ_div_add a b t :
  t <> 0%Z -> ofZ a / ofZ t + ofZ b / ofZ t = ofZ (a + b) / ofZ t.
Proof.
  intros Ht. rewrite ofZ_add. field. intros E. apply ofZ_inv0 in E. contradiction.
Qed.

Lemma ofZ_div_same t : t <> 0%Z -> ofZ t / ofZ t = 1.
Proof. intros Ht. field. intros E. apply ofZ_inv0 in E. contradiction. Qed.

(** ** Records of probabilities *)

Lemma akeys_aset {V} (k : Outcome) (v : V) (o : list (Outcome * V)) :
  akeys (aset k v o) = if decide (k ∈ akeys o) then akeys o else akeys o ++ [k].
Proof.
  unfold akeys. induction o as [| [k' v'] rest IH]; cbn.
  - destruct (decide (k ∈ [])) as [Hin | _]; [inversion Hin | reflexivity].
  - destruct (decide (k = k')) as [-> | Hne]; cbn.
    + destruct (decide (k' ∈ k' :: map fst rest)) as [_ | Hn]; [reflexivity |].
      exfalso. apply Hn. left.
    + rewrite IH.
      destruct (decide (k ∈ map fst rest)) as [Hin | Hn];
        destruct (decide (k ∈ k' :: map fst rest)) as [Hin' | Hn']; try reflexivity.
      * exfalso. apply Hn'. right. exact Hin.
      * exfalso. apply elem_of_cons in Hin' as [? | ?]; contradiction.
Qed.

Lemma NoDup_akeys_aset {V} (k : Outcome) (v : V) (o : list (Outcome * V)) :
  NoDup (akeys o) -> NoDup (akeys (aset k v o)).
Proof.
  intros H. rewrite akeys_aset. destruct (decide (k ∈ akeys o)); [assumption |].
  apply NoDup_app. split; [assumption |]. split.
  - intros x Hx Hk. apply list_elem_of_singleton in Hk. subst. contradiction.
  - apply NoDup_singleton.
Qed.

Lemma Forall_akeys_aset {V} (P : Outcome -> Prop) (k : Outcome) (v : V) o :
  P k -> Forall P (akeys o) -> Forall P (akeys (aset k v o)).
Proof.
  intros Hk H. rewrite akeys_aset. destruct (decide (k ∈ akeys o)); [assumption |].
  apply Forall_app. split; [assumption |]. constructor; [assumption | constructor].
Qed.

Lemma dsum_aset_gen k v (o : Dist) : dsum (aset k v o) = dsum o - dget o k + v.
Proof.
  unfold dget, dsum. induction o as [| [k' v'] rest IH]; cbn.
  - ring.
  - destruct (decide (k = k')) as [-> | Hne]; cbn.
    + ring.
    + rewrite IH. ring.
Qed.

Lemma dsum_aset k x (o : Dist) : dsum (aset k (dget o k + x) o) = dsum o + x.
Proof. rewrite dsum_aset_gen. ring. Qed.

Lemma mix_fold_props p next ks out :
  NoDup (akeys out) -> Forall validOutcome (akeys out) -> Forall validOutcome ks ->
  let out' := fold_left (fun o k => aset k (dget o k + p * dget next k) o) ks out in
  NoDup (akeys out') /\ Forall validOutcome (akeys out')
  /\ dsum out' = dsum out + p * sumKeys (dget next) ks.
Proof.
  revert out. induction ks as [| k ks IH]; intros out Hnd Hv Hks;
    cbn [fold_left]; unfold sumKeys; cbn [fold_right].
  - split; [exact Hnd |]. split; [exact Hv |]. ring.
  - inversion Hks as [| ? ? Hk Hks']; subst.
    destruct (IH (aset k (dget out k + p * dget next k) out)) as (H1 & H2 & H3).
    + apply NoDup_akeys_aset. assumption.
    + apply Forall_akeys_aset; assumption.
    + assumption.
    + split; [exact H1 |]. split; [exact H2 |].
      rewrite H3, dsum_aset. unfold sumKeys. ring.
Qed.

Lemma sumKeys_ext f g ks :
  (forall k, k ∈ ks -> f k = g k) -> sumKeys f ks = sumKeys g ks.
Proof.
  unfold sumKeys. induction ks as [| k ks IH]; intros H; cbn [fold_right]; [reflexivity |].
  rewrite H by left. rewrite IH; [reflexivity |]. intros k' Hk'. apply H. right. exact Hk'.
Qed.

Lemma sumKeys_dget (d : Dist) : NoDup (akeys d) -> sumKeys (dget d) (akeys d) = dsum d.
Proof.
  unfold akeys. induction d as [| [k v] rest IH]; [reflexivity |].
  cbn [map fst]. intros Hnd. apply NoDup_cons in Hnd as [Hk Hnd].
  unfold sumKeys, dsum. cbn [fold_right snd].
  fold (sumKeys (dget ((k, v) :: rest)) (map fst rest)). fold (dsum rest).
  rewrite <- IH by assumption. f_equal.
  - unfold dget. cbn. destruct (decide (k = k)); [reflexivity | contradiction].
  - apply sumKeys_ext. intros k' Hk'. unfold dget. cbn.
    destruct (decide (k' = k)); [subst; contradiction | reflexivity].
Qed.

Lemma mix_spec p (out next : Dist) :
  NoDup (akeys out) -> Forall validOutcome (akeys out) ->
  NoDup (akeys next) -> Forall validOutcome (akeys next) ->
  NoDup (akeys (mix out p next)) /\ Forall validOutcome (akeys (mix out p next))
  /\ dsum (mix out p next) = dsum out + p * dsum next.
Proof.
  intros H1 H2 H3 H4. unfold mix.
  destruct (mix_fold_props p next (akeys next) out H1 H2 H4) as (Ha & Hb & Hc).
  split; [exact Ha |]. split; [exact Hb |]. rewrite Hc, sumKeys_dget by assumption. reflexivity.
Qed.

(** ** The dealer recursion *)

Lemma shouldStand_range t rules :
  shouldStand t rules = true -> (17 <= best t <= 21)%Z.
Proof.
  unfold shouldStand. destruct (Z.ltb_spec 21 (best t)); [discriminate |].
  destruct (isSoft t).
  - destruct (Z.ltb_spec 17 (best t)); [lia |].
    destruct (Z.eqb_spec (best t) 17); [lia | discriminate].
  - destruct (Z.leb_spec 17 (best t)); [lia | discriminate].
Qed.

Lemma must_draw_hard cards rules :
  (best (handTotals cards) <= 21)%Z ->
  shouldStand (handTotals cards) rules = false ->
  (hard (handTotals cards) <= 16)%Z.
Proof.
  intros Hle. unfold shouldStand.
  destruct (Z.ltb_spec 21 (best (handTotals cards))); [lia |].
  destruct (best_cases cards) as [(Hs & Hb & _) | (Hs & Hb)]; rewrite Hs.
  - destruct (Z.ltb_spec 17 (best (handTotals cards))); [discriminate |]. lia.
  - destruct (Z.leb_spec 17 (best (handTotals cards))); [discriminate |]. lia.
Qed.

Lemma memoSet_run key out s memo :
  memoSet key out (s, memo) = Ok (out, (s, <[key := out]> memo)).
Proof. reflexivity. Qed.

Lemma goodDist_point exact k : validOutcome k -> goodDist exact [(k, 1)].
Proof.
  intros Hk. split; [| split].
  - apply NoDup_singleton.
  - constructor; [exact Hk | constructor].
  - intros _. unfold dsum. cbn. ring.
Qed.

Lemma posSum_RANKS s : posSum s RANKS = drawable s.
Proof. destruct s; unfold posSum, drawable; cbn. ring. Qed.

Lemma mixInv_init exact s : shoe_wf s -> mixInv exact s RANKS [].
Proof.
  intros Hwf. split; [| split].
  - apply NoDup_nil. trivial.
  - constructor.
  - intros _. rewrite posSum_RANKS, drawable_wf by assumption.
    replace (shoeTotal s - shoeTotal s)%Z with 0%Z by lia.
    rewrite ofZ_0. unfold dsum. cbn [fold_right]. unfold Qcdiv. ring.
Qed.

Lemma mixInv_skip exact s r rest acc :
  mixInv exact s (r :: rest) acc -> (count s r <= 0)%Z -> mixInv exact s rest acc.
Proof.
  intros (H1 & H2 & H3) Hle. split; [exact H1 |]. split; [exact H2 |].
  intros He. rewrite (H3 He). cbn [posSum fold_right]. fold (posSum s rest).
  rewrite Z.max_l by assumption. f_equal.
Qed.

Lemma mixInv_step exact s r rest acc next :
  mixInv exact s (r :: rest) acc -> (0 < count s r)%Z -> shoeTotal s <> 0%Z ->
  goodDist exact next -> mixInv exact s rest (mix acc (weight s r) next).
Proof.
  intros (H1 & H2 & H3) Hpos Htot (G1 & G2 & G3).
  destruct (mix_spec (weight s r) acc next H1 H2 G1 G2) as (Ha & Hb & Hc).
  split; [exact Ha |]. split; [exact Hb |].
  intros He. rewrite Hc, (H3 He), (G3 He). unfold weight.
  cbn [posSum fold_right]. fold (posSum s rest).
  rewrite Z.max_r by lia. rewrite Qcmult_1_r. rewrite ofZ_div_add by assumption.
  f_equal. f_equal. lia.
Qed.

Lemma mixInv_final exact s acc :
  (exact = true -> shoeTotal s <> 0%Z) -> mixInv exact s [] acc -> goodDist exact acc.
Proof.
  intros Htot (H1 & H2 & H3). split; [exact H1 |]. split; [exact H2 |].
  intros He. rewrite (H3 He). cbn [posSum fold_right].
  rewrite Z.sub_0_r. apply ofZ_div_same. auto.
Qed.

Lemma probsFor_spec rules exact fuel :
  forall cards s memo,
    shoe_wf s -> (drawable s < Z.of_nat fuel)%Z ->
    (exact = true -> (17 <= shoeTotal s + hard (handTotals cards))%Z) ->
    memoGood exact memo ->
    exists d memo',
      probsFor rules fuel cards (s, memo) = Ok (d, (s, memo'))
      /\ memoGood exact memo' /\ goodDist exact d.
Proof.
  induction fuel as [| fuel IH]; intros cards s memo Hwf Hfuel Hbig Hmemo.
  - pose proof (drawable_nonneg s). lia.
  - cbn [probsFor].
    rewrite (bind_Ok _ _ (s, memo) s (s, memo)) by reflexivity.
    rewrite (bind_Ok _ _ (s, memo) memo (s, memo)) by reflexivity.
    set (t := handTotals cards) in *.
    set (key := (best t, isSoft t, shoeKey s)).
    assert (Hset : forall d, goodDist exact d ->
              exists d' memo', memoSet key d (s, memo) = Ok (d', (s, memo'))
                /\ memoGood exact memo' /\ goodDist exact d').
    { intros d Hd. exists d, (<[key := d]> memo). rewrite memoSet_run.
      split; [reflexivity |].
      split; [apply map_Forall_insert_2; assumption | exact Hd]. }
    match goal with
    | |- context [match ?o with Some _ => _ | None => _ end] =>
        destruct o as [d |] eqn:Hlook
    end.
    { exists d, memo. split; [reflexivity |]. split; [assumption |].
      exact (map_Forall_lookup_1 _ _ _ _ Hmemo Hlook). }
    destruct ((length cards =? 2)%nat && (best t =? 21)%Z) eqn:Hnat.
    { apply Hset, goodDist_point. cbn. lia. }
    destruct (Z.ltb_spec 21 (best t)) as [Hbust | Hle].
    { apply Hset, goodDist_point. exact Logic.I. }
    destruct (shouldStand t rules) eqn:Hstand.
    { apply Hset, goodDist_point. cbn. apply (shouldStand_range _ _ Hstand). }
    pose proof (must_draw_hard cards rules Hle Hstand) as Hhard. fold t in Hhard.
    destruct (Z.eqb_spec (shoeTotal s) 0) as [Hz | Hnz].
    { apply Hset. split; [| split].
      - apply NoDup_nil. trivial.
      - constructor.
      - intros He. specialize (Hbig He). lia. }
    destruct (drawLoop_spec (fun r => probsFor rules fuel (cards ++ [r])) mix []
                (memoGood exact) (fun _ d => goodDist exact d) (mixInv exact s) s memo)
      as (out & memo1 & E & Hmemo1 & Hout); try assumption.
    + intros r memo0 Hpos Hmemo0.
      apply IH; try assumption.
      * apply shoe_wf_draw; assumption.
      * rewrite drawable_draw by assumption. lia.
      * intros He. specialize (Hbig He). rewrite shoeTotal_draw, hard_app.
        pose proof (hardValue_pos r). fold t. lia.
    + apply mixInv_init. assumption.
    + intros r rest acc. apply mixInv_skip.
    + intros r rest acc x HR Hpos Hx. apply mixInv_step; assumption.
    + rewrite (bind_Ok _ _ _ _ _ E).
      exists out, (<[key := out]> memo1). rewrite memoSet_run.
      pose proof (mixInv_final exact s out (fun _ => Hnz) Hout) as Hgood.
      split; [reflexivity |].
      split; [apply map_Forall_insert_2; assumption | exact Hgood].
Qed.

Lemma hardValue_le r : (hardValue r <= 10)%Z.
Proof. destruct r; cbn; lia. Qed.

Lemma dealerOutcomeProbs_spec exact upcard rules s :
  shoe_wf s ->
  (exact = true -> (17 <= shoeTotal s + hardValue upcard)%Z) ->
  exists d, dealerOutcomeProbs upcard rules s = Ok (d, s) /\ goodDist exact d.
Proof.
  intros Hwf Hbig. unfold dealerOutcomeProbs, scoped.
  destruct (drawLoop_spec (fun r => probsFor rules (fuelFor s) [upcard; r]) mix []
              (memoGood exact) (fun _ d => goodDist exact d) (mixInv exact s) s ∅)
    as (out & memo1 & E & _ & Hout); try assumption.
  - apply map_Forall_empty.
  - intros r memo0 Hpos Hmemo0. apply probsFor_spec; try assumption.
    + apply shoe_wf_draw; assumption.
    + rewrite drawable_draw by assumption. unfold fuelFor.
      pose proof (drawable_nonneg s). lia.
    + intros He. specialize (Hbig He). rewrite shoeTotal_draw, hard_handTotals.
      cbn [fold_right]. pose proof (hardValue_pos r). lia.
  - apply mixInv_init. assumption.
  - intros r rest acc. apply mixInv_skip.
  - intros r rest acc x HR Hpos Hx. apply mixInv_step; try assumption.
    apply (shoe_wf_total_pos s r); assumption.
  - rewrite E. exists out. split; [reflexivity |].
    apply (mixInv_final exact s); [| assumption].
    intros He. specialize (Hbig He). pose proof (hardValue_le upcard). lia.
Qed.

(** ** C3 *)

(** C3 (as the code has it): on a shoe with non-negative counts that holds
    enough cards for the banker never to find it empty (shoe total plus the
    hard value of the upcard at least 17), the banker distribution is
    returned with the shoe restored, its keys are distinct and drawn from
    17..21 and bust, and its probabilities add up to exactly 1. *)
Theorem dealerOutcomeProbs_sums_to_one (upcard : Rank) (rules : Rules) (s : Shoe) :
  shoe_wf s ->
  (17 <= shoeTotal s + hardValue upcard)%Z ->
  exists d,
    dealerOutcomeProbs upcard rules s = Ok (d, s)
    /\ NoDup (akeys d) /\ Forall validOutcome (akeys d) /\ dsum d = 1.
Proof.
  intros Hwf Hbig.
  destruct (dealerOutcomeProbs_spec true upcard rules s Hwf (fun _ => Hbig))
    as (d & E & H1 & H2 & H3).
  exists d. repeat split; auto.
Qed.

Lemma dealerOutcomeProbs_sums_to_one_witness :
  let s := initShoeMulti 6 [[Ace; R7]] R6 in
  shoe_wf s /\ (17 <= shoeTotal s + hardValue R6)%Z
  /\ exists d,
       dealerOutcomeProbs R6 DEFAULT_RULES s = Ok (d, s)
       /\ NoDup (akeys d) /\ Forall validOutcome (akeys d) /\ dsum d = 1.
Proof.
  assert (Hwf : shoe_wf (initShoeMulti 6 [[Ace; R7]] R6)).
  { intros r. destruct r; vm_compute; discriminate. }
  assert (Hbig : (17 <= shoeTotal (initShoeMulti 6 [[Ace; R7]] R6) + hardValue R6)%Z).
  { vm_compute. discriminate. }
  split; [exact Hwf |]. split; [exact Hbig |].
  exact (dealerOutcomeProbs_sums_to_one R6 DEFAULT_RULES _ Hwf Hbig).
Defined.

(** C3 as stated fails: with one card left (a two) and a two as upcard, the
    shoe total is positive and the upcard rank has a positive count, yet the
    banker runs out of cards at total 4 and the distribution is empty. *)
Lemma dealerOutcomeProbs_sum_counterexample :
  let s := setCount zeroShoe R2 1 in
  shoe_wf s /\ (0 < shoeTotal s)%Z /\ (0 < count s R2)%Z
  /\ dealerOutcomeProbs R2 DEFAULT_RULES s = Ok ([], s)
  /\ dsum [] <> 1.
Proof.
  cbv zeta. split; [| split; [| split; [| split]]].
  - intros r. destruct r; vm_compute; discriminate.
  - reflexivity.
  - reflexivity.
  - vm_compute. reflexivity.
  - intros H. apply (f_equal this) in H. vm_compute in H. discriminate.
Qed.

(** ** C5 *)

(** C5: a non-busted banker hand that is not yet in the memo stands (the
    recursion returns the one-point distribution on its total without
    touching the shoe) exactly when its total is hard and at least 17, or
    soft and above 17, or soft 17 with the banker standing on soft 17;
    otherwise the recursion goes on to draw (or returns the empty record
    when the shoe is empty). *)
Theorem dealer_stands_iff (rules : Rules) (fuel : nat) (cards : Hand)
    (s : Shoe) (memo : gmap DKey Dist) :
  let t := handTotals cards in
  let key : DKey := (best t, isSoft t, shoeKey s) in
  (best t <= 21)%Z ->
  memo !! key = None ->
  (shouldStand t rules = true <-> standsBySpec t rules)
  /\ (standsBySpec t rules ->
      probsFor rules (S fuel) cards (s, memo)
      = Ok ([(OTotal (best t), 1)], (s, <[key := [(OTotal (best t), 1)]]> memo)))
  /\ (~ standsBySpec t rules ->
      probsFor rules (S fuel) cards (s, memo)
      = (if (shoeTotal s =? 0)%Z then memoSet key []
         else out ← drawLoop (fun r => probsFor rules fuel (cards ++ [r])) mix [];
              memoSet key out) (s, memo)).
Proof.
  intros t key Hle Hmiss.
  pose proof (shouldStand_spec t rules Hle) as Hiff.
  split; [exact Hiff |].
  assert (Hstep : probsFor rules (S fuel) cards (s, memo)
                  = (if (length cards =? 2)%nat && (best t =? 21)%Z then
                       memoSet key [(OTotal 21, 1)]
                     else if (21 <? best t)%Z then memoSet key [(OBust, 1)]
                     else if shouldStand t rules then memoSet key [(OTotal (best t), 1)]
                     else if (shoeTotal s =? 0)%Z then memoSet key []
                     else out ← drawLoop (fun r => probsFor rules fuel (cards ++ [r])) mix [];
                          memoSet key out) (s, memo)).
  { cbn [probsFor].
    rewrite (bind_Ok _ _ (s, memo) s (s, memo)) by reflexivity.
    rewrite (bind_Ok _ _ (s, memo) memo (s, memo)) by reflexivity.
    fold t. change (memo !! (best t, isSoft t, shoeKey s)) with (memo !! key).
    rewrite Hmiss. reflexivity. }
  rewrite Hstep. clear Hstep.
  destruct (Z.ltb_spec 21 (best t)) as [Hbust | _]; [lia |].
  split.
  - intros Hst. apply Hiff in Hst as Hb. rewrite Hb.
    destruct ((length cards =? 2)%nat && (best t =? 21)%Z) eqn:Hnat.
    + apply andb_true_iff in Hnat as [_ H21]. apply Z.eqb_eq in H21.
      rewrite H21. reflexivity.
    + reflexivity.
  - intros Hnst.
    assert (Hb : shouldStand t rules = false).
    { destruct (shouldStand t rules); [| reflexivity]. exfalso. apply Hnst, Hiff. reflexivity. }
    rewrite Hb.
    destruct ((length cards =? 2)%nat && (best t =? 21)%Z) eqn:Hnat; [| reflexivity].
    exfalso. apply andb_true_iff in Hnat as [_ H21]. apply Z.eqb_eq in H21.
    assert (shouldStand t rules = true) as Hc; [| congruence].
    unfold shouldStand. rewrite H21. cbn. destruct (isSoft t); reflexivity.
Qed.

Lemma dealer_stands_iff_witness :
  let cards := [R10; R7] in
  let s := initShoeMulti 1 [] R10 in
  (best (handTotals cards) <= 21)%Z
  /\ probsFor DEFAULT_RULES 1 cards (s, ∅)
     = Ok ([(OTotal 17, 1)], (s, {[ (17%Z, false, shoeKey s) := [(OTotal 17, 1)] ]})).
Proof.
  cbv zeta. split; [vm_compute; discriminate |].
  destruct (dealer_stands_iff DEFAULT_RULES 0 [R10; R7] (initShoeMulti 1 [] R10) ∅)
    as (_ & Hstand & _).
  - vm_compute. discriminate.
  - apply lookup_empty.
  - rewrite Hstand.
    + reflexivity.
    + left. split; [reflexivity | vm_compute; discriminate].
Defined.

(** ** Every computation gives the shoe back *)

Lemma restores_ret {T X} (x : X) : restores (mret x : M (Shoe * T) X).
Proof. intros s t y s' t' [= _ -> _]. reflexivity. Qed.

Lemma restores_bind {T X Y} (m : M (Shoe * T) X) (k : X -> M (Shoe * T) Y) :
  restores m -> (forall x, restores (k x)) -> restores (m ≫= k).
Proof.
  intros Hm Hk s t y s' t' E.
  apply bind_inv in E as (x & [s1 t1] & E1 & E2).
  apply Hm in E1. subst s1. exact (Hk x _ _ _ _ _ E2).
Qed.

Lemma restores_getShoe {T} : restores (getShoe : M (Shoe * T) Shoe).
Proof. intros s t y s' t' [= _ -> _]. reflexivity. Qed.

Lemma restores_getTable {T} : restores (getTable : M (Shoe * T) T).
Proof. intros s t y s' t' [= _ -> _]. reflexivity. Qed.

Lemma restores_modifyTable {T} (f : T -> T) : restores (modifyTable f).
Proof. intros s t y s' t' [= _ -> _]. reflexivity. Qed.

Lemma restores_outOfFuel {T X} : restores (outOfFuel : M (Shoe * T) X).
Proof. intros s t y s' t' E. discriminate. Qed.

Lemma restores_memoSet key out : restores (memoSet key out).
Proof. intros s t y s' t' [= _ -> _]. reflexivity. Qed.

Lemma restores_cacheSet key v : restores (cacheSet key v).
Proof. intros s t y s' t' [= _ -> _]. reflexivity. Qed.

Lemma restores_liftShoe {T X} (m : M Shoe X) :
  restoresShoe m -> restores (liftShoe m : M (Shoe * T) X).
Proof.
  intros Hm s t y s' t' E. unfold liftShoe in E. cbn in E.
  destruct (m s) as [[x s1] | |] eqn:Em; try discriminate.
  injection E as _ <- _. exact (Hm _ _ _ Em).
Qed.

Lemma restoresShoe_scoped {T X} (init : T) (m : M (Shoe * T) X) :
  restores m -> restoresShoe (scoped init m).
Proof.
  intros Hm s x s' E. unfold scoped in E.
  destruct (m (s, init)) as [[y [s1 t1]] | |] eqn:Em; try discriminate.
  cbn in E. injection E as _ <-. exact (Hm _ _ _ _ _ Em).
Qed.

Lemma restores_foldM {T X} (body : Rank -> X -> M (Shoe * T) X) l :
  (forall r acc, restores (body r acc)) -> forall acc, restores (foldM body l acc).
Proof.
  intros Hbody. induction l as [| r rest IH]; intros acc; cbn [foldM].
  - apply restores_ret.
  - apply restores_bind; [apply Hbody | intros acc'; apply IH].
Qed.

Lemma restores_drawStep {T X Acc} tot (child : Rank -> M (Shoe * T) X)
    (upd : Acc -> Qc -> X -> Acc) r acc :
  restores (child r) -> restores (drawStep tot child upd r acc).
Proof.
  intros Hc s t y s' t' E.
  apply drawStep_inv in E as [(_ & -> & _) | (_ & _ & x & s1 & E & -> & _)].
  - reflexivity.
  - apply Hc in E. subst s1. apply undraw_draw.
Qed.

Lemma restores_drawLoop {T X Acc} (child : Rank -> M (Shoe * T) X)
    (upd : Acc -> Qc -> X -> Acc) init :
  (forall r, restores (child r)) -> restores (drawLoop child upd init).
Proof.
  intros Hc. unfold drawLoop. apply restores_bind; [apply restores_getShoe |].
  intros shoe. apply restores_foldM. intros r acc. apply restores_drawStep, Hc.
Qed.

Lemma restores_probsFor rules fuel : forall cards, restores (probsFor rules fuel cards).
Proof.
  induction fuel as [| fuel IH]; intros cards; cbn [probsFor].
  - apply restores_outOfFuel.
  - apply restores_bind; [apply restores_getShoe | intros shoe].
    apply restores_bind; [apply restores_getTable | intros memo].
    destruct (memo !! _); [apply restores_ret |].
    repeat (match goal with |- restores (if ?b then _ else _) => destruct b end;
            [apply restores_memoSet |]).
    apply restores_bind; [| intros out; apply restores_memoSet].
    apply restores_drawLoop. intros r. apply IH.
Qed.

Lemma restoresShoe_dealerOutcomeProbs upcard rules :
  restoresShoe (dealerOutcomeProbs upcard rules).
Proof.
  intros s x s' E. unfold dealerOutcomeProbs in E.
  revert E. apply restoresShoe_scoped, restores_drawLoop.
  intros r. apply restores_probsFor.
Qed.

Lemma restoresShoe_evStand player upcard rules : restoresShoe (evStand player upcard rules).
Proof.
  intros s x s' E. unfold evStand in E.
  destruct (21 <? best (handTotals player))%Z.
  - injection E as _ <-. reflexivity.
  - unfold mbind, M_bind in E.
    destruct (dealerOutcomeProbs upcard rules s) as [[d s1] | |] eqn:Ed; try discriminate.
    injection E as _ <-. exact (restoresShoe_dealerOutcomeProbs _ _ _ _ _ Ed).
Qed.

Lemma restoresShoe_evInitialBlackjack upcard rules :
  restoresShoe (evInitialBlackjack upcard rules).
Proof.
  intros s x s' E. unfold evInitialBlackjack, mbind, M_bind in E.
  destruct (dealerOutcomeProbs upcard rules s) as [[d s1] | |] eqn:Ed; try discriminate.
  injection E as _ <-. exact (restoresShoe_dealerOutcomeProbs _ _ _ _ _ Ed).
Qed.

Section BlocksRestore.
Context (recur : Hand -> PlayerContext -> M (Shoe * gmap CKey Qc) Qc).
Context (Hrecur : forall h c, restores (recur h c)).

Lemma restores_standOn ctx h : restores (standOn ctx h).
Proof. apply restores_liftShoe, restoresShoe_evStand. Qed.

Lemma restores_hitBlock hand ctx : restores (hitBlock recur hand ctx).
Proof.
  unfold hitBlock. apply restores_drawLoop. intros r. unfold hitChild.
  destruct (Ctx.isSplitAces ctx && splitAcesOneCardOnly (Ctx.rules ctx));
    [apply restores_standOn | apply Hrecur].
Qed.

Lemma restores_doubleBlock hand ctx : restores (doubleBlock hand ctx).
Proof.
  unfold doubleBlock. apply restores_bind; [| intros v; apply restores_ret].
  apply restores_drawLoop. intros r. apply restores_standOn.
Qed.

Lemma restores_splitBlock ctx h0 h1 : restores (splitBlock recur ctx h0 h1).
Proof.
  unfold splitBlock. apply restores_bind; [| intros v; apply restores_ret].
  apply restores_drawLoop. intros r. unfold splitChild.
  set (aces := bool_decide (h0 = Ace) && bool_decide (h1 = Ace)).
  destruct (aces && splitAcesOneCardOnly (Ctx.rules ctx)).
  - apply restores_bind; [apply restores_standOn | intros l].
    apply restores_bind; [apply restores_standOn | intros v; apply restores_ret].
  - apply restores_bind; [apply Hrecur | intros l].
    apply restores_bind; [apply Hrecur | intros v; apply restores_ret].
Qed.
End BlocksRestore.

Lemma restores_bestActionEV fuel : forall hand ctx, restores (bestActionEV fuel hand ctx).
Proof.
  induction fuel as [| fuel IH]; intros hand ctx; cbn [bestActionEV].
  - apply restores_outOfFuel.
  - apply restores_bind; [apply restores_getShoe | intros shoe].
    apply restores_bind; [apply restores_getTable | intros cache].
    destruct (cache !! _); [apply restores_ret |].
    destruct (isBust hand); [apply restores_cacheSet |].
    destruct (_ && isBlackjack hand).
    { apply restores_bind; [| intros v; apply restores_cacheSet].
      apply restores_liftShoe, restoresShoe_evInitialBlackjack. }
    apply restores_bind; [apply restores_standOn | intros standEV].
    apply restores_bind; [apply restores_hitBlock, IH | intros hitEV].
    apply restores_bind.
    { destruct (doubleCond hand ctx); [| apply restores_ret].
      apply restores_bind; [apply restores_doubleBlock | intros v; apply restores_ret]. }
    intros doubleEV. apply restores_bind; [| intros splitEV; apply restores_cacheSet].
    destruct hand as [| h0 [| h1 [| h2 rest]]]; try apply restores_ret.
    destruct (_ && _); [| apply restores_ret].
    apply restores_bind; [apply restores_splitBlock, IH | intros v; apply restores_ret].
Qed.

Lemma restoresShoe_actionEVsFinite hand ctx : restoresShoe (actionEVsFinite hand ctx).
Proof.
  intros s x s' E. unfold actionEVsFinite in E. revert E.
  apply restoresShoe_scoped.
  apply restores_bind; [apply restores_standOn | intros standEV].
  apply restores_bind; [apply restores_hitBlock, restores_bestActionEV | intros hitEV].
  apply restores_bind.
  { destruct (doubleCond hand ctx); [| apply restores_ret].
    apply restores_bind; [apply restores_doubleBlock | intros v; apply restores_ret]. }
  intros res. apply restores_bind.
  { destruct hand as [| h0 [| h1 [| h2 rest]]]; try apply restores_ret.
    destruct (pairCond _); [| apply restores_ret].
    apply restores_bind; [apply restores_splitBlock, restores_bestActionEV |].
    intros v; apply restores_ret. }
  intros res'. destruct (_ && _); [| apply restores_ret].
  apply restores_bind; [| intros v; apply restores_ret].
  apply restores_liftShoe, restoresShoe_evInitialBlackjack.
Qed.

(** ** The player engine always returns on a well-formed shoe *)

Lemma evStand_ok player upcard rules s :
  shoe_wf s -> exists v, evStand player upcard rules s = Ok (v, s).
Proof.
  intros Hwf. unfold evStand.
  destruct (21 <? best (handTotals player))%Z; [eexists; reflexivity |].
  destruct (dealerOutcomeProbs_spec false upcard rules s Hwf) as (d & E & _);
    [discriminate |].
  unfold mbind, M_bind. rewrite E. eexists; reflexivity.
Qed.

Lemma evStand_run player upcard rules s :
  shoe_wf s ->
  evStand player upcard rules s = Ok (valueOf (evStand player upcard rules s), s).
Proof.
  intros Hwf. destruct (evStand_ok player upcard rules s Hwf) as (v & E).
  rewrite E. reflexivity.
Qed.

Lemma evInitialBlackjack_run upcard rules s :
  shoe_wf s ->
  evInitialBlackjack upcard rules s
  = Ok (valueOf (evInitialBlackjack upcard rules s), s).
Proof.
  intros Hwf. unfold evInitialBlackjack.
  destruct (dealerOutcomeProbs_spec false upcard rules s Hwf) as (d & E & _);
    [discriminate |].
  unfold mbind, M_bind. rewrite E. reflexivity.
Qed.

Lemma liftShoe_run {T X} (m : M Shoe X) s (t : T) x :
  m s = Ok (x, s) -> liftShoe m (s, t) = Ok (x, (s, t)).
Proof. intros E. unfold liftShoe. cbn. rewrite E. reflexivity. Qed.

Lemma standOn_run ctx h s t :
  shoe_wf s ->
  standOn ctx h (s, t)
  = Ok (valueOf (evStand h (Ctx.upcard ctx) (Ctx.rules ctx) s), (s, t)).
Proof. intros Hwf. apply liftShoe_run, evStand_run, Hwf. Qed.

(** A loop whose children do not touch the table and return [f r] computes
    the shoe-weighted average of [f]. *)
Lemma drawLoop_weighted {T} (child : Rank -> M (Shoe * T) Qc) (f : Rank -> Qc) s t :
  shoe_wf s ->
  (forall r t0, (0 < count s r)%Z ->
     child r (draw s r, t0) = Ok (f r, (draw s r, t0))) ->
  drawLoop child (fun a p v => a + p * v) 0 (s, t) = Ok (weightedAvg s f, (s, t)).
Proof.
  intros Hwf Hchild.
  destruct (drawLoop_spec child (fun a p v => a + p * v) 0
              (fun t' => t' = t) (fun r x => x = f r)
              (fun rest acc => acc + weightedOver s f rest = weightedAvg s f) s t)
    as (acc & t' & E & -> & HR); try assumption; try reflexivity.
  - intros r t0 Hpos ->. exists (f r), t. rewrite Hchild by assumption. auto.
  - unfold weightedAvg. ring.
  - intros r rest acc HR Hle. rewrite <- HR. cbn [weightedOver fold_right].
    fold (weightedOver s f rest).
    destruct (Z.ltb_spec 0 (count s r)); [lia | ring].
  - intros r rest acc x HR Hpos ->. rewrite <- HR. cbn [weightedOver fold_right].
    fold (weightedOver s f rest).
    destruct (Z.ltb_spec 0 (count s r)); [ring | lia].
  - rewrite E. cbn [weightedOver fold_right] in HR. rewrite <- HR. f_equal. f_equal. ring.
Qed.

Lemma doubleBlock_run hand ctx s t :
  shoe_wf s ->
  doubleBlock hand ctx (s, t)
  = Ok (2 * weightedAvg s (standAfterDraw hand (Ctx.upcard ctx) (Ctx.rules ctx) s), (s, t)).
Proof.
  intros Hwf. unfold doubleBlock.
  erewrite bind_Ok; [reflexivity |].
  apply drawLoop_weighted; [assumption |].
  intros r t0 Hpos. unfold standAfterDraw.
  apply standOn_run, shoe_wf_draw; assumption.
Qed.

Section BlocksTotal.
Context (recur : Hand -> PlayerContext -> M (Shoe * gmap CKey Qc) Qc).
Context (n : Z).
Context (Hrecur : forall h c s t, shoe_wf s -> (drawable s < n)%Z ->
           exists v t', recur h c (s, t) = Ok (v, (s, t'))).

Lemma hitBlock_ok hand ctx s t :
  shoe_wf s -> (drawable s <= n)%Z ->
  exists v t', hitBlock recur hand ctx (s, t) = Ok (v, (s, t')).
Proof.
  intros Hwf Hn. unfold hitBlock.
  destruct (drawLoop_spec (hitChild recur hand ctx) (fun hitEV p v => hitEV + p * v) 0
              (fun _ => True) (fun _ _ => True) (fun _ _ => True) s t)
    as (acc & t' & E & _ & _); auto.
  - intros r t0 Hpos _. unfold hitChild.
    destruct (Ctx.isSplitAces ctx && splitAcesOneCardOnly (Ctx.rules ctx)).
    + eexists _, t0. rewrite standOn_run by (apply shoe_wf_draw; assumption). auto.
    + destruct (Hrecur (hand ++ [r]) ctx (draw s r) t0) as (v & t1 & E).
      * apply shoe_wf_draw; assumption.
      * rewrite drawable_draw by assumption. lia.
      * exists v, t1. auto.
  - exists acc, t'. exact E.
Qed.

Lemma splitBlock_ok ctx h0 h1 s t :
  shoe_wf s -> (drawable s <= n)%Z ->
  exists v t', splitBlock recur ctx h0 h1 (s, t) = Ok (v, (s, t')).
Proof.
  intros Hwf Hn. unfold splitBlock.
  destruct (drawLoop_spec (splitChild recur ctx h0 h1)
              (fun lr p x => (fst lr + p * fst x, snd lr + p * snd x)) (0, 0)
              (fun _ => True) (fun _ _ => True) (fun _ _ => True) s t)
    as (acc & t' & E & _ & _); auto.
  - intros r t0 Hpos _. unfold splitChild.
    set (aces := bool_decide (h0 = Ace) && bool_decide (h1 = Ace)).
    assert (Hwf' : shoe_wf (draw s r)) by (apply shoe_wf_draw; assumption).
    assert (Hn' : (drawable (draw s r) < n)%Z)
      by (rewrite drawable_draw by assumption; lia).
    destruct (aces && splitAcesOneCardOnly (Ctx.rules ctx)).
    + erewrite bind_Ok by (apply standOn_run; assumption).
      erewrite bind_Ok by (apply standOn_run; assumption).
      eexists _, t0. auto.
    + match goal with |- context [recur [h0; r] ?c] => set (child := c) end.
      destruct (Hrecur [h0; r] child (draw s r) t0 Hwf' Hn') as (v1 & t1 & E1).
      destruct (Hrecur [h1; r] child (draw s r) t1 Hwf' Hn') as (v2 & t2 & E2).
      rewrite (bind_Ok _ _ _ _ _ E1). rewrite (bind_Ok _ _ _ _ _ E2).
      exists (v1, v2), t2. auto.
  - rewrite (bind_Ok _ _ _ _ _ E). eexists _, t'. reflexivity.
Qed.
End BlocksTotal.

Lemma cacheSet_run key v s cache :
  cacheSet key v (s, cache) = Ok (v, (s, <[key := v]> cache)).
Proof. reflexivity. Qed.

Lemma bestActionEV_ok fuel :
  forall hand ctx s cache,
    shoe_wf s -> (drawable s < Z.of_nat fuel)%Z ->
    exists v cache', bestActionEV fuel hand ctx (s, cache) = Ok (v, (s, cache')).
Proof.
  induction fuel as [| fuel IH]; intros hand ctx s cache Hwf Hfuel.
  - pose proof (drawable_nonneg s). lia.
  - cbn [bestActionEV].
    rewrite (bind_Ok _ _ (s, cache) s (s, cache)) by reflexivity.
    rewrite (bind_Ok _ _ (s, cache) cache (s, cache)) by reflexivity.
    match goal with
    | |- context [match ?o with Some _ => _ | None => _ end] => destruct o as [v |]
    end.
    { exists v, cache. reflexivity. }
    destruct (isBust hand); [eexists _, _; apply cacheSet_run |].
    destruct (_ && isBlackjack hand).
    { erewrite bind_Ok by (apply liftShoe_run, evInitialBlackjack_run; assumption).
      eexists _, _; apply cacheSet_run. }
    erewrite bind_Ok by (apply standOn_run; assumption).
    assert (Hn : (drawable s <= Z.of_nat fuel)%Z) by lia.
    destruct (hitBlock_ok (bestActionEV fuel) (Z.of_nat fuel) IH hand ctx s cache Hwf Hn)
      as (hitEV & cache1 & Ehit).
    rewrite (bind_Ok _ _ _ _ _ Ehit).
    assert (Hdouble : exists doubleEV,
              (if doubleCond hand ctx
               then v ← doubleBlock hand ctx; mret (Some v)
               else mret None) (s, cache1) = Ok (doubleEV, (s, cache1))).
    { destruct (doubleCond hand ctx); [| eexists; reflexivity].
      erewrite bind_Ok by (apply doubleBlock_run; assumption). eexists; reflexivity. }
    destruct Hdouble as (doubleEV & Edouble). rewrite (bind_Ok _ _ _ _ _ Edouble).
    assert (Hsplit : exists splitEV cache2,
              (match hand with
               | [h0; h1] =>
                   if Ctx.canSplit ctx && pairCond hand
                   then v ← splitBlock (bestActionEV fuel) ctx h0 h1; mret (Some v)
                   else mret None
               | _ => mret None
               end) (s, cache1) = Ok (splitEV, (s, cache2))).
    { destruct hand as [| h0 [| h1 [| h2 rest]]]; try (eexists _, _; reflexivity).
      destruct (Ctx.canSplit ctx && pairCond [h0; h1]); [| eexists _, _; reflexivity].
      destruct (splitBlock_ok (bestActionEV fuel) (Z.of_nat fuel) IH ctx h0 h1 s cache1 Hwf Hn)
        as (v & cache2 & Esplit).
      rewrite (bind_Ok _ _ _ _ _ Esplit). eexists _, _; reflexivity. }
    destruct Hsplit as (splitEV & cache2 & Esplit). rewrite (bind_Ok _ _ _ _ _ Esplit).
    eexists _, _; apply cacheSet_run.
Qed.

Lemma fuelFor_enough s : (drawable s < Z.of_nat (fuelFor s))%Z.
Proof. unfold fuelFor. pose proof (drawable_nonneg s). lia. Qed.

(** The table of [actionEVsFinite] on a well-formed shoe, given what its
    Hit and Split blocks return. *)
Lemma actionEVsFinite_table_gen hand ctx s hitEV splitEV cache1 cache2 :
  shoe_wf s ->
  hitBlock (bestActionEV (fuelFor s)) hand ctx (s, ∅) = Ok (hitEV, (s, cache1)) ->
  (forall h0 h1, hand = [h0; h1] -> pairCond hand = true ->
     splitBlock (bestActionEV (fuelFor s)) ctx h0 h1 (s, cache1)
     = Ok (splitEV, (s, cache2))) ->
  actionEVsFinite hand ctx s = Ok (tableOf hand ctx s hitEV splitEV, s).
Proof.
  intros Hwf Ehit Hsp. unfold actionEVsFinite, scoped.
  erewrite bind_Ok by (apply standOn_run; assumption).
  rewrite (bind_Ok _ _ _ _ _ Ehit).
  assert (Esplit : exists cache3,
            forall res : Table,
              (match hand with
               | [h0; h1] =>
                   if pairCond hand
                   then v ← splitBlock (bestActionEV (fuelFor s)) ctx h0 h1;
                        mret (aset "Split"%string v res)
                   else mret res
               | _ => mret res
               end) (s, cache1)
              = Ok (if pairCond hand then aset "Split"%string splitEV res else res,
                    (s, cache3))).
  { destruct hand as [| h0 [| h1 [| h2 rest]]]; try (exists cache1; reflexivity).
    destruct (pairCond [h0; h1]) eqn:Hp; [| exists cache1; reflexivity].
    exists cache2. intros res. rewrite (bind_Ok _ _ _ _ _ (Hsp h0 h1 eq_refl eq_refl)).
    reflexivity. }
  destruct Esplit as (cache3 & Esplit).
  unfold tableOf.
  destruct (doubleCond hand ctx).
  - erewrite bind_Ok;
      [| erewrite bind_Ok by (apply doubleBlock_run; assumption); reflexivity].
    erewrite bind_Ok by apply Esplit.
    destruct (_ && isBlackjack hand).
    + erewrite bind_Ok by (apply liftShoe_run, evInitialBlackjack_run; assumption).
      destruct (surrenderCond hand ctx), (pairCond hand); reflexivity.
    + destruct (surrenderCond hand ctx), (pairCond hand); reflexivity.
  - erewrite bind_Ok by reflexivity.
    erewrite bind_Ok by apply Esplit.
    destruct (_ && isBlackjack hand).
    + erewrite bind_Ok by (apply liftShoe_run, evInitialBlackjack_run; assumption).
      destruct (surrenderCond hand ctx), (pairCond hand); reflexivity.
    + destruct (surrenderCond hand ctx), (pairCond hand); reflexivity.
Qed.

(** The table of [actionEVsFinite] on a well-formed shoe, given what its
    Hit block returns. *)
Lemma actionEVsFinite_table_hit hand ctx s hitEV cache1 :
  shoe_wf s ->
  hitBlock (bestActionEV (fuelFor s)) hand ctx (s, ∅) = Ok (hitEV, (s, cache1)) ->
  exists splitEV,
    actionEVsFinite hand ctx s = Ok (tableOf hand ctx s hitEV splitEV, s).
Proof.
  intros Hwf Ehit.
  pose proof (fuelFor_enough s) as Hfuel.
  assert (Hn : (drawable s <= Z.of_nat (fuelFor s))%Z) by lia.
  destruct hand as [| h0 [| h1 [| h2 rest]]];
    try solve [exists 0;
               apply (actionEVsFinite_table_gen _ ctx s hitEV 0 cache1 cache1 Hwf Ehit);
               intros ? ? [=]].
  destruct (splitBlock_ok (bestActionEV (fuelFor s)) (Z.of_nat (fuelFor s))
              (bestActionEV_ok (fuelFor s)) ctx h0 h1 s cache1 Hwf Hn)
    as (v & cache2 & Esplit).
  exists v. apply (actionEVsFinite_table_gen _ ctx s hitEV v cache1 cache2 Hwf Ehit).
  intros ? ? [= <- <-] _. exact Esplit.
Qed.

(** The table of [actionEVsFinite] on a well-formed shoe. *)
Lemma actionEVsFinite_table hand ctx s :
  shoe_wf s ->
  exists hitEV splitEV,
    actionEVsFinite hand ctx s = Ok (tableOf hand ctx s hitEV splitEV, s).
Proof.
  intros Hwf.
  pose proof (fuelFor_enough s) as Hfuel.
  assert (Hn : (drawable s <= Z.of_nat (fuelFor s))%Z) by lia.
  pose proof (hitBlock_ok (bestActionEV (fuelFor s)) (Z.of_nat (fuelFor s))
                (bestActionEV_ok (fuelFor s)) hand ctx s (∅ : gmap CKey Qc) Hwf Hn)
    as (hitEV & cache1 & Ehit).
  destruct (actionEVsFinite_table_hit hand ctx s hitEV cache1 Hwf Ehit) as (splitEV & E).
  exists hitEV, splitEV. exact E.
Qed.

(** ** C4 *)

(** C4: a top-level call of [actionEVsFinite] leaves every per-rank count
    of the shoe as it found it: whenever the call returns, the shoe it
    returns is the shoe it was given, and on a shoe with non-negative
    counts it does return. *)
Theorem actionEVsFinite_restores_shoe (hand : Hand) (ctx : PlayerContext) (s : Shoe) :
  (forall tbl s', actionEVsFinite hand ctx s = Ok (tbl, s') ->
     forall r, count s' r = count s r)
  /\ (shoe_wf s -> exists tbl, actionEVsFinite hand ctx s = Ok (tbl, s)).
Proof.
  split.
  - intros tbl s' E r. apply restoresShoe_actionEVsFinite in E. subst s'. reflexivity.
  - intros Hwf. destruct (actionEVsFinite_table hand ctx s Hwf) as (hitEV & splitEV & E).
    eexists. exact E.
Qed.

Lemma actionEVsFinite_restores_shoe_witness :
  let hand := [R10; R6] in
  let s := initShoeMulti 1 [hand] R10 in
  shoe_wf s
  /\ exists tbl, actionEVsFinite hand (initialCtx DEFAULT_RULES R10 hand) s = Ok (tbl, s).
Proof.
  cbv zeta.
  assert (Hwf : shoe_wf (initShoeMulti 1 [[R10; R6]] R10)).
  { intros r. destruct r; vm_compute; discriminate. }
  split; [exact Hwf |].
  exact (proj2 (actionEVsFinite_restores_shoe [R10; R6]
                  (initialCtx DEFAULT_RULES R10 [R10; R6]) _) Hwf).
Defined.

(** ** C6 *)

(** C6: on a shoe with non-negative counts the table holds a Double entry
    exactly when the hand has two cards and both the context and the rules
    allow doubling; the entry is then twice the shoe-weighted average, over
    the ranks with positive count, of the stand-EV of the hand extended by
    that card. *)
Theorem double_entry (hand : Hand) (ctx : PlayerContext) (s : Shoe) :
  shoe_wf s ->
  exists tbl,
    actionEVsFinite hand ctx s = Ok (tbl, s)
    /\ alookup "Double"%string tbl
       = (if Ctx.canDouble ctx && (length hand =? 2)%nat && doubleAllowed (Ctx.rules ctx)
          then Some (2 * weightedAvg s
                           (standAfterDraw hand (Ctx.upcard ctx) (Ctx.rules ctx) s))
          else None).
Proof.
  intros Hwf. destruct (actionEVsFinite_table hand ctx s Hwf) as (hitEV & splitEV & E).
  eexists. split; [exact E |].
  unfold tableOf. fold (doubleCond hand ctx).
  destruct (doubleCond hand ctx); [reflexivity |].
  destruct (surrenderCond hand ctx), (pairCond hand), (_ && isBlackjack hand); reflexivity.
Qed.

Lemma double_entry_witness :
  let hand := [R10; R6] in
  let s := initShoeMulti 1 [hand] R10 in
  shoe_wf s
  /\ exists tbl,
       actionEVsFinite hand (initialCtx DEFAULT_RULES R10 hand) s = Ok (tbl, s)
       /\ alookup "Double"%string tbl
          = Some (2 * weightedAvg s (standAfterDraw hand R10 DEFAULT_RULES s)).
Proof.
  cbv zeta.
  assert (Hwf : shoe_wf (initShoeMulti 1 [[R10; R6]] R10)).
  { intros r. destruct r; vm_compute; discriminate. }
  split; [exact Hwf |].
  exact (double_entry [R10; R6] (initialCtx DEFAULT_RULES R10 [R10; R6]) _ Hwf).
Defined.

(** ** C7 *)

(** C7: on a shoe with non-negative counts the table holds a Surrender
    entry exactly when late surrender is enabled and the hand is a two-card
    hand at split depth 0; the entry is then the constant -1/2. *)
Theorem surrender_entry (hand : Hand) (ctx : PlayerContext) (s : Shoe) :
  shoe_wf s ->
  exists tbl,
    actionEVsFinite hand ctx s = Ok (tbl, s)
    /\ alookup "Surrender"%string tbl
       = (if lateSurrender (Ctx.rules ctx) && (length hand =? 2)%nat
             && (Ctx.splitDepth ctx =? 0)%Z
          then Some (Q2Qc (-1 # 2))
          else None).
Proof.
  intros Hwf. destruct (actionEVsFinite_table hand ctx s Hwf) as (hitEV & splitEV & E).
  eexists. split; [exact E |].
  unfold tableOf. fold (surrenderCond hand ctx).
  destruct (doubleCond hand ctx), (surrenderCond hand ctx), (pairCond hand),
    (_ && isBlackjack hand); reflexivity.
Qed.

Lemma surrender_entry_witness :
  let hand := [R10; R6] in
  let s := initShoeMulti 1 [hand] R10 in
  shoe_wf s
  /\ exists tbl,
       actionEVsFinite hand (initialCtx DEFAULT_RULES R10 hand) s = Ok (tbl, s)
       /\ alookup "Surrender"%string tbl = Some (Q2Qc (-1 # 2)).
Proof.
  cbv zeta.
  assert (Hwf : shoe_wf (initShoeMulti 1 [[R10; R6]] R10)).
  { intros r. destruct r; vm_compute; discriminate. }
  split; [exact Hwf |].
  exact (surrender_entry [R10; R6] (initialCtx DEFAULT_RULES R10 [R10; R6]) _ Hwf).
Defined.

(** ** Busted hands *)

Lemma isBust_hard hand : isBust hand = true <-> (21 < hard (handTotals hand))%Z.
Proof.
  unfold isBust. rewrite Z.ltb_lt.
  destruct (best_cases hand) as [(_ & Hb & Hle) | (_ & Hb)]; lia.
Qed.

Lemma isBust_app hand r : isBust hand = true -> isBust (hand ++ [r]) = true.
Proof.
  rewrite !isBust_hard, hard_app. pose proof (hardValue_pos r). lia.
Qed.

Lemma short_hand_not_bust hand : (length hand <= 2)%nat -> isBust hand = false.
Proof.
  intros Hlen. destruct hand as [| h0 [| h1 [| h2 rest]]]; [| | | cbn in Hlen; lia].
  - reflexivity.
  - destruct h0; reflexivity.
  - destruct h0, h1; reflexivity.
Qed.

Lemma evStand_bust hand upcard rules s :
  isBust hand = true -> evStand hand upcard rules s = Ok (-(1), s).
Proof. unfold isBust, evStand. intros ->. reflexivity. Qed.

Lemma weightedOver_const s c l :
  shoeTotal s <> 0%Z ->
  weightedOver s (fun _ => c) l = c * (ofZ (posSum s l) / ofZ (shoeTotal s)).
Proof.
  intros Htot. induction l as [| r rest IH]; cbn [weightedOver posSum fold_right].
  - rewrite ofZ_0. unfold Qcdiv. ring.
  - fold (weightedOver s (fun _ => c) rest). fold (posSum s rest). rewrite IH.
    rewrite <- ofZ_div_add by assumption. unfold weight.
    destruct (Z.ltb_spec 0 (count s r)).
    + rewrite Z.max_r by lia. ring.
    + rewrite Z.max_l by lia. rewrite ofZ_0. unfold Qcdiv. ring.
Qed.

Lemma weightedAvg_const s c :
  shoe_wf s -> shoeTotal s <> 0%Z -> weightedAvg s (fun _ => c) = c.
Proof.
  intros Hwf Htot. unfold weightedAvg. rewrite weightedOver_const by assumption.
  rewrite posSum_RANKS, drawable_wf by assumption.
  rewrite ofZ_div_same by assumption. ring.
Qed.

Lemma bestActionEV_bust (fuel : nat) (hand : Hand) (ctx : PlayerContext) (s : Shoe)
    (cache : gmap CKey Qc) :
  isBust hand = true ->
  map_Forall (fun (_ : CKey) (v : Qc) => v = -(1)) cache ->
  exists cache' : gmap CKey Qc,
    bestActionEV (S fuel) hand ctx (s, cache) = Ok (-(1), (s, cache'))
    /\ map_Forall (fun (_ : CKey) (v : Qc) => v = -(1)) cache'.
Proof.
  intros Hbust Hcache. cbn [bestActionEV].
  rewrite (bind_Ok _ _ (s, cache) s (s, cache)) by reflexivity.
  rewrite (bind_Ok _ _ (s, cache) cache (s, cache)) by reflexivity.
  match goal with
  | |- context [match ?o with Some _ => _ | None => _ end] =>
      destruct o as [v |] eqn:Hlook
  end.
  - pose proof (map_Forall_lookup_1 _ _ _ _ Hcache Hlook) as Hv. cbn in Hv. subst v.
    exists cache. split; [reflexivity | assumption].
  - rewrite Hbust. eexists. rewrite cacheSet_run. split; [reflexivity |].
    apply map_Forall_insert_2; [reflexivity | assumption].
Qed.

Lemma hitBlock_bust hand ctx s :
  shoe_wf s -> isBust hand = true ->
  exists cache',
    hitBlock (bestActionEV (fuelFor s)) hand ctx (s, ∅)
    = Ok (weightedAvg s (fun _ => -(1)), (s, cache')).
Proof.
  intros Hwf Hbust. unfold hitBlock.
  destruct (drawLoop_spec (hitChild (bestActionEV (fuelFor s)) hand ctx)
              (fun hitEV p v => hitEV + p * v) 0
              (map_Forall (fun (_ : CKey) (v : Qc) => v = -(1))) (fun _ x => x = -(1))
              (fun rest acc => acc + weightedOver s (fun _ => -(1)) rest
                               = weightedAvg s (fun _ => -(1))) s ∅)
    as (acc & cache' & E & _ & HR); try assumption.
  - apply map_Forall_empty.
  - intros r t0 Hpos Ht0. unfold hitChild.
    pose proof (isBust_app hand r Hbust) as Hb.
    destruct (Ctx.isSplitAces ctx && splitAcesOneCardOnly (Ctx.rules ctx)).
    + exists (-(1)), t0. unfold standOn.
      rewrite (liftShoe_run _ _ _ _ (evStand_bust _ _ _ _ Hb)). auto.
    + unfold fuelFor.
      destruct (bestActionEV_bust (Z.to_nat (drawable s)) (hand ++ [r]) ctx (draw s r) t0 Hb Ht0)
        as (t1 & E1 & Ht1).
      exists (-(1)), t1. auto.
  - unfold weightedAvg. ring.
  - intros r rest acc HR Hle. rewrite <- HR. cbn [weightedOver fold_right].
    fold (weightedOver s (fun _ : Rank => -(1)) rest).
    destruct (Z.ltb_spec 0 (count s r)); [lia | ring].
  - intros r rest acc x HR Hpos ->. rewrite <- HR. cbn [weightedOver fold_right].
    fold (weightedOver s (fun _ : Rank => -(1)) rest).
    destruct (Z.ltb_spec 0 (count s r)); [ring | lia].
  - exists cache'. rewrite E. cbn [weightedOver fold_right] in HR. rewrite <- HR.
    f_equal. f_equal. ring.
Qed.

(** C2 (what the code does): for a busted hand on a non-empty shoe with
    non-negative counts the table is exactly Stand = -1 followed by
    Hit = -1: the Hit entry is present although the hand is busted. *)
Theorem busted_hand_table (hand : Hand) (ctx : PlayerContext) (s : Shoe) :
  shoe_wf s -> (0 < shoeTotal s)%Z -> isBust hand = true ->
  actionEVsFinite hand ctx s = Ok ([("Stand"%string, -(1)); ("Hit"%string, -(1))], s).
Proof.
  intros Hwf Htot Hbust.
  destruct (hitBlock_bust hand ctx s Hwf Hbust) as (cache1 & Ehit).
  destruct (actionEVsFinite_table_hit hand ctx s _ cache1 Hwf Ehit) as (splitEV & E).
  rewrite E. f_equal. f_equal. unfold tableOf.
  assert (Hlen : (length hand =? 2)%nat = false).
  { destruct (Nat.eqb_spec (length hand) 2) as [Hl | _]; [| reflexivity].
    rewrite short_hand_not_bust in Hbust by lia. discriminate. }
  unfold doubleCond, surrenderCond. rewrite Hlen, !andb_false_r. cbn [andb app].
  assert (Hpair : pairCond hand = false).
  { destruct hand as [| h0 [| h1 [| h2 rest]]]; try reflexivity. discriminate. }
  rewrite Hpair. cbn [app].
  rewrite (evStand_bust _ _ _ _ Hbust). cbn [valueOf].
  rewrite weightedAvg_const by (assumption || lia). reflexivity.
Qed.

Lemma busted_hand_table_witness :
  let hand := [R10; R10; R5] in
  let s := initShoeMulti 6 [hand] R6 in
  shoe_wf s /\ (0 < shoeTotal s)%Z /\ isBust hand = true
  /\ actionEVsFinite hand (initialCtx DEFAULT_RULES R6 hand) s
     = Ok ([("Stand"%string, -(1)); ("Hit"%string, -(1))], s).
Proof.
  cbv zeta.
  assert (Hwf : shoe_wf (initShoeMulti 6 [[R10; R10; R5]] R6)).
  { intros r. destruct r; vm_compute; discriminate. }
  split; [exact Hwf |]. split; [reflexivity |]. split; [reflexivity |].
  apply (busted_hand_table [R10; R10; R5]); [exact Hwf | reflexivity | reflexivity].
Defined.

(** ** Empty shoe *)

Lemma drawLoop_empty {T X Acc} (child : Rank -> M (Shoe * T) X)
    (upd : Acc -> Qc -> X -> Acc) (init : Acc) s t :
  shoe_wf s -> shoeTotal s = 0%Z ->
  drawLoop child upd init (s, t) = Ok (init, (s, t)).
Proof.
  intros Hwf Hz.
  destruct (drawLoop_spec child upd init (fun t' => t' = t) (fun _ _ => False)
              (fun _ acc => acc = init) s t)
    as (acc & t' & E & -> & ->); auto.
  - intros r t0 Hpos _. pose proof (shoe_wf_empty s r Hwf Hz). lia.
  - intros r rest acc x _ _ [].
Qed.

Lemma dealerOutcomeProbs_empty upcard rules s :
  shoe_wf s -> shoeTotal s = 0%Z -> dealerOutcomeProbs upcard rules s = Ok ([], s).
Proof.
  intros Hwf Hz. unfold dealerOutcomeProbs, scoped.
  rewrite drawLoop_empty by assumption. reflexivity.
Qed.

(** ** C9 *)

(** C9: when the shoe (non-negative counts) has no card left, a banker hand
    that must draw gets the empty distribution, the banker distribution
    itself is empty, the player's hit loop accumulates 0, and the table is
    returned with Hit = 0 and the shoe untouched; and on every shoe with
    non-negative counts the evaluation returns a table: no division by
    zero and no other failure occurs. *)
Theorem empty_shoe_zero_contribution (rules : Rules) (fuel : nat) (cards hand : Hand)
    (ctx : PlayerContext) (s : Shoe) (memo : gmap DKey Dist) :
  shoe_wf s -> shoeTotal s = 0%Z ->
  let t := handTotals cards in
  let key : DKey := (best t, isSoft t, shoeKey s) in
  ((best t <= 21)%Z -> shouldStand t rules = false -> memo !! key = None ->
     probsFor rules (S fuel) cards (s, memo) = Ok ([], (s, <[key := []]> memo)))
  /\ dealerOutcomeProbs (Ctx.upcard ctx) rules s = Ok ([], s)
  /\ (forall recur cache, hitBlock recur hand ctx (s, cache) = Ok (0, (s, cache)))
  /\ (exists tbl, actionEVsFinite hand ctx s = Ok (tbl, s)
                  /\ alookup "Hit"%string tbl = Some 0)
  /\ (forall s0, shoe_wf s0 -> exists tbl, actionEVsFinite hand ctx s0 = Ok (tbl, s0)).
Proof.
  intros Hwf Hz t key.
  split; [| split; [| split; [| split]]].
  - intros Hle Hstand Hmiss. cbn [probsFor].
    rewrite (bind_Ok _ _ (s, memo) s (s, memo)) by reflexivity.
    rewrite (bind_Ok _ _ (s, memo) memo (s, memo)) by reflexivity.
    fold t. change (memo !! (best t, isSoft t, shoeKey s)) with (memo !! key).
    rewrite Hmiss, Hstand.
    destruct (Z.ltb_spec 21 (best t)); [lia |].
    destruct ((length cards =? 2)%nat && (best t =? 21)%Z) eqn:Hnat.
    + exfalso. apply andb_true_iff in Hnat as [_ H21]. apply Z.eqb_eq in H21.
      revert Hstand. unfold shouldStand. rewrite H21. cbn.
      destruct (isSoft t); discriminate.
    + rewrite Hz. reflexivity.
  - apply dealerOutcomeProbs_empty; assumption.
  - intros recur cache. unfold hitBlock. apply drawLoop_empty; assumption.
  - assert (Ehit : hitBlock (bestActionEV (fuelFor s)) hand ctx (s, ∅) = Ok (0, (s, ∅)))
      by (unfold hitBlock; apply drawLoop_empty; assumption).
    destruct (actionEVsFinite_table_hit hand ctx s 0 ∅ Hwf Ehit) as (splitEV & E).
    eexists. split; [exact E | reflexivity].
  - intros s0 Hwf0.
    destruct (actionEVsFinite_table hand ctx s0 Hwf0) as (hitEV & splitEV & E).
    eexists. exact E.
Qed.

Lemma empty_shoe_zero_contribution_witness :
  let hand := [R10; R6] in
  let ctx := initialCtx DEFAULT_RULES R10 hand in
  shoe_wf zeroShoe /\ shoeTotal zeroShoe = 0%Z
  /\ dealerOutcomeProbs R10 DEFAULT_RULES zeroShoe = Ok ([], zeroShoe)
  /\ exists tbl, actionEVsFinite hand ctx zeroShoe = Ok (tbl, zeroShoe)
                 /\ alookup "Hit"%string tbl = Some 0.
Proof.
  cbv zeta.
  assert (Hwf : shoe_wf zeroShoe) by (intros r; destruct r; vm_compute; discriminate).
  split; [exact Hwf |]. split; [reflexivity |].
  destruct (empty_shoe_zero_contribution DEFAULT_RULES 0 [R10; R6] [R10; R6]
              (initialCtx DEFAULT_RULES R10 [R10; R6]) zeroShoe ∅ Hwf eq_refl)
    as (_ & Hd & _ & Ht & _).
  split; [exact Hd | exact Ht].
Defined.

(** ** The natural bypass *)

Lemma bestActionEV_natural (fuel : nat) (hand : Hand) (ctx : PlayerContext) (s : Shoe)
    (cache : gmap CKey Qc) :
  shoe_wf s ->
  cache !! cacheKey hand ctx s = None ->
  isBust hand = false ->
  (length hand =? 2)%nat && (Ctx.splitDepth ctx =? 0)%Z && isBlackjack hand = true ->
  let v := valueOf (evInitialBlackjack (Ctx.upcard ctx) (Ctx.rules ctx) s) in
  bestActionEV (S fuel) hand ctx (s, cache)
  = Ok (v, (s, <[cacheKey hand ctx s := v]> cache)).
Proof.
  intros Hwf Hmiss Hbust Hnat v. cbn [bestActionEV].
  rewrite (bind_Ok _ _ (s, cache) s (s, cache)) by reflexivity.
  rewrite (bind_Ok _ _ (s, cache) cache (s, cache)) by reflexivity.
  rewrite Hmiss, Hbust, Hnat.
  erewrite bind_Ok by (apply liftShoe_run, evInitialBlackjack_run; assumption).
  reflexivity.
Qed.

(** ** C1 *)

(** C1 (what the code does): for the natural {Ace, Ten} against upcard 6
    under the default rules (six decks) the natural bypass returns
    (1 - P(banker ends on 21)) x 1.5, which counts every banker 21 and not
    only two-card ones: the EV is below 1.5. *)
Theorem natural_vs_six_below_payout :
  let hand := [Ace; R10] in
  let ctx := initialCtx DEFAULT_RULES R6 hand in
  let s := initShoeMulti 6 [hand] R6 in
  exists v,
    evInitialBlackjack R6 DEFAULT_RULES s = Ok (v, s)
    /\ bestActionEV (fuelFor s) hand ctx (s, ∅)
       = Ok (v, (s, <[cacheKey hand ctx s := v]> ∅))
    /\ this v = (33635420809845223 # 25084774741786320)%Q
    /\ v < payoutValue (blackjackPays DEFAULT_RULES).
Proof.
  cbv zeta.
  assert (Hwf : shoe_wf (initShoeMulti 6 [[Ace; R10]] R6))
    by (intros r; destruct r; vm_compute; discriminate).
  exists (valueOf (evInitialBlackjack R6 DEFAULT_RULES (initShoeMulti 6 [[Ace; R10]] R6))).
  split; [exact (evInitialBlackjack_run R6 DEFAULT_RULES _ Hwf) |]. split; [| split].
  - exact (bestActionEV_natural _ [Ace; R10] (initialCtx DEFAULT_RULES R6 [Ace; R10]) _ ∅
             Hwf (lookup_empty _) eq_refl eq_refl).
  - vm_compute. reflexivity.
  - vm_compute. reflexivity.
Qed.

(** ** Splitting *)

Lemma splitBlock_aces (recur : Hand -> PlayerContext -> M (Shoe * gmap CKey Qc) Qc)
    (ctx : PlayerContext) (s : Shoe) (t : gmap CKey Qc) :
  shoe_wf s -> splitAcesOneCardOnly (Ctx.rules ctx) = true ->
  let w := weightedAvg s (standAfterDraw [Ace] (Ctx.upcard ctx) (Ctx.rules ctx) s) in
  splitBlock recur ctx Ace Ace (s, t) = Ok (w + w, (s, t)).
Proof.
  intros Hwf Hoco w. unfold splitBlock.
  set (f := standAfterDraw [Ace] (Ctx.upcard ctx) (Ctx.rules ctx) s) in *.
  destruct (drawLoop_spec (splitChild recur ctx Ace Ace)
              (fun lr p x => (fst lr + p * fst x, snd lr + p * snd x)) (0, 0)
              (fun t' => t' = t) (fun r x => x = (f r, f r))
              (fun rest lr => fst lr + weightedOver s f rest = w
                              /\ snd lr + weightedOver s f rest = w) s t)
    as (acc & t' & E & -> & HR1 & HR2); try assumption; try reflexivity.
  - intros r t0 Hpos ->. unfold splitChild.
    change (bool_decide (Ace = Ace)) with true. cbn [andb]. rewrite Hoco.
    assert (Hwf' : shoe_wf (draw s r)) by (apply shoe_wf_draw; assumption).
    erewrite bind_Ok by (apply standOn_run; assumption).
    erewrite bind_Ok by (apply standOn_run; assumption).
    exists (f r, f r), t. auto.
  - unfold w, weightedAvg. cbn [fst snd]. split; ring.
  - intros r rest acc [HR1 HR2] Hle. revert HR1 HR2.
    cbn [weightedOver fold_right]. fold (weightedOver s f rest).
    destruct (Z.ltb_spec 0 (count s r)); [lia |].
    intros HR1 HR2. split; [rewrite <- HR1 | rewrite <- HR2]; ring.
  - intros r rest acc x [HR1 HR2] Hpos ->. cbn [fst snd]. revert HR1 HR2.
    cbn [weightedOver fold_right]. fold (weightedOver s f rest).
    destruct (Z.ltb_spec 0 (count s r)); [| lia].
    intros HR1 HR2. split; [rewrite <- HR1 | rewrite <- HR2]; ring.
  - rewrite (bind_Ok _ _ _ _ _ E). cbn [weightedOver fold_right] in HR1, HR2.
    unfold mret, M_ret. f_equal. f_equal.
    transitivity (fst acc + 0 + (snd acc + 0)); [ring |]. f_equal; assumption.
Qed.

(** ** C8 *)



(** * Further properties of the code *)

(** ** Hand utilities *)

Lemma countCards_perm l l' :
  Permutation l l' -> forall total aces, countCards l total aces = countCards l' total aces.
Proof.
  induction 1 as [| x l l' _ IH | x y l | l l' l'' _ IH1 _ IH2]; intros total aces.
  - reflexivity.
  - cbn [countCards]. destruct (decide (x = Ace)); apply IH.
  - cbn [countCards]. destruct (decide (x = Ace)), (decide (y = Ace)); try reflexivity.
    f_equal. lia.
  - rewrite IH1. apply IH2.
Qed.

Lemma handTotals_Permutation (cards cards' : Hand) :
  Permutation cards cards' -> handTotals cards = handTotals cards'.
Proof.
  intros Hp. unfold handTotals. rewrite (countCards_perm _ _ Hp). reflexivity.
Qed.

(** X1: the totals of a hand do not depend on the order of its cards. *)
Theorem handTotals_perm (cards cards' : Hand) :
  Permutation cards cards' -> handTotals cards = handTotals cards'.
Proof. exact (handTotals_Permutation cards cards'). Qed.

Lemma handTotals_perm_witness :
  Permutation [Ace; R7; R3] [R3; Ace; R7]
  /\ handTotals [Ace; R7; R3] = handTotals [R3; Ace; R7].
Proof.
  assert (Hp : Permutation [Ace; R7; R3] [R3; Ace; R7])
    by exact (Permutation_sym (Permutation_cons_append [Ace; R7] R3)).
  split; [exact Hp | exact (handTotals_perm _ _ Hp)].
Defined.

Lemma countCards_normalize l :
  forall total aces,
    countCards (map normalizeRank l) total aces = countCards l total aces.
Proof.
  induction l as [| r rest IH]; intros total aces; [reflexivity |].
  cbn [map countCards].
  destruct r; cbn; apply IH.
Qed.

Lemma handTotals_map_normalizeRank (cards : Hand) :
  handTotals (map normalizeRank cards) = handTotals cards.
Proof. unfold handTotals. rewrite countCards_normalize. reflexivity. Qed.

(** X2: face cards count as tens: replacing every card by its normalized
    rank leaves the totals unchanged. *)
Theorem handTotals_normalize (cards : Hand) :
  handTotals (map normalizeRank cards) = handTotals cards.
Proof. exact (handTotals_map_normalizeRank cards). Qed.

Lemma countCards_facts cards :
  forall total aces,
    let '(total', aces') := countCards cards total aces in
    (total <= total')%Z /\ (aces <= aces')%Z
    /\ ((aces < aces')%Z <-> includesAce cards = true).
Proof.
  induction cards as [| r rest IH]; intros total aces; cbn [countCards includesAce existsb].
  - split; [lia |]. split; [lia |]. split; [lia | discriminate].
  - destruct (decide (r = Ace)) as [-> | Hne].
    + specialize (IH total (aces + 1)%Z).
      destruct (countCards rest total (aces + 1)) as [t' a']. destruct IH as (H1 & H2 & H3).
      split; [lia |]. split; [lia |]. cbn. split; [reflexivity | lia].
    + specialize (IH (total + rankValue r)%Z aces).
      destruct (countCards rest (total + rankValue r) aces) as [t' a'].
      destruct IH as (H1 & H2 & H3).
      assert (0 < rankValue r)%Z by (destruct r; cbn; lia).
      split; [lia |]. split; [lia |].
      rewrite (bool_decide_eq_false_2 _ Hne). cbn [orb]. exact H3.
Qed.

(** Once an ace cannot take 11 no later ace can. *)
Lemma placeAces_stuck n :
  forall i aces b,
    (21 - (aces - 1 - i) < b + 11)%Z -> placeAces n i aces b = (b + Z.of_nat n)%Z.
Proof.
  induction n as [| n IH]; intros i aces b Hs; cbn [placeAces].
  - lia.
  - destruct (Z.leb_spec (b + 11) (21 - (aces - 1 - i))); [lia |].
    rewrite IH by lia. lia.
Qed.

Lemma placeAces_result total aces :
  (0 <= total)%Z -> (0 <= aces)%Z ->
  placeAces (Z.to_nat aces) 0 aces total
  = (if (0 <? aces)%Z && (total + aces + 10 <=? 21)%Z
     then total + aces + 10 else total + aces)%Z.
Proof.
  intros Ht Ha. destruct (Z.to_nat aces) as [| n] eqn:En.
  - assert (aces = 0)%Z by lia. subst. cbn. lia.
  - assert (Hpos : (0 < aces)%Z) by lia.
    destruct (Z.ltb_spec 0 aces); [| lia]. cbn [andb placeAces].
    destruct (Z.leb_spec (total + 11) (21 - (aces - 1 - 0))) as [Hfit | Hno].
    + destruct (Z.leb_spec (total + aces + 10) 21); [| lia].
      destruct n as [| n].
      * cbn [placeAces]. lia.
      * rewrite placeAces_stuck by lia. lia.
    + destruct (Z.leb_spec (total + aces + 10) 21); [lia |].
      rewrite placeAces_stuck by lia. lia.
Qed.

Lemma handTotals_soft (cards : Hand) :
  let t := handTotals cards in
  (isSoft t = true <-> includesAce cards = true /\ (hard t + 10 <= 21)%Z)
  /\ best t = (if isSoft t then hard t + 10 else hard t)%Z
  /\ soft t = (if isSoft t then Some (hard t + 10)%Z else None).
Proof.
  unfold handTotals. pose proof (countCards_facts cards 0 0) as Hf.
  destruct (countCards cards 0 0) as [total aces]. destruct Hf as (Ht & Ha & Hace).
  cbn [hard isSoft best soft]. rewrite placeAces_result by assumption.
  destruct (Z.ltb_spec 0 aces) as [Hpos | Hzero]; cbn [andb].
  - destruct (Z.leb_spec (total + aces + 10) 21) as [Hfit | Hno].
    + destruct (Z.leb_spec (total + aces + 10) 21); [| lia].
      replace (total + aces + 10 - total - (aces - 1) =? 11)%Z with true
        by (symmetry; apply Z.eqb_eq; lia).
      cbn [andb]. split; [| split; [lia | f_equal; lia]].
      split; [intros _; split; [apply Hace; lia | lia] | reflexivity].
    + destruct (Z.leb_spec (total + aces) 21); cbn [andb].
      * replace (total + aces - total - (aces - 1) =? 11)%Z with false
          by (symmetry; apply Z.eqb_neq; lia).
        split; [| split; reflexivity]. split; [discriminate | lia].
      * split; [| split; reflexivity]. split; [discriminate | lia].
  - split; [| split; reflexivity]. split; [discriminate |].
    intros [Hinc _]. apply Hace in Hinc. lia.
Qed.

(** ** C10 *)

(** C10: for every hand the hard total is the sum of the cards with every
    ace counted as 1; the best total is the hard total or the hard total
    plus 10, and it is the hard total plus 10 exactly when the hand is
    soft, which is exactly when the hand holds an ace and the hard total
    plus 10 does not exceed 21: at most one ace ever counts 11. *)
Theorem handTotals_best_hard_or_plus10 (cards : Hand) :
  let t := handTotals cards in
  hard t = fold_right (fun r acc => hardValue r + acc)%Z 0%Z cards
  /\ (best t = hard t \/ best t = (hard t + 10)%Z)
  /\ (best t = (hard t + 10)%Z <-> isSoft t = true)
  /\ (isSoft t = true <-> includesAce cards = true /\ (hard t + 10 <= 21)%Z).
Proof.
  intros t. split; [apply hard_handTotals |].
  destruct (handTotals_soft cards) as (Hsoft & _). fold t in Hsoft.
  destruct (best_cases cards) as [(Hs & Hb & _) | (Hs & Hb)]; fold t in Hs, Hb.
  - split; [right; exact Hb |]. split; [split; intros _; assumption | exact Hsoft].
  - split; [left; exact Hb |]. split; [| exact Hsoft].
    split; intros H; [lia | congruence].
Qed.

(** X3: a hand is soft exactly when it holds an ace and counting one ace
    as 11 does not bust it; the best total is then the hard total plus 10,
    and it is the hard total otherwise. *)
Theorem isSoft_iff (cards : Hand) :
  let t := handTotals cards in
  (isSoft t = true <-> includesAce cards = true /\ (hard t + 10 <= 21)%Z)
  /\ best t = (if isSoft t then hard t + 10 else hard t)%Z
  /\ soft t = (if isSoft t then Some (hard t + 10)%Z else None).
Proof. exact (handTotals_soft cards). Qed.

Lemma isSoft_iff_witness :
  includesAce [Ace; R6] = true /\ (hard (handTotals [Ace; R6]) + 10 <= 21)%Z
  /\ isSoft (handTotals [Ace; R6]) = true.
Proof.
  split; [reflexivity |]. split; [vm_compute; discriminate |].
  apply (proj1 (isSoft_iff [Ace; R6])). split; [reflexivity | vm_compute; discriminate].
Defined.

(** X4: a hand busts exactly when its hard total exceeds 21; so a hand of
    at most two cards never busts and a busted hand stays busted when a
    card is added. *)
Theorem bust_facts (cards : Hand) (r : Rank) :
  (isBust cards = true <-> (21 < hard (handTotals cards))%Z)
  /\ ((length cards <= 2)%nat -> isBust cards = false)
  /\ (isBust cards = true -> isBust (cards ++ [r]) = true).
Proof.
  split; [apply isBust_hard |]. split; [apply short_hand_not_bust | apply isBust_app].
Qed.

Lemma bust_facts_witness :
  (length [Ace; Ace] <= 2)%nat /\ isBust [Ace; Ace] = false
  /\ isBust [R10; R9; R5] = true /\ isBust ([R10; R9; R5] ++ [Ace]) = true.
Proof.
  destruct (bust_facts [Ace; Ace] Ace) as (_ & Hshort & _).
  destruct (bust_facts [R10; R9; R5] Ace) as (_ & _ & Happ).
  split; [cbn; lia |]. split; [apply Hshort; cbn; lia |].
  split; [reflexivity | apply Happ; reflexivity].
Defined.

(** X5: [isBlackjack] holds exactly for the two-card hands made of an ace
    and a ten-valued card, in either order. *)
Theorem isBlackjack_iff (cards : Hand) :
  isBlackjack cards = true <->
  exists a b, cards = [a; b]
              /\ ((a = Ace /\ rankValue b = 10%Z) \/ (rankValue a = 10%Z /\ b = Ace)).
Proof.
  split.
  - destruct cards as [| a [| b [| c rest]]]; try discriminate.
    intros H. exists a, b. split; [reflexivity |].
    destruct a, b; try discriminate H; auto.
  - intros (a & b & -> & [[-> Hb] | [Ha ->]]).
    + destruct b; try discriminate Hb; reflexivity.
    + destruct a; try discriminate Ha; reflexivity.
Qed.

Lemma isBlackjack_iff_witness :
  isBlackjack [Queen; Ace] = true
  /\ exists a b, [Queen; Ace] = [a; b]
                 /\ ((a = Ace /\ rankValue b = 10%Z) \/ (rankValue a = 10%Z /\ b = Ace)).
Proof.
  split; [reflexivity |]. apply (proj1 (isBlackjack_iff [Queen; Ace])). reflexivity.
Defined.

(** X6: [canSplit] is the pair test of the action engine, it does not
    depend on the order of the two cards, and it sees the normalized
    ranks only. *)
Theorem canSplit_facts (a b : Rank) (cards : Hand) :
  canSplit cards = pairCond cards
  /\ canSplit [a; b] = canSplit [b; a]
  /\ canSplit [normalizeRank a; normalizeRank b] = canSplit [a; b]
  /\ (canSplit cards = true -> length cards = 2%nat).
Proof.
  split; [reflexivity |]. split; [| split].
  - cbn. destruct a, b; reflexivity.
  - cbn. destruct a, b; reflexivity.
  - destruct cards as [| x [| y [| z rest]]]; try discriminate. reflexivity.
Qed.

Lemma canSplit_facts_witness :
  canSplit [King; R10] = true /\ length [King; R10] = 2%nat.
Proof.
  split; [reflexivity |].
  apply (proj2 (proj2 (proj2 (canSplit_facts King R10 [King; R10])))). reflexivity.
Defined.

(** ** Finite shoe *)

Lemma count_makeFullShoe n r : count (makeFullShoe n) r = (4 * n)%Z.
Proof. destruct r; reflexivity. Qed.

Lemma count_removeCard s x r :
  count (removeCard s x) r
  = (if decide (x = r) then (if (0 <? count s r)%Z then count s r - 1 else count s r)
     else count s r)%Z.
Proof.
  unfold removeCard. destruct (decide (x = r)) as [-> | Hne].
  - destruct (0 <? count s r)%Z; [apply count_setCount_same | reflexivity].
  - destruct (0 <? count s x)%Z; [apply count_setCount_other; assumption | reflexivity].
Qed.

Lemma count_fold_removeCard l :
  forall s r,
    (0 <= count s r)%Z ->
    count (fold_left removeCard l s) r
    = Z.max 0 (count s r - Z.of_nat (length (filter (fun x => x = r) l))).
Proof.
  induction l as [| x rest IH]; intros s r Hnn; cbn [fold_left].
  - cbn. lia.
  - rewrite IH; rewrite count_removeCard.
    + rewrite filter_cons. destruct (decide (x = r)) as [-> | Hne].
      * destruct (Z.ltb_spec 0 (count s r)); cbn [length]; lia.
      * reflexivity.
    + destruct (decide (x = r)); [| assumption].
      destruct (Z.ltb_spec 0 (count s r)); lia.
Qed.

Lemma fold_removeCard_concat hands :
  forall s,
    fold_left (fun s h => fold_left removeCard h s) hands s
    = fold_left removeCard (concat hands) s.
Proof.
  induction hands as [| h rest IH]; intros s; cbn [fold_left concat]; [reflexivity |].
  rewrite IH, fold_left_app. reflexivity.
Qed.

Lemma count_initShoeMulti (nDecks : Z) (hands : list Hand) (dealerUp r : Rank) :
  (0 <= nDecks)%Z ->
  let s := initShoeMulti nDecks hands dealerUp in
  count s r = Z.max 0 (4 * nDecks - visible hands dealerUp r)
  /\ (0 <= count s r <= 4 * nDecks)%Z.
Proof.
  intros Hn s.
  assert (E : count s r = Z.max 0 (4 * nDecks - visible hands dealerUp r)).
  { unfold s, initShoeMulti, visible.
    rewrite fold_removeCard_concat.
    change (removeCard (fold_left removeCard (concat hands) (makeFullShoe nDecks)) dealerUp)
      with (fold_left removeCard [dealerUp]
              (fold_left removeCard (concat hands) (makeFullShoe nDecks))).
    rewrite <- fold_left_app.
    rewrite count_fold_removeCard; rewrite count_makeFullShoe; [reflexivity | lia]. }
  split; [exact E |]. rewrite E. unfold visible. lia.
Qed.

(** X7: the shoe built from the visible cards holds, for every rank,
    4 x decks cards minus the visible cards of that rank, clamped at 0; so
    every count lies between 0 and 4 x decks. *)
Theorem initShoeMulti_counts (nDecks : Z) (hands : list Hand) (dealerUp r : Rank) :
  (0 <= nDecks)%Z ->
  let s := initShoeMulti nDecks hands dealerUp in
  count s r = Z.max 0 (4 * nDecks - visible hands dealerUp r)
  /\ (0 <= count s r <= 4 * nDecks)%Z.
Proof. exact (count_initShoeMulti nDecks hands dealerUp r). Qed.

Lemma initShoeMulti_counts_witness :
  let s := initShoeMulti 1 [[R10; R10]; [R10; R10; R10]] R10 in
  (0 <= 1)%Z /\ count s R10 = 0%Z /\ count s Jack = 4%Z.
Proof.
  cbv zeta.
  destruct (initShoeMulti_counts 1 [[R10; R10]; [R10; R10; R10]] R10 R10) as [E10 _]; [lia |].
  destruct (initShoeMulti_counts 1 [[R10; R10]; [R10; R10; R10]] R10 Jack) as [EJ _]; [lia |].
  split; [lia |]. split; [exact E10 | exact EJ].
Defined.

Lemma initShoeMulti_wf nDecks hands dealerUp :
  (0 <= nDecks)%Z -> shoe_wf (initShoeMulti nDecks hands dealerUp).
Proof.
  intros Hn r. destruct (count_initShoeMulti nDecks hands dealerUp r Hn) as [_ H]. lia.
Qed.

Lemma filter_rank_length (l : list Rank) :
  fold_right (fun r acc => (Z.of_nat (length (filter (fun x => x = r) l)) + acc)%Z) 0%Z RANKS
  = Z.of_nat (length l).
Proof.
  induction l as [| x rest IH]; [reflexivity |].
  cbn [fold_right RANKS] in *. rewrite !filter_cons.
  destruct x; cbn [decide_rel decide] in *;
    repeat (match goal with
            | |- context [decide (?a = ?b)] =>
                destruct (decide (a = b)); [try discriminate | try congruence]
            end);
    cbn [length]; lia.
Qed.

Lemma shoeTotal_counts (s : Shoe) :
  shoeTotal s = fold_right (fun r acc => (count s r + acc)%Z) 0%Z RANKS.
Proof. destruct s. unfold shoeTotal. cbn. lia. Qed.

Lemma fold_counts_bounds (s : Shoe) (n : Z) (vis : Rank -> Z) (l : list Rank) :
  (forall r, count s r = Z.max 0 (4 * n - vis r)) ->
  (forall r, 0 <= vis r)%Z ->
  let total := fold_right (fun r acc => (count s r + acc)%Z) 0%Z l in
  let seen := fold_right (fun r acc => (vis r + acc)%Z) 0%Z l in
  (4 * n * Z.of_nat (length l) - seen <= total)%Z
  /\ (0 <= n -> total <= 4 * n * Z.of_nat (length l))%Z
  /\ ((forall r, vis r <= 4 * n)%Z -> total = 4 * n * Z.of_nat (length l) - seen)%Z.
Proof.
  intros Hc Hv. induction l as [| r rest IH]; cbn zeta in *.
  - cbn. repeat split; lia.
  - cbn [fold_right length]. destruct IH as (IH1 & IH2 & IH3).
    pose proof (Hc r) as Hr. pose proof (Hv r) as Hvr.
    split; [lia |]. split; [intros Hn; specialize (IH2 Hn); lia |].
    intros Hle. specialize (IH3 Hle). pose proof (Hle r). lia.
Qed.



(** X9: [draw] and [undraw] undo each other, move exactly one card of the
    given rank and leave every other rank alone. *)
Theorem draw_undraw_roundtrip (s : Shoe) (r r' : Rank) :
  undraw (draw s r) r = s
  /\ draw (undraw s r) r = s
  /\ count (draw s r) r = (count s r - 1)%Z
  /\ count (undraw s r) r = (count s r + 1)%Z
  /\ (r <> r' -> count (draw s r) r' = count s r' /\ count (undraw s r) r' = count s r')
  /\ shoeTotal (draw s r) = (shoeTotal s - 1)%Z
  /\ shoeTotal (undraw s r) = (shoeTotal s + 1)%Z.
Proof.
  split; [apply undraw_draw |].
  split; [destruct s, r; unfold undraw, draw; cbn; f_equal; lia |].
  split; [apply count_setCount_same |].
  split; [apply count_setCount_same |].
  split; [intros Hne; split; apply count_setCount_other; assumption |].
  split; [apply shoeTotal_draw |].
  destruct s, r; unfold shoeTotal, undraw; cbn; lia.
Qed.

Lemma draw_undraw_roundtrip_witness :
  R5 <> R6 /\ count (draw (makeFullShoe 1) R5) R6 = count (makeFullShoe 1) R6.
Proof.
  split; [discriminate |].
  apply (proj2 (proj2 (proj2 (proj2 (draw_undraw_roundtrip (makeFullShoe 1) R5 R6))))).
  discriminate.
Defined.

Lemma shoeKey_eq (s s' : Shoe) : shoeKey s = shoeKey s' -> s = s'.
Proof.
  destruct s, s'. unfold shoeKey. cbn. intros H. injection H. intros. subst. reflexivity.
Qed.

(** X10: the shoe signature used in the memo keys identifies the shoe. *)
Theorem shoeKey_inj (s s' : Shoe) : shoeKey s = shoeKey s' -> s = s'.
Proof. exact (shoeKey_eq s s'). Qed.

Lemma shoeKey_inj_witness :
  shoeKey (undraw (draw (makeFullShoe 2) Ace) Ace) = shoeKey (makeFullShoe 2)
  /\ undraw (draw (makeFullShoe 2) Ace) Ace = makeFullShoe 2.
Proof.
  split; [reflexivity |]. apply shoeKey_inj. reflexivity.
Defined.

(** ** The banker distribution is a sub-distribution on every shoe *)

Lemma ofZ_le a b : (a <= b)%Z -> ofZ a <= ofZ b.
Proof.
  intros H. unfold ofZ, Qcle. cbn. rewrite !Qred_correct.
  unfold Qle. cbn. lia.
Qed.

Lemma ofZ_pos a : (0 < a)%Z -> 0 < ofZ a.
Proof.
  intros H. unfold ofZ, Qclt. cbn. rewrite !Qred_correct.
  unfold Qlt. cbn. lia.
Qed.

Lemma Qc_div_nonneg a t : (0 <= a)%Z -> (0 < t)%Z -> 0 <= ofZ a / ofZ t.
Proof.
  intros Ha Ht. apply (Qcmult_lt_0_le_reg_r _ _ (ofZ t)); [apply ofZ_pos; assumption |].
  replace (ofZ a / ofZ t * ofZ t) with (ofZ a).
  - rewrite Qcmult_0_l. rewrite <- ofZ_0. apply ofZ_le. assumption.
  - field. intros E. apply ofZ_inv0 in E. lia.
Qed.

Lemma shoeTotal_pos s r : shoe_wf s -> (0 < count s r)%Z -> (0 < shoeTotal s)%Z.
Proof. intros Hwf Hpos. pose proof (count_le_total s r Hwf). lia. Qed.

Lemma weight_nonneg s r : shoe_wf s -> (0 < count s r)%Z -> 0 <= weight s r.
Proof.
  intros Hwf Hpos. unfold weight. apply Qc_div_nonneg; [lia |].
  apply (shoeTotal_pos s r); assumption.
Qed.

Lemma dget_nonneg (d : Dist) k : Forall (fun e => 0 <= snd e) d -> 0 <= dget d k.
Proof.
  unfold dget. induction 1 as [| [k' v] rest Hv _ IH]; cbn.
  - apply Qcle_refl.
  - destruct (decide (k = k')); [exact Hv | exact IH].
Qed.

Lemma Forall_aset (P : Qc -> Prop) k v (o : Dist) :
  P v -> Forall (fun e => P (snd e)) o -> Forall (fun e => P (snd e)) (aset k v o).
Proof.
  intros Hv. induction 1 as [| [k' v'] rest Hv' Hrest IH]; cbn.
  - constructor; [exact Hv | constructor].
  - destruct (decide (k = k')); constructor; assumption.
Qed.

Lemma Qc_mult_nonneg a b : 0 <= a -> 0 <= b -> 0 <= a * b.
Proof.
  intros Ha Hb. rewrite <- (Qcmult_0_l b). apply Qcmult_le_compat_r; assumption.
Qed.

Lemma Qc_add_nonneg a b : 0 <= a -> 0 <= b -> 0 <= a + b.
Proof.
  intros Ha Hb. rewrite <- (Qcplus_0_l 0). apply Qcplus_le_compat; assumption.
Qed.

Lemma mix_nonneg p (next : Dist) ks :
  0 <= p -> Forall (fun e => 0 <= snd e) next ->
  forall out, Forall (fun e => 0 <= snd e) out ->
    Forall (fun e => 0 <= snd e)
      (fold_left (fun o k => aset k (dget o k + p * dget next k) o) ks out).
Proof.
  intros Hp Hnext. induction ks as [| k ks IH]; intros out Hout; cbn [fold_left].
  - exact Hout.
  - apply IH. apply (Forall_aset (fun v => 0 <= v)); [| exact Hout].
    apply Qc_add_nonneg; [apply dget_nonneg; assumption |].
    apply Qc_mult_nonneg; [assumption | apply dget_nonneg; assumption].
Qed.

Lemma subDist_point k : validOutcome k -> subDist [(k, 1)].
Proof.
  intros Hk. split; [apply NoDup_singleton |].
  split; [constructor; [exact Hk | constructor] |].
  split; [constructor; [discriminate | constructor] |].
  unfold dsum. cbn. rewrite Qcplus_0_r. apply Qcle_refl.
Qed.

Lemma subDist_nil : subDist [].
Proof.
  split; [apply NoDup_nil; trivial |]. split; [constructor |].
  split; [constructor | discriminate].
Qed.

Lemma subInv_init s : shoe_wf s -> subInv s RANKS [].
Proof.
  intros Hwf. split; [apply NoDup_nil; trivial |]. split; [constructor |].
  split; [constructor |].
  rewrite posSum_RANKS, drawable_wf by assumption.
  replace (shoeTotal s - shoeTotal s)%Z with 0%Z by lia.
  rewrite ofZ_0. unfold dsum, Qcdiv. cbn [fold_right]. rewrite Qcmult_0_l. apply Qcle_refl.
Qed.

Lemma subInv_skip s r rest acc :
  subInv s (r :: rest) acc -> (count s r <= 0)%Z -> subInv s rest acc.
Proof.
  intros (H1 & H2 & H3 & H4) Hle. split; [exact H1 |]. split; [exact H2 |].
  split; [exact H3 |]. revert H4. cbn [posSum fold_right]. fold (posSum s rest).
  rewrite Z.max_l by assumption. rewrite Z.add_0_l. trivial.
Qed.

Lemma subInv_step s r rest acc next :
  shoe_wf s -> subInv s (r :: rest) acc -> (0 < count s r)%Z ->
  subDist next -> subInv s rest (mix acc (weight s r) next).
Proof.
  intros Hwf (H1 & H2 & H3 & H4) Hpos (G1 & G2 & G3 & G4).
  pose proof (weight_nonneg s r Hwf Hpos) as Hw.
  destruct (mix_spec (weight s r) acc next H1 H2 G1 G2) as (Ha & Hb & Hc).
  split; [exact Ha |]. split; [exact Hb |].
  split; [apply mix_nonneg; assumption |].
  rewrite Hc. revert H4. cbn [posSum fold_right]. fold (posSum s rest).
  rewrite Z.max_r by lia. intros H4.
  replace (shoeTotal s - posSum s rest)%Z
    with ((shoeTotal s - (count s r + posSum s rest)) + count s r)%Z by lia.
  rewrite <- ofZ_div_add by (pose proof (shoeTotal_pos s r Hwf Hpos); lia).
  apply Qcplus_le_compat; [exact H4 |].
  fold (weight s r). rewrite <- (Qcmult_1_r (weight s r)) at 2.
  rewrite !(Qcmult_comm (weight s r)). apply Qcmult_le_compat_r; assumption.
Qed.

Lemma subInv_final s acc : subInv s [] acc -> subDist acc.
Proof.
  intros (H1 & H2 & H3 & H4). split; [exact H1 |]. split; [exact H2 |].
  split; [exact H3 |]. revert H4. cbn [posSum fold_right]. rewrite Z.sub_0_r.
  destruct (Z.eq_dec (shoeTotal s) 0%Z) as [Hz | Hnz].
  - rewrite Hz, ofZ_0. unfold Qcdiv. rewrite Qcmult_0_l.
    intros H. eapply Qcle_trans; [exact H | discriminate].
  - rewrite ofZ_div_same by assumption. trivial.
Qed.

Lemma probsFor_sub rules fuel :
  forall cards s (memo : gmap DKey Dist),
    shoe_wf s -> (drawable s < Z.of_nat fuel)%Z ->
    map_Forall (fun _ d => subDist d) memo ->
    exists d memo',
      probsFor rules fuel cards (s, memo) = Ok (d, (s, memo'))
      /\ map_Forall (fun _ d => subDist d) memo' /\ subDist d.
Proof.
  induction fuel as [| fuel IH]; intros cards s memo Hwf Hfuel Hmemo.
  - pose proof (drawable_nonneg s). lia.
  - cbn [probsFor].
    rewrite (bind_Ok _ _ (s, memo) s (s, memo)) by reflexivity.
    rewrite (bind_Ok _ _ (s, memo) memo (s, memo)) by reflexivity.
    set (t := handTotals cards) in *.
    set (key := (best t, isSoft t, shoeKey s)).
    assert (Hset : forall d, subDist d ->
              exists d' memo', memoSet key d (s, memo) = Ok (d', (s, memo'))
                /\ map_Forall (fun _ d => subDist d) memo' /\ subDist d').
    { intros d Hd. exists d, (<[key := d]> memo). rewrite memoSet_run.
      split; [reflexivity |].
      split; [apply map_Forall_insert_2; assumption | exact Hd]. }
    match goal with
    | |- context [match ?o with Some _ => _ | None => _ end] =>
        destruct o as [d |] eqn:Hlook
    end.
    { exists d, memo. split; [reflexivity |]. split; [assumption |].
      exact (map_Forall_lookup_1 _ _ _ _ Hmemo Hlook). }
    destruct ((length cards =? 2)%nat && (best t =? 21)%Z).
    { apply Hset, subDist_point. cbn. lia. }
    destruct (Z.ltb_spec 21 (best t)) as [Hbust | Hle].
    { apply Hset, subDist_point. exact Logic.I. }
    destruct (shouldStand t rules) eqn:Hstand.
    { apply Hset, subDist_point. cbn. apply (shouldStand_range _ _ Hstand). }
    destruct (Z.eqb_spec (shoeTotal s) 0) as [Hz | Hnz].
    { apply Hset, subDist_nil. }
    destruct (drawLoop_spec (fun r => probsFor rules fuel (cards ++ [r])) mix []
                (map_Forall (fun (_ : DKey) d => subDist d)) (fun _ d => subDist d)
                (subInv s) s memo)
      as (out & memo1 & E & Hmemo1 & Hout); try assumption.
    + intros r memo0 Hpos Hmemo0.
      apply IH; try assumption.
      * apply shoe_wf_draw; assumption.
      * rewrite drawable_draw by assumption. lia.
    + apply subInv_init. assumption.
    + intros r rest acc. apply subInv_skip.
    + intros r rest acc x HR Hpos Hx. apply subInv_step; assumption.
    + rewrite (bind_Ok _ _ _ _ _ E).
      exists out, (<[key := out]> memo1). rewrite memoSet_run.
      pose proof (subInv_final s out Hout) as Hgood.
      split; [reflexivity |].
      split; [apply map_Forall_insert_2; assumption | exact Hgood].
Qed.

Lemma dealerOutcomeProbs_sub (upcard : Rank) (rules : Rules) (s : Shoe) :
  shoe_wf s ->
  exists d, dealerOutcomeProbs upcard rules s = Ok (d, s) /\ subDist d.
Proof.
  intros Hwf. unfold dealerOutcomeProbs, scoped.
  destruct (drawLoop_spec (fun r => probsFor rules (fuelFor s) [upcard; r]) mix []
              (map_Forall (fun (_ : DKey) d => subDist d)) (fun _ d => subDist d)
              (subInv s) s ∅)
    as (out & memo1 & E & _ & Hout); try assumption.
  - apply map_Forall_empty.
  - intros r memo0 Hpos Hmemo0. apply probsFor_sub; try assumption.
    + apply shoe_wf_draw; assumption.
    + rewrite drawable_draw by assumption. pose proof (fuelFor_enough s). lia.
  - apply subInv_init. assumption.
  - intros r rest acc. apply subInv_skip.
  - intros r rest acc x HR Hpos Hx. apply subInv_step; assumption.
  - rewrite E. exists out. split; [reflexivity | apply (subInv_final s); assumption].
Qed.

(** X12: on every shoe with non-negative counts, however depleted, the
    banker distribution is returned with the shoe restored; its keys are
    distinct and lie among 17..21 and bust, and none of its probabilities
    is negative. *)
Theorem dealerOutcomeProbs_keys_nonneg (upcard : Rank) (rules : Rules) (s : Shoe) :
  shoe_wf s ->
  exists d : Dist,
    dealerOutcomeProbs upcard rules s = Ok (d, s)
    /\ NoDup (akeys d) /\ Forall validOutcome (akeys d)
    /\ Forall (fun e => 0 <= snd e) d.
Proof.
  intros Hwf.
  destruct (dealerOutcomeProbs_sub upcard rules s Hwf) as (d & E & Hnd & Hkeys & Hnn & _).
  exists d. split; [exact E |]. split; [exact Hnd |]. split; [exact Hkeys | exact Hnn].
Qed.

Lemma dealerOutcomeProbs_keys_nonneg_witness :
  let s := setCount (setCount zeroShoe R2 1) R10 2 in
  shoe_wf s
  /\ exists d : Dist,
       dealerOutcomeProbs R2 DEFAULT_RULES s = Ok (d, s)
       /\ NoDup (akeys d) /\ Forall validOutcome (akeys d)
       /\ Forall (fun e => 0 <= snd e) d.
Proof.
  cbv zeta.
  assert (Hwf : shoe_wf (setCount (setCount zeroShoe R2 1) R10 2))
    by (intros r; destruct r; vm_compute; discriminate).
  split; [exact Hwf |]. exact (dealerOutcomeProbs_keys_nonneg R2 DEFAULT_RULES _ Hwf).
Defined.

(** ** The table of actions *)

(** X14: on a shoe with non-negative counts the table always starts with
    Stand and Hit; Double, Surrender, Split and Blackjack follow in this
    order, each exactly under its own test: Split whenever the hand is a
    pair (whatever the context's split permission) and Blackjack whenever
    the hand is a two-card natural (whatever the split depth). The keys are
    distinct, and Stand and Blackjack hold the values of [evStand] and
    [evInitialBlackjack] on the unchanged shoe. *)
Theorem table_keys (hand : Hand) (ctx : PlayerContext) (s : Shoe) :
  shoe_wf s ->
  exists tbl,
    actionEVsFinite hand ctx s = Ok (tbl, s)
    /\ akeys tbl
       = ["Stand"; "Hit"]%string
         ++ (if doubleCond hand ctx then ["Double"%string] else [])
         ++ (if surrenderCond hand ctx then ["Surrender"%string] else [])
         ++ (if pairCond hand then ["Split"%string] else [])
         ++ (if isBlackjack hand then ["Blackjack"%string] else [])
    /\ NoDup (akeys tbl)
    /\ alookup "Stand"%string tbl
       = Some (valueOf (evStand hand (Ctx.upcard ctx) (Ctx.rules ctx) s))
    /\ alookup "Blackjack"%string tbl
       = (if isBlackjack hand
          then Some (valueOf (evInitialBlackjack (Ctx.upcard ctx) (Ctx.rules ctx) s))
          else None).
Proof.
  intros Hwf. destruct (actionEVsFinite_table hand ctx s Hwf) as (hitEV & splitEV & E).
  eexists. split; [exact E |].
  assert (Hbj : (length hand =? 2)%nat && isBlackjack hand = isBlackjack hand).
  { unfold isBlackjack. destruct (length hand =? 2)%nat; reflexivity. }
  unfold tableOf. rewrite Hbj.
  destruct (doubleCond hand ctx), (surrenderCond hand ctx), (pairCond hand),
    (isBlackjack hand);
    (split; [reflexivity |]; split; [| split; reflexivity];
     cbn; compute_done).
Qed.

Lemma table_keys_witness :
  let hand := [R10; R6] in
  let s := initShoeMulti 1 [hand] R10 in
  shoe_wf s
  /\ exists tbl,
       actionEVsFinite hand (initialCtx DEFAULT_RULES R10 hand) s = Ok (tbl, s)
       /\ akeys tbl = ["Stand"; "Hit"; "Double"; "Surrender"]%string.
Proof.
  cbv zeta.
  assert (Hwf : shoe_wf (initShoeMulti 1 [[R10; R6]] R10))
    by (intros r; destruct r; vm_compute; discriminate).
  split; [exact Hwf |].
  destruct (table_keys [R10; R6] (initialCtx DEFAULT_RULES R10 [R10; R6]) _ Hwf)
    as (tbl & E & Hk & _).
  exists tbl. split; [exact E | exact Hk].
Defined.

(** ** Choosing the best move *)

Lemma gtBest_Some v b : gtBest v (Some b) = true <-> b < v.
Proof.
  unfold gtBest. rewrite Qclt_alt. destruct (b ?= v); split; congruence.
Qed.

Lemma bestMove_fold (l : Table) :
  forall (m : string) (b : Qc),
    let r := fold_left
               (fun acc e => if gtBest (snd e) (ev acc)
                             then {| move := fst e; ev := Some (snd e) |} else acc)
               l {| move := m; ev := Some b |} in
    exists v, ev r = Some v /\ b <= v
              /\ ((move r = m /\ v = b) \/ In (move r, v) l)
              /\ Forall (fun e => snd e <= v) l.
Proof.
  induction l as [| [k x] rest IH]; intros m b; cbn [fold_left fst snd ev].
  - exists b. split; [reflexivity |]. split; [apply Qcle_refl |].
    split; [left; auto | constructor].
  - destruct (gtBest x (Some b)) eqn:Hgt.
    + apply gtBest_Some in Hgt.
      destruct (IH k x) as (v & Hev & Hle & Hin & Hall).
      exists v. split; [exact Hev |].
      split; [eapply Qcle_trans; [apply Qclt_le_weak; exact Hgt | exact Hle] |].
      split.
      * right. destruct Hin as [[-> ->] | Hin]; [left; reflexivity | right; exact Hin].
      * constructor; [exact Hle | exact Hall].
    + assert (Hxb : x <= b).
      { apply Qcnot_lt_le. intros Hlt. apply gtBest_Some in Hlt. congruence. }
      destruct (IH m b) as (v & Hev & Hle & Hin & Hall).
      exists v. split; [exact Hev |]. split; [exact Hle |].
      split.
      * destruct Hin as [Hsame | Hin]; [left; exact Hsame | right; right; exact Hin].
      * constructor; [eapply Qcle_trans; eassumption | exact Hall].
Qed.

Lemma bestMoveFrom_max (tbl : Table) :
  (tbl = [] -> bestMoveFrom tbl = {| move := "Stand"%string; ev := None |})
  /\ (tbl <> [] ->
      exists v, ev (bestMoveFrom tbl) = Some v
                /\ In (move (bestMoveFrom tbl), v) tbl
                /\ Forall (fun e => snd e <= v) tbl).
Proof.
  split; [intros ->; reflexivity |].
  destruct tbl as [| [k x] rest]; [congruence | intros _].
  unfold bestMoveFrom. cbn [fold_left gtBest ev fst snd].
  destruct (bestMove_fold rest k x) as (v & Hev & Hle & Hin & Hall).
  exists v. split; [exact Hev |]. split.
  - destruct Hin as [[-> ->] | Hin]; [left; reflexivity | right; exact Hin].
  - constructor; [exact Hle | exact Hall].
Qed.

(** X15: [bestMoveFrom] returns the default move "Stand" with no finite
    EV on an empty table; on any other table it returns an entry of the
    table whose EV is at least that of every entry. *)
Theorem bestMoveFrom_spec (tbl : Table) :
  (tbl = [] -> bestMoveFrom tbl = {| move := "Stand"%string; ev := None |})
  /\ (tbl <> [] ->
      exists v, ev (bestMoveFrom tbl) = Some v
                /\ In (move (bestMoveFrom tbl), v) tbl
                /\ Forall (fun e => snd e <= v) tbl).
Proof. exact (bestMoveFrom_max tbl). Qed.

Lemma bestMoveFrom_spec_witness :
  let tbl : Table := [("Stand"%string, Q2Qc (-1 # 2)); ("Hit"%string, Q2Qc (1 # 4))] in
  tbl <> []
  /\ exists v, ev (bestMoveFrom tbl) = Some v
               /\ In (move (bestMoveFrom tbl), v) tbl
               /\ Forall (fun e => snd e <= v) tbl.
Proof.
  cbv zeta. split; [discriminate |].
  apply (proj2 (bestMoveFrom_spec _)). discriminate.
Defined.

(** ** Several hands on one shoe *)

Lemma evalHand_run rules dealerUp hand s :
  shoe_wf s ->
  exists tbl,
    actionEVsFinite hand (initialCtx rules dealerUp hand) s = Ok (tbl, s)
    /\ evalHand rules dealerUp hand s
       = Ok ({| evs := tbl; bestOf := bestMoveFrom tbl; totals := handTotals hand;
                ctxOf := initialCtx rules dealerUp hand |}, s).
Proof.
  intros Hwf.
  destruct (actionEVsFinite_table hand (initialCtx rules dealerUp hand) s Hwf)
    as (hitEV & splitEV & E).
  eexists. split; [exact E |]. unfold evalHand. rewrite (bind_Ok _ _ _ _ _ E). reflexivity.
Qed.

Lemma perHandFrom_spec rules dealerUp hands s :
  shoe_wf s ->
  exists infos,
    perHandFrom rules dealerUp hands s = Ok (infos, s)
    /\ Forall2 (fun hand info =>
                  actionEVsFinite hand (initialCtx rules dealerUp hand) s
                  = Ok (evs info, s)
                  /\ bestOf info = bestMoveFrom (evs info)
                  /\ totals info = handTotals hand
                  /\ ctxOf info = initialCtx rules dealerUp hand)
               hands infos.
Proof.
  intros Hwf. induction hands as [| hand rest IH]; cbn [perHandFrom].
  - exists []. split; [reflexivity | constructor].
  - destruct (evalHand_run rules dealerUp hand s Hwf) as (tbl & Etbl & Eev).
    destruct IH as (infos & Erest & Hall).
    rewrite (bind_Ok _ _ _ _ _ Eev). rewrite (bind_Ok _ _ _ _ _ Erest).
    eexists. split; [reflexivity |]. constructor; [| exact Hall].
    cbn. auto.
Qed.

Lemma table_nonempty_best hand ctx s tbl :
  actionEVsFinite hand ctx s = Ok (tbl, s) -> shoe_wf s ->
  exists v, ev (bestMoveFrom tbl) = Some v.
Proof.
  intros E Hwf.
  destruct (actionEVsFinite_table hand ctx s Hwf) as (hitEV & splitEV & E').
  rewrite E in E'. injection E' as ->.
  destruct (proj2 (bestMoveFrom_max (tableOf hand ctx s hitEV splitEV))) as (v & Hv & _).
  - discriminate.
  - exists v. exact Hv.
Qed.

Lemma totalEV_finite (infos : list HandInfo) :
  Forall (fun info => exists v, ev (bestOf info) = Some v) infos ->
  forall acc, exists total,
    fold_left (fun s h => addEV s (ev (bestOf h))) infos (Some acc) = Some total.
Proof.
  induction 1 as [| info rest (v & Hv) _ IH]; intros acc; cbn [fold_left].
  - exists acc. reflexivity.
  - rewrite Hv. cbn [addEV]. apply IH.
Qed.

(** X16: the application evaluates every hand against the same shoe: for a
    non-negative deck count, [perHand] returns one record per hand, each
    holding the table that hand gets when it is evaluated alone on the base
    shoe, and leaves the base shoe as it was; the sum of the best EVs is a
    finite number. *)
Theorem perHand_independent (rules : Rules) (dealerUp : Rank) (hands : list Hand) :
  (0 <= decks rules)%Z ->
  let base := initShoeMulti (decks rules) hands dealerUp in
  exists infos,
    perHand rules dealerUp hands = Ok (infos, base)
    /\ Forall2 (fun hand info =>
                  actionEVsFinite hand (initialCtx rules dealerUp hand) base
                  = Ok (evs info, base)
                  /\ bestOf info = bestMoveFrom (evs info)
                  /\ totals info = handTotals hand
                  /\ ctxOf info = initialCtx rules dealerUp hand)
               hands infos
    /\ exists total, totalEV infos = Some total.
Proof.
  intros Hdecks base.
  assert (Hwf : shoe_wf base) by (apply initShoeMulti_wf; assumption).
  destruct (perHandFrom_spec rules dealerUp hands base Hwf) as (infos & E & Hall).
  exists infos. split; [exact E |]. split; [exact Hall |].
  apply totalEV_finite.
  clear E. clearbody base.
  induction Hall as [| hand info hs infos' (Etbl & Hbest & _) _ IH]; constructor.
  - rewrite Hbest. apply (table_nonempty_best _ _ _ _ Etbl Hwf).
  - exact IH.
Qed.

Lemma perHand_independent_witness :
  let hands := [[R10; R10; R5]; [R9; R9; R9]] in
  (0 <= decks DEFAULT_RULES)%Z
  /\ exists infos, perHand DEFAULT_RULES R6 hands
                   = Ok (infos, initShoeMulti 6 hands R6)
                   /\ length infos = 2%nat.
Proof.
  cbv zeta.
  destruct (perHand_independent DEFAULT_RULES R6 [[R10; R10; R5]; [R9; R9; R9]])
    as (infos & E & Hall & _); [cbn; lia |].
  split; [cbn; lia |]. exists infos. split; [exact E |].
  apply Forall2_length in Hall. symmetry. exact Hall.
Defined.

(** ** Frame and early exits *)

(** X17: the banker distribution, the stand EV, the natural payout and the
    best-action recursion give the shoe back whenever they return, on every
    shoe and from every memo or cache state. *)
Theorem evaluators_restore_shoe (upcard : Rank) (rules : Rules) (player : Hand)
    (ctx : PlayerContext) (fuel : nat) (s : Shoe) :
  (forall d s', dealerOutcomeProbs upcard rules s = Ok (d, s') -> s' = s)
  /\ (forall v s', evStand player upcard rules s = Ok (v, s') -> s' = s)
  /\ (forall v s', evInitialBlackjack upcard rules s = Ok (v, s') -> s' = s)
  /\ (forall memo d s' memo',
        probsFor rules fuel player (s, memo) = Ok (d, (s', memo')) -> s' = s)
  /\ (forall cache v s' cache',
        bestActionEV fuel player ctx (s, cache) = Ok (v, (s', cache')) -> s' = s).
Proof.
  split; [intros d s'; apply restoresShoe_dealerOutcomeProbs |].
  split; [intros v s'; apply restoresShoe_evStand |].
  split; [intros v s'; apply restoresShoe_evInitialBlackjack |].
  split.
  - intros memo d s' memo'. apply restores_probsFor.
  - intros cache v s' cache'. apply restores_bestActionEV.
Qed.

Lemma evaluators_restore_shoe_witness :
  let s := setCount zeroShoe R10 3 in
  exists v s', evStand [R10; R7] R10 DEFAULT_RULES s = Ok (v, s') /\ s' = s.
Proof.
  cbv zeta.
  assert (Hwf : shoe_wf (setCount zeroShoe R10 3))
    by (intros r; destruct r; vm_compute; discriminate).
  destruct (evStand_ok [R10; R7] R10 DEFAULT_RULES _ Hwf) as (v & E).
  exists v, (setCount zeroShoe R10 3). split; [exact E |].
  exact (proj1 (proj2 (evaluators_restore_shoe R10 DEFAULT_RULES [R10; R7]
                         (initialCtx DEFAULT_RULES R10 [R10; R7]) 0 _)) v _ E).
Defined.

Lemma bestActionEV_exits (fuel : nat) (hand : Hand) (ctx : PlayerContext)
    (s : Shoe) (cache : gmap CKey Qc) :
  let key := cacheKey hand ctx s in
  (forall v, cache !! key = Some v ->
     bestActionEV (S fuel) hand ctx (s, cache) = Ok (v, (s, cache)))
  /\ (cache !! key = None -> isBust hand = true ->
      bestActionEV (S fuel) hand ctx (s, cache)
      = Ok (-(1), (s, <[key := -(1)]> cache)))
  /\ (cache !! key = None -> shoe_wf s ->
      (length hand =? 2)%nat && (Ctx.splitDepth ctx =? 0)%Z && isBlackjack hand = true ->
      bestActionEV (S fuel) hand ctx (s, cache)
      = Ok (valueOf (evInitialBlackjack (Ctx.upcard ctx) (Ctx.rules ctx) s),
            (s, <[key := valueOf (evInitialBlackjack (Ctx.upcard ctx) (Ctx.rules ctx) s)]>
                  cache))).
Proof.
  intros key. split; [| split].
  - intros v Hhit. cbn [bestActionEV].
    rewrite (bind_Ok _ _ (s, cache) s (s, cache)) by reflexivity.
    rewrite (bind_Ok _ _ (s, cache) cache (s, cache)) by reflexivity.
    fold key. rewrite Hhit. reflexivity.
  - intros Hmiss Hbust. cbn [bestActionEV].
    rewrite (bind_Ok _ _ (s, cache) s (s, cache)) by reflexivity.
    rewrite (bind_Ok _ _ (s, cache) cache (s, cache)) by reflexivity.
    fold key. rewrite Hmiss, Hbust. reflexivity.
  - intros Hmiss Hwf Hnat. apply bestActionEV_natural; try assumption.
    apply andb_true_iff in Hnat as [Hnat Hbj].
    apply andb_true_iff in Hnat as [Hlen _].
    apply short_hand_not_bust. apply Nat.eqb_eq in Hlen. lia.
Qed.

(** X18: the early exits of [bestActionEV]: a cached key is answered from
    the cache with nothing changed; a busted hand that is not cached gets
    -1, stored under its key, without any draw; an initial two-card natural
    that is not cached gets the value of [evInitialBlackjack], stored under
    its key. *)
Theorem bestActionEV_early_exits (fuel : nat) (hand : Hand) (ctx : PlayerContext)
    (s : Shoe) (cache : gmap CKey Qc) :
  let key := cacheKey hand ctx s in
  (forall v, cache !! key = Some v ->
     bestActionEV (S fuel) hand ctx (s, cache) = Ok (v, (s, cache)))
  /\ (cache !! key = None -> isBust hand = true ->
      bestActionEV (S fuel) hand ctx (s, cache)
      = Ok (-(1), (s, <[key := -(1)]> cache)))
  /\ (cache !! key = None -> shoe_wf s ->
      (length hand =? 2)%nat && (Ctx.splitDepth ctx =? 0)%Z && isBlackjack hand = true ->
      bestActionEV (S fuel) hand ctx (s, cache)
      = Ok (valueOf (evInitialBlackjack (Ctx.upcard ctx) (Ctx.rules ctx) s),
            (s, <[key := valueOf (evInitialBlackjack (Ctx.upcard ctx) (Ctx.rules ctx) s)]>
                  cache))).
Proof. exact (bestActionEV_exits fuel hand ctx s cache). Qed.

Lemma bestActionEV_early_exits_witness :
  let hand := [R10; R10; R5] in
  let ctx := initialCtx DEFAULT_RULES R6 hand in
  let s := makeFullShoe 1 in
  bestActionEV 1 hand ctx (s, ∅) = Ok (-(1), (s, <[cacheKey hand ctx s := -(1)]> ∅)).
Proof.
  cbv zeta.
  apply (proj1 (proj2 (bestActionEV_early_exits 0 [R10; R10; R5]
                         (initialCtx DEFAULT_RULES R6 [R10; R10; R5]) (makeFullShoe 1) ∅)));
    [apply lookup_empty | reflexivity].
Defined.

(** ** The best action is never worse than standing *)

Lemma Qcmax_ge_l a b : a <= Qcmax a b.
Proof.
  unfold Qcmax. destruct (a ?= b) eqn:E; try apply Qcle_refl.
  apply Qclt_le_weak. apply Qclt_alt. exact E.
Qed.

Lemma maxOpt_ge a o : a <= maxOpt a o.
Proof. destruct o; [apply Qcmax_ge_l | apply Qcle_refl]. Qed.

Lemma bestActionEV_miss_value (fuel : nat) (hand : Hand) (ctx : PlayerContext)
    (s : Shoe) (cache : gmap CKey Qc) :
  shoe_wf s -> (drawable s < Z.of_nat (S fuel))%Z ->
  cache !! cacheKey hand ctx s = None ->
  isBust hand = false ->
  (length hand =? 2)%nat && (Ctx.splitDepth ctx =? 0)%Z && isBlackjack hand = false ->
  exists hitEV doubleEV splitEV cache',
    let standEV := valueOf (evStand hand (Ctx.upcard ctx) (Ctx.rules ctx) s) in
    let surrenderEV := if surrenderCond hand ctx then Some (Q2Qc (-1 # 2)) else None in
    let bestEV :=
      maxOpt (maxOpt (maxOpt (Qcmax standEV hitEV) doubleEV) surrenderEV) splitEV in
    bestActionEV (S fuel) hand ctx (s, cache)
    = Ok (bestEV, (s, <[cacheKey hand ctx s := bestEV]> cache')).
Proof.
  intros Hwf Hfuel Hmiss Hbust Hnat. cbn [bestActionEV].
  rewrite (bind_Ok _ _ (s, cache) s (s, cache)) by reflexivity.
  rewrite (bind_Ok _ _ (s, cache) cache (s, cache)) by reflexivity.
  rewrite Hmiss, Hbust, Hnat.
  erewrite bind_Ok by (apply standOn_run; assumption).
  assert (Hn : (drawable s <= Z.of_nat fuel)%Z) by lia.
  destruct (hitBlock_ok (bestActionEV fuel) (Z.of_nat fuel) (bestActionEV_ok fuel)
              hand ctx s cache Hwf Hn) as (hitEV & cache1 & Ehit).
  rewrite (bind_Ok _ _ _ _ _ Ehit).
  assert (Hdouble : exists doubleEV,
            (if doubleCond hand ctx
             then v ← doubleBlock hand ctx; mret (Some v)
             else mret None) (s, cache1) = Ok (doubleEV, (s, cache1))).
  { destruct (doubleCond hand ctx); [| eexists; reflexivity].
    erewrite bind_Ok by (apply doubleBlock_run; assumption). eexists; reflexivity. }
  destruct Hdouble as (doubleEV & Edouble). rewrite (bind_Ok _ _ _ _ _ Edouble).
  assert (Hsplit : exists splitEV cache2,
            (match hand with
             | [h0; h1] =>
                 if Ctx.canSplit ctx && pairCond hand
                 then v ← splitBlock (bestActionEV fuel) ctx h0 h1; mret (Some v)
                 else mret None
             | _ => mret None
             end) (s, cache1) = Ok (splitEV, (s, cache2))).
  { destruct hand as [| h0 [| h1 [| h2 rest]]]; try (eexists _, _; reflexivity).
    destruct (Ctx.canSplit ctx && pairCond [h0; h1]); [| eexists _, _; reflexivity].
    destruct (splitBlock_ok (bestActionEV fuel) (Z.of_nat fuel) (bestActionEV_ok fuel)
                ctx h0 h1 s cache1 Hwf Hn) as (v & cache2 & Esplit).
    rewrite (bind_Ok _ _ _ _ _ Esplit). eexists _, _; reflexivity. }
  destruct Hsplit as (splitEV & cache2 & Esplit). rewrite (bind_Ok _ _ _ _ _ Esplit).
  exists hitEV, doubleEV, splitEV, cache2. reflexivity.
Qed.

(** X19: started on a key that is not cached, on a shoe with non-negative
    counts, [bestActionEV] returns a value, stores it under the key, and,
    unless the hand takes the natural bypass, the value is at least the
    stand EV of the hand. *)
Theorem bestActionEV_at_least_stand (hand : Hand) (ctx : PlayerContext) (s : Shoe)
    (cache : gmap CKey Qc) :
  shoe_wf s ->
  cache !! cacheKey hand ctx s = None ->
  exists v cache',
    bestActionEV (fuelFor s) hand ctx (s, cache) = Ok (v, (s, cache'))
    /\ cache' !! cacheKey hand ctx s = Some v
    /\ ((length hand =? 2)%nat && (Ctx.splitDepth ctx =? 0)%Z && isBlackjack hand = false ->
        valueOf (evStand hand (Ctx.upcard ctx) (Ctx.rules ctx) s) <= v).
Proof.
  intros Hwf Hmiss. unfold fuelFor.
  destruct (isBust hand) eqn:Hbust.
  - destruct (bestActionEV_exits (Z.to_nat (drawable s)) hand ctx s cache)
      as (_ & Hb & _).
    eexists _, _. split; [apply Hb; assumption |].
    split; [apply lookup_insert_eq |].
    intros _. rewrite (evStand_bust _ _ _ _ Hbust). apply Qcle_refl.
  - destruct ((length hand =? 2)%nat && (Ctx.splitDepth ctx =? 0)%Z && isBlackjack hand)
      eqn:Hnat.
    + eexists _, _. split; [apply bestActionEV_natural; assumption |].
      split; [apply lookup_insert_eq | discriminate].
    + destruct (bestActionEV_miss_value (Z.to_nat (drawable s)) hand ctx s cache Hwf
                  (fuelFor_enough s) Hmiss Hbust Hnat)
        as (hitEV & doubleEV & splitEV & cache' & E).
      cbv zeta in E. eexists _, _. split; [exact E |].
      split; [apply lookup_insert_eq |].
      assert (Hge : valueOf (evStand hand (Ctx.upcard ctx) (Ctx.rules ctx) s)
                    <= maxOpt (maxOpt (maxOpt
                         (Qcmax (valueOf (evStand hand (Ctx.upcard ctx) (Ctx.rules ctx) s))
                                hitEV) doubleEV)
                         (if surrenderCond hand ctx then Some (Q2Qc (-1 # 2)) else None))
                         splitEV).
      { eapply Qcle_trans; [| apply maxOpt_ge].
        eapply Qcle_trans; [| apply maxOpt_ge].
        eapply Qcle_trans; [| apply maxOpt_ge]. apply Qcmax_ge_l. }
      intros _. exact Hge.
Qed.

Lemma bestActionEV_at_least_stand_witness :
  let hand := [R10; R6] in
  let ctx := initialCtx DEFAULT_RULES R10 hand in
  let s := setCount (setCount zeroShoe R5 1) R10 2 in
  shoe_wf s
  /\ exists v cache',
       bestActionEV (fuelFor s) hand ctx (s, ∅) = Ok (v, (s, cache'))
       /\ valueOf (evStand hand R10 DEFAULT_RULES s) <= v.
Proof.
  cbv zeta.
  assert (Hwf : shoe_wf (setCount (setCount zeroShoe R5 1) R10 2))
    by (intros r; destruct r; vm_compute; discriminate).
  split; [exact Hwf |].
  destruct (bestActionEV_at_least_stand [R10; R6] (initialCtx DEFAULT_RULES R10 [R10; R6])
              _ ∅ Hwf (lookup_empty _)) as (v & cache' & E & _ & Hst).
  exists v, cache'. split; [exact E | apply Hst; reflexivity].
Defined.

(** ** The hand part of the cache key *)

Lemma length_filter_perm (P : Rank -> Prop) `{forall x, Decision (P x)} (l l' : list Rank) :
  Permutation l l' -> length (filter P l) = length (filter P l').
Proof.
  induction 1 as [| x l l' _ IH | x y l | l l' l'' _ IH1 _ IH2].
  - reflexivity.
  - rewrite !filter_cons. destruct (decide (P x)); cbn [length]; congruence.
  - rewrite !filter_cons. destruct (decide (P x)), (decide (P y)); reflexivity.
  - congruence.
Qed.

Lemma length_filter_count (l : list Rank) (r : Rank) :
  length (filter (fun x => x = r) l) = count_occ Rank_eq_dec l r.
Proof.
  induction l as [| x rest IH]; [reflexivity |].
  rewrite filter_cons. cbn [count_occ].
  destruct (decide (x = r)) as [-> | Hne].
  - destruct (Rank_eq_dec r r); [| contradiction]. cbn [length]. congruence.
  - destruct (Rank_eq_dec x r); [contradiction | exact IH].
Qed.

Lemma handKey_elem (hand : Hand) (r : Rank) (c : nat) :
  In (r, c) (handKey hand)
  <-> In r handKeyOrder /\ c <> O
      /\ c = length (filter (fun x => x = r) (map normalizeRank hand)).
Proof.
  unfold handKey. rewrite <- list_elem_of_In, list_elem_of_filter, list_elem_of_In.
  rewrite in_map_iff. cbn [snd]. rewrite bool_decide_spec. split.
  - intros (Hc & r' & [= <- <-] & Hin). auto.
  - intros (Hin & Hc & ->). split; [exact Hc |]. exists r. auto.
Qed.

Lemma normalized_count_faces (hand : Hand) (r : Rank) :
  ~ In r handKeyOrder ->
  length (filter (fun x => x = r) (map normalizeRank hand)) = O.
Proof.
  intros Hr. induction hand as [| x rest IH]; [reflexivity |].
  cbn [map]. rewrite filter_cons. destruct (decide (normalizeRank x = r)) as [<- | _].
  - exfalso. apply Hr. destruct x; cbn; tauto.
  - exact IH.
Qed.

Lemma handKey_Permutation (hand hand' : Hand) :
  handKey hand = handKey hand'
  <-> Permutation (map normalizeRank hand) (map normalizeRank hand').
Proof.
  split.
  - intros Hkey. apply (Permutation_count_occ Rank_eq_dec). intros r.
    rewrite <- !length_filter_count.
    destruct (in_dec Rank_eq_dec r handKeyOrder) as [Hin | Hout].
    + set (c := length (filter (fun x => x = r) (map normalizeRank hand))).
      set (c' := length (filter (fun x => x = r) (map normalizeRank hand'))).
      destruct (Nat.eq_dec c O) as [Hc | Hc]; destruct (Nat.eq_dec c' O) as [Hc' | Hc'].
      * congruence.
      * assert (Hm : In (r, c') (handKey hand')) by (apply handKey_elem; auto).
        rewrite <- Hkey in Hm. apply handKey_elem in Hm as (_ & _ & Hm). exact (eq_sym Hm).
      * assert (Hm : In (r, c) (handKey hand)) by (apply handKey_elem; auto).
        rewrite Hkey in Hm. apply handKey_elem in Hm as (_ & _ & Hm). exact Hm.
      * assert (Hm : In (r, c) (handKey hand)) by (apply handKey_elem; auto).
        rewrite Hkey in Hm. apply handKey_elem in Hm as (_ & _ & Hm). exact Hm.
    + rewrite !normalized_count_faces by assumption. reflexivity.
  - intros Hp. unfold handKey. f_equal. apply map_ext. intros r. f_equal.
    apply length_filter_perm. exact Hp.
Qed.

(** X20: two hands get the same hand key exactly when their normalized
    cards are the same up to order: the key forgets the order of the cards
    and the difference between ten, jack, queen and king, and nothing
    else. *)
Theorem handKey_iff (hand hand' : Hand) :
  handKey hand = handKey hand'
  <-> Permutation (map normalizeRank hand) (map normalizeRank hand').
Proof. exact (handKey_Permutation hand hand'). Qed.

Lemma handKey_iff_witness :
  handKey [King; Ace; R10] = handKey [R10; Jack; Ace]
  /\ Permutation (map normalizeRank [King; Ace; R10]) (map normalizeRank [R10; Jack; Ace]).
Proof.
  split; [reflexivity |]. apply (proj1 (handKey_iff _ _)). reflexivity.
Defined.

(** ** The memo of the banker recursion does not change its result *)

Lemma includesAce_app cards r :
  includesAce (cards ++ [r]) = includesAce cards || bool_decide (r = Ace).
Proof.
  unfold includesAce. rewrite existsb_app. cbn. rewrite orb_false_r. reflexivity.
Qed.

Lemma isSoft_true_iff cards :
  isSoft (handTotals cards) = true
  <-> includesAce cards = true /\ (hard (handTotals cards) + 10 <= 21)%Z.
Proof. exact (proj1 (handTotals_soft cards)). Qed.

Lemma best_of_hard cards :
  best (handTotals cards)
  = (if isSoft (handTotals cards) then hard (handTotals cards) + 10
     else hard (handTotals cards))%Z.
Proof. exact (proj1 (proj2 (handTotals_soft cards))). Qed.

Lemma bool_eq_iff (a b : bool) : (a = true <-> b = true) -> a = b.
Proof. destruct a, b; intros [H1 H2]; auto; symmetry; auto. Qed.

Lemma sameFuture_totals cards cards' :
  sameFuture cards cards' ->
  best (handTotals cards) = best (handTotals cards')
  /\ isSoft (handTotals cards) = isSoft (handTotals cards').
Proof.
  intros (Hh & Hs & _). split; [| exact Hs].
  rewrite !best_of_hard, Hh, Hs. reflexivity.
Qed.

Lemma sameFuture_app cards cards' r :
  sameFuture cards cards' -> sameFuture (cards ++ [r]) (cards' ++ [r]).
Proof.
  intros (Hh & Hs & Ha).
  assert (Hh' : hard (handTotals (cards ++ [r])) = hard (handTotals (cards' ++ [r])))
    by (rewrite !hard_app, Hh; reflexivity).
  pose proof (hardValue_pos r) as Hr.
  split; [exact Hh' |]. destruct Ha as [Ha | H12].
  - split; [| left; rewrite !includesAce_app, Ha; reflexivity].
    apply bool_eq_iff. rewrite !isSoft_true_iff, !includesAce_app, Ha, Hh'. tauto.
  - split; [| right; rewrite hard_app; lia].
    apply bool_eq_iff. rewrite !isSoft_true_iff, <- Hh', hard_app. split; intros [_ ?]; lia.
Qed.

Lemma sameFuture_of_key cards cards' :
  best (handTotals cards) = best (handTotals cards') ->
  isSoft (handTotals cards) = isSoft (handTotals cards') ->
  sameFuture cards cards'.
Proof.
  intros Hb Hs.
  assert (Hh : hard (handTotals cards) = hard (handTotals cards')).
  { rewrite !best_of_hard, Hs in Hb. destruct (isSoft (handTotals cards')); lia. }
  split; [exact Hh |]. split; [exact Hs |].
  destruct (includesAce cards) eqn:Ha, (includesAce cards') eqn:Ha'; auto; right.
  - destruct (isSoft (handTotals cards)) eqn:Hsoft.
    + symmetry in Hs. apply isSoft_true_iff in Hs as [Hc _]. congruence.
    + destruct (Z.le_gt_cases (hard (handTotals cards) + 10) 21) as [Hle | Hgt]; [| lia].
      assert (isSoft (handTotals cards) = true) by (apply isSoft_true_iff; auto).
      congruence.
  - destruct (isSoft (handTotals cards')) eqn:Hsoft.
    + apply isSoft_true_iff in Hs as [Hc _]. congruence.
    + destruct (Z.le_gt_cases (hard (handTotals cards') + 10) 21) as [Hle | Hgt]; [| lia].
      assert (isSoft (handTotals cards') = true) by (apply isSoft_true_iff; auto).
      congruence.
Qed.

Lemma foldRes_ext {Acc} (step step' : Rank -> Acc -> res Acc) l :
  (forall r acc, In r l -> step r acc = step' r acc) ->
  forall acc, foldRes step l acc = foldRes step' l acc.
Proof.
  induction l as [| r rest IH]; intros Hext acc; cbn [foldRes]; [reflexivity |].
  rewrite Hext by (left; reflexivity).
  destruct (step' r acc); try reflexivity.
  apply IH. intros r' acc' Hin. apply Hext. right. exact Hin.
Qed.

Lemma pureLoop_ext {X Acc} shoe (child child' : Rank -> res X)
    (upd : Acc -> Qc -> X -> Acc) init :
  (forall r, (0 < count shoe r)%Z -> child r = child' r) ->
  pureLoop shoe child upd init = pureLoop shoe child' upd init.
Proof.
  intros Hext. unfold pureLoop. apply foldRes_ext. intros r acc _. unfold pureStep.
  destruct (Z.leb_spec (count shoe r) 0); [reflexivity |].
  rewrite Hext by assumption. reflexivity.
Qed.

Lemma stand_on_21 t rules : best t = 21%Z -> shouldStand t rules = true.
Proof. intros H. unfold shouldStand. rewrite H. cbn. destruct (isSoft t); reflexivity. Qed.

Lemma probsPure_sameFuture rules fuel :
  forall cards cards' s,
    sameFuture cards cards' -> probsPure rules fuel cards s = probsPure rules fuel cards' s.
Proof.
  induction fuel as [| fuel IH]; intros cards cards' s Hsame; cbn [probsPure];
    [reflexivity |].
  destruct (sameFuture_totals _ _ Hsame) as [Hb Hs].
  assert (Ht : shouldStand (handTotals cards) rules = shouldStand (handTotals cards') rules)
    by (unfold shouldStand; rewrite Hb, Hs; reflexivity).
  rewrite <- Hb, <- Ht.
  destruct (Z.eqb_spec (best (handTotals cards)) 21) as [H21 | Hn21].
  - rewrite (stand_on_21 _ rules H21), H21.
    change (21 =? 21)%Z with true. change (21 <? 21)%Z with false.
    destruct (length cards =? 2)%nat, (length cards' =? 2)%nat; reflexivity.
  - rewrite !andb_false_r.
    destruct (21 <? best (handTotals cards))%Z; [reflexivity |].
    destruct (shouldStand (handTotals cards) rules); [reflexivity |].
    destruct (shoeTotal s =? 0)%Z; [reflexivity |].
    apply pureLoop_ext. intros r _. apply IH, sameFuture_app, Hsame.
Qed.

Lemma probsPure_fuel rules fuel :
  forall fuel' cards s,
    (drawable s < Z.of_nat fuel)%Z -> (drawable s < Z.of_nat fuel')%Z ->
    probsPure rules fuel cards s = probsPure rules fuel' cards s.
Proof.
  induction fuel as [| fuel IH]; intros fuel' cards s Hf Hf'.
  - pose proof (drawable_nonneg s). lia.
  - destruct fuel' as [| fuel']; [pose proof (drawable_nonneg s); lia |].
    cbn [probsPure].
    destruct (_ && _); [reflexivity |].
    destruct (21 <? best (handTotals cards))%Z; [reflexivity |].
    destruct (shouldStand (handTotals cards) rules); [reflexivity |].
    destruct (shoeTotal s =? 0)%Z; [reflexivity |].
    apply pureLoop_ext. intros r Hpos.
    apply IH; rewrite drawable_draw by assumption; lia.
Qed.

(** The mutating loop computes what the loop on shoe copies computes. *)
Lemma drawLoop_pure {T X Acc} (child : Rank -> M (Shoe * T) X) (pchild : Rank -> res X)
    (upd : Acc -> Qc -> X -> Acc) (init : Acc) (I : T -> Prop) s t :
  shoe_wf s -> I t ->
  (forall r t0, (0 < count s r)%Z -> I t0 ->
     exists x t1, child r (draw s r, t0) = Ok (x, (draw s r, t1)) /\ I t1
                  /\ pchild r = Ok x) ->
  exists acc t',
    drawLoop child upd init (s, t) = Ok (acc, (s, t')) /\ I t'
    /\ pureLoop s pchild upd init = Ok acc.
Proof.
  intros Hwf HI Hchild.
  destruct (drawLoop_spec child upd init I (fun r x => pchild r = Ok x)
              (fun rest acc =>
                 foldRes (pureStep s (shoeTotal s) pchild upd) rest acc
                 = pureLoop s pchild upd init) s t)
    as (acc & t' & E & HI' & HR); try assumption.
  - reflexivity.
  - intros r rest acc HR Hle. rewrite <- HR. cbn [foldRes]. unfold pureStep at 2.
    destruct (Z.leb_spec (count s r) 0); [reflexivity | lia].
  - intros r rest acc x HR Hpos Hx. rewrite <- HR. cbn [foldRes]. unfold pureStep at 2.
    destruct (Z.leb_spec (count s r) 0); [lia |].
    destruct (Z.eqb_spec (shoeTotal s) 0) as [Hz | _].
    + pose proof (shoeTotal_pos s r Hwf Hpos). lia.
    + rewrite Hx. reflexivity.
  - exists acc, t'. split; [exact E |]. split; [exact HI' |]. rewrite <- HR. reflexivity.
Qed.

Lemma memoSound_insert (rules : Rules) (memo : gmap DKey Dist) (cards : Hand)
    (s : Shoe) (fuel : nat) (d : Dist) :
  memoSound rules memo ->
  (drawable s < Z.of_nat fuel)%Z ->
  probsPure rules fuel cards s = Ok d ->
  memoSound rules
    (<[((best (handTotals cards), isSoft (handTotals cards), shoeKey s) : DKey) := d]> memo).
Proof.
  intros Hmemo Hfuel Hpure b sf sk d' Hlook cards' s' fuel' Hb Hs Hk Hf'.
  destruct (decide ((best (handTotals cards), isSoft (handTotals cards), shoeKey s)
                    = (b, sf, sk))) as [Heq | Hne].
  - rewrite Heq, lookup_insert_eq in Hlook. injection Hlook as <-.
    injection Heq as <- <- <-.
    apply shoeKey_eq in Hk. subst s'.
    rewrite (probsPure_sameFuture rules fuel' cards' cards s)
      by (apply sameFuture_of_key; assumption).
    rewrite (probsPure_fuel rules fuel' fuel cards s) by assumption. exact Hpure.
  - rewrite lookup_insert_ne in Hlook by assumption.
    exact (Hmemo b sf sk d' Hlook cards' s' fuel' Hb Hs Hk Hf').
Qed.

Lemma probsFor_pure rules fuel :
  forall cards s (memo : gmap DKey Dist),
    shoe_wf s -> (drawable s < Z.of_nat fuel)%Z -> memoSound rules memo ->
    exists d memo',
      probsFor rules fuel cards (s, memo) = Ok (d, (s, memo'))
      /\ memoSound rules memo' /\ probsPure rules fuel cards s = Ok d.
Proof.
  induction fuel as [| fuel IH]; intros cards s memo Hwf Hfuel Hmemo.
  - pose proof (drawable_nonneg s). lia.
  - assert (Hset : forall d, probsPure rules (S fuel) cards s = Ok d ->
              forall memo0, memoSound rules memo0 ->
              exists d' memo',
                memoSet (best (handTotals cards), isSoft (handTotals cards), shoeKey s) d
                  (s, memo0) = Ok (d', (s, memo'))
                /\ memoSound rules memo' /\ probsPure rules (S fuel) cards s = Ok d').
    { intros d Hd memo0 Hmemo0. eexists _, _. rewrite memoSet_run.
      split; [reflexivity |]. split; [| exact Hd].
      apply (memoSound_insert rules memo0 cards s (S fuel) d); assumption. }
    revert Hset. cbn [probsFor probsPure]. intros Hset.
    rewrite (bind_Ok _ _ (s, memo) s (s, memo)) by reflexivity.
    rewrite (bind_Ok _ _ (s, memo) memo (s, memo)) by reflexivity.
    match goal with
    | |- context [match ?o with Some _ => _ | None => _ end] =>
        destruct o as [d |] eqn:Hlook
    end.
    { exists d, memo. split; [reflexivity |]. split; [assumption |].
      exact (Hmemo _ _ _ d Hlook cards s (S fuel) eq_refl eq_refl eq_refl Hfuel). }
    destruct ((length cards =? 2)%nat && (best (handTotals cards) =? 21)%Z).
    { apply Hset; [reflexivity | assumption]. }
    destruct (21 <? best (handTotals cards))%Z.
    { apply Hset; [reflexivity | assumption]. }
    destruct (shouldStand (handTotals cards) rules).
    { apply Hset; [reflexivity | assumption]. }
    destruct (shoeTotal s =? 0)%Z.
    { apply Hset; [reflexivity | assumption]. }
    destruct (drawLoop_pure (fun r => probsFor rules fuel (cards ++ [r]))
                (fun r => probsPure rules fuel (cards ++ [r]) (draw s r)) mix []
                (memoSound rules) s memo Hwf Hmemo)
      as (out & memo1 & E & Hmemo1 & Hpure).
    + intros r memo0 Hpos Hmemo0. apply IH; try assumption.
      * apply shoe_wf_draw; assumption.
      * rewrite drawable_draw by assumption. lia.
    + rewrite (bind_Ok _ _ _ _ _ E). apply Hset; assumption.
Qed.

(** X21: memoization and in-place mutation do not change the banker
    distribution: on a shoe with non-negative counts [dealerOutcomeProbs]
    returns exactly the record that the plain recursion on shoe copies,
    without any memo, computes. *)
Theorem dealer_memo_transparent (upcard : Rank) (rules : Rules) (s : Shoe) :
  shoe_wf s ->
  exists d, dealerOutcomeProbs upcard rules s = Ok (d, s) /\ dealerPure upcard rules s = Ok d.
Proof.
  intros Hwf. unfold dealerOutcomeProbs, dealerPure, scoped.
  destruct (drawLoop_pure (fun r => probsFor rules (fuelFor s) [upcard; r])
              (fun r => probsPure rules (fuelFor s) [upcard; r] (draw s r)) mix []
              (memoSound rules) s ∅ Hwf)
    as (out & memo1 & E & _ & Hpure).
  - intros b sf sk d Hlook. rewrite lookup_empty in Hlook. discriminate.
  - intros r memo0 Hpos Hmemo0. apply probsFor_pure; try assumption.
    + apply shoe_wf_draw; assumption.
    + rewrite drawable_draw by assumption. pose proof (fuelFor_enough s). lia.
  - rewrite E. exists out. split; [reflexivity | exact Hpure].
Qed.

Lemma dealer_memo_transparent_witness :
  let s := initShoeMulti 1 [[R10; R6]] R10 in
  shoe_wf s
  /\ exists d, dealerOutcomeProbs R10 DEFAULT_RULES s = Ok (d, s)
               /\ dealerPure R10 DEFAULT_RULES s = Ok d.
Proof.
  cbv zeta.
  assert (Hwf : shoe_wf (initShoeMulti 1 [[R10; R6]] R10))
    by (intros r; destruct r; vm_compute; discriminate).
  split; [exact Hwf |]. exact (dealer_memo_transparent R10 DEFAULT_RULES _ Hwf).
Defined.

(** ** The cache of the player recursion does not change its result *)

Lemma rbind_ext {X Y} (m m' : res X) (k k' : X -> res Y) :
  m = m' -> (forall x, k x = k' x) -> m ≫= k = m' ≫= k'.
Proof. intros <- Hk. destruct m; cbn; auto. Qed.

Lemma sameCards_totals hand hand' : sameCards hand hand' -> handTotals hand = handTotals hand'.
Proof.
  intros Hp. rewrite <- (handTotals_map_normalizeRank hand), <- (handTotals_map_normalizeRank hand').
  apply handTotals_Permutation. exact Hp.
Qed.

Lemma sameCards_length hand hand' : sameCards hand hand' -> length hand = length hand'.
Proof.
  intros Hp. apply Permutation_length in Hp. rewrite !length_map in Hp. exact Hp.
Qed.

Lemma sameCards_app hand hand' r : sameCards hand hand' -> sameCards (hand ++ [r]) (hand' ++ [r]).
Proof.
  unfold sameCards. intros Hp. rewrite !map_app. apply Permutation_app_tail. exact Hp.
Qed.

Lemma includesAce_normalize hand : includesAce (map normalizeRank hand) = includesAce hand.
Proof.
  unfold includesAce. induction hand as [| x rest IH]; [reflexivity |].
  cbn [map existsb]. rewrite IH. destruct x; reflexivity.
Qed.

Lemma includesAce_perm l l' : Permutation l l' -> includesAce l = includesAce l'.
Proof.
  unfold includesAce.
  induction 1 as [| x l l' _ IH | x y l | l l' l'' _ IH1 _ IH2]; cbn [existsb].
  - reflexivity.
  - rewrite IH. reflexivity.
  - destruct (bool_decide (x = Ace)), (bool_decide (y = Ace)); reflexivity.
  - congruence.
Qed.

Lemma sameCards_includesAce hand hand' :
  sameCards hand hand' -> includesAce hand = includesAce hand'.
Proof.
  intros Hp. rewrite <- (includesAce_normalize hand), <- (includesAce_normalize hand').
  apply includesAce_perm. exact Hp.
Qed.

Lemma sameCards_isBust hand hand' : sameCards hand hand' -> isBust hand = isBust hand'.
Proof. intros Hp. unfold isBust. rewrite (sameCards_totals _ _ Hp). reflexivity. Qed.

Lemma sameCards_isBlackjack hand hand' :
  sameCards hand hand' -> isBlackjack hand = isBlackjack hand'.
Proof.
  intros Hp. unfold isBlackjack.
  rewrite (sameCards_totals _ _ Hp), (sameCards_length _ _ Hp),
    (sameCards_includesAce _ _ Hp). reflexivity.
Qed.

Lemma standPure_totals ctx hand hand' s :
  handTotals hand = handTotals hand' -> standPure ctx hand s = standPure ctx hand' s.
Proof. intros Ht. unfold standPure, evStand. rewrite Ht. reflexivity. Qed.

Lemma sameCards_pair a b hand' :
  sameCards [a; b] hand' ->
  exists a' b', hand' = [a'; b']
    /\ ((normalizeRank a' = normalizeRank a /\ normalizeRank b' = normalizeRank b)
        \/ (normalizeRank a' = normalizeRank b /\ normalizeRank b' = normalizeRank a)).
Proof.
  intros Hp. pose proof (sameCards_length _ _ Hp) as Hlen.
  destruct hand' as [| a' [| b' [| c rest]]]; try discriminate Hlen.
  exists a', b'. split; [reflexivity |].
  unfold sameCards in Hp. cbn [map] in Hp.
  apply Permutation_length_2_inv in Hp as [[= -> ->] | [= -> ->]]; auto.
Qed.

Lemma normalize_ace r : normalizeRank r = Ace <-> r = Ace.
Proof. destruct r; cbn; split; congruence. Qed.

Lemma bool_decide_ace_normalize r r' :
  normalizeRank r' = normalizeRank r -> bool_decide (r' = Ace) = bool_decide (r = Ace).
Proof.
  intros Hn. apply bool_decide_ext.
  split; intros H; apply normalize_ace; apply normalize_ace in H; congruence.
Qed.

Lemma sameCards_two a b r : normalizeRank a = normalizeRank b -> sameCards [a; r] [b; r].
Proof. intros Hn. unfold sameCards. cbn [map]. rewrite Hn. reflexivity. Qed.

Lemma bestPure_sameCards fuel :
  forall hand hand' ctx s,
    sameCards hand hand' -> bestPure fuel hand ctx s = bestPure fuel hand' ctx s.
Proof.
  induction fuel as [| fuel IH]; intros hand hand' ctx s Hp; cbn [bestPure];
    [reflexivity |].
  pose proof (sameCards_totals _ _ Hp) as Ht.
  pose proof (sameCards_length _ _ Hp) as Hlen.
  rewrite <- (sameCards_isBust _ _ Hp), <- (sameCards_isBlackjack _ _ Hp), <- Hlen.
  destruct (isBust hand); [reflexivity |].
  destruct (_ && isBlackjack hand); [reflexivity |].
  apply rbind_ext; [apply standPure_totals; exact Ht | intros standEV].
  apply rbind_ext.
  { unfold hitPure. apply pureLoop_ext. intros r _.
    destruct (_ && _).
    - apply standPure_totals, sameCards_totals, sameCards_app, Hp.
    - apply IH, sameCards_app, Hp. }
  intros hitEV.
  assert (Hd : doubleCond hand ctx = doubleCond hand' ctx)
    by (unfold doubleCond; rewrite Hlen; reflexivity).
  assert (Hsu : surrenderCond hand ctx = surrenderCond hand' ctx)
    by (unfold surrenderCond; rewrite Hlen; reflexivity).
  rewrite <- Hd, <- Hsu.
  apply rbind_ext.
  { destruct (doubleCond hand ctx); [| reflexivity].
    apply rbind_ext; [| reflexivity]. unfold doublePure.
    apply rbind_ext; [| reflexivity]. apply pureLoop_ext. intros r _.
    apply standPure_totals, sameCards_totals, sameCards_app, Hp. }
  intros doubleEV. apply rbind_ext; [| reflexivity].
  destruct hand as [| a [| b [| c rest]]];
    destruct hand' as [| a' [| b' [| c' rest']]]; try discriminate Hlen.
  1, 2, 4: reflexivity.
  destruct (sameCards_pair _ _ _ Hp) as (a2 & b2 & [= <- <-] & Hn).
  assert (Hpc : pairCond [a; b] = pairCond [a'; b']).
  { cbn. apply bool_decide_ext. destruct Hn as [[-> ->] | [-> ->]]; [tauto |].
    split; congruence. }
  rewrite <- Hpc. destruct (Ctx.canSplit ctx && pairCond [a; b]) eqn:Hc; [| reflexivity].
  apply andb_true_iff in Hc as [_ Hc]. cbn in Hc. apply bool_decide_eq_true_1 in Hc.
  assert (Ha : normalizeRank a' = normalizeRank a) by (destruct Hn as [[? ?] | [? ?]]; congruence).
  assert (Hb : normalizeRank b' = normalizeRank b) by (destruct Hn as [[? ?] | [? ?]]; congruence).
  apply rbind_ext; [| reflexivity]. unfold splitPure.
  apply rbind_ext; [| reflexivity]. apply pureLoop_ext. intros r _.
  unfold splitChildPure.
  rewrite (bool_decide_ace_normalize _ _ Ha), (bool_decide_ace_normalize _ _ Hb).
  destruct (_ && splitAcesOneCardOnly (Ctx.rules ctx)).
  - apply rbind_ext.
    + apply standPure_totals, sameCards_totals, sameCards_two. congruence.
    + intros l. apply rbind_ext; [| reflexivity].
      apply standPure_totals, sameCards_totals, sameCards_two. congruence.
  - apply rbind_ext.
    + apply IH, sameCards_two. congruence.
    + intros l. apply rbind_ext; [| reflexivity]. apply IH, sameCards_two. congruence.
Qed.

Lemma bestPure_fuel fuel :
  forall fuel' hand ctx s,
    (drawable s < Z.of_nat fuel)%Z -> (drawable s < Z.of_nat fuel')%Z ->
    bestPure fuel hand ctx s = bestPure fuel' hand ctx s.
Proof.
  induction fuel as [| fuel IH]; intros fuel' hand ctx s Hf Hf'.
  - pose proof (drawable_nonneg s). lia.
  - destruct fuel' as [| fuel']; [pose proof (drawable_nonneg s); lia |].
    cbn [bestPure].
    destruct (isBust hand); [reflexivity |].
    destruct (_ && isBlackjack hand); [reflexivity |].
    apply rbind_ext; [reflexivity | intros standEV].
    apply rbind_ext.
    { unfold hitPure. apply pureLoop_ext. intros r Hpos.
      destruct (_ && _); [reflexivity |].
      apply IH; rewrite drawable_draw by assumption; lia. }
    intros hitEV. apply rbind_ext; [reflexivity | intros doubleEV].
    apply rbind_ext; [| reflexivity].
    destruct hand as [| a [| b [| c rest]]].
    1, 2, 4: reflexivity.
    destruct (_ && _); [| reflexivity].
    apply rbind_ext; [| reflexivity]. unfold splitPure.
    apply rbind_ext; [| reflexivity]. apply pureLoop_ext. intros r Hpos.
    unfold splitChildPure.
    destruct (_ && splitAcesOneCardOnly (Ctx.rules ctx)); [reflexivity |].
    apply rbind_ext.
    + apply IH; rewrite drawable_draw by assumption; lia.
    + intros l. apply rbind_ext; [| reflexivity].
      apply IH; rewrite drawable_draw by assumption; lia.
Qed.

Lemma cacheKey_inv (hand hand' : Hand) (ctx ctx' : PlayerContext) (s s' : Shoe) :
  cacheKey hand ctx s = cacheKey hand' ctx' s' ->
  Ctx.rules ctx = Ctx.rules ctx' ->
  Ctx.doubleAfterSplit ctx = Ctx.doubleAfterSplit ctx' ->
  sameCards hand hand' /\ ctx = ctx' /\ s = s'.
Proof.
  intros H Hr Hd.
  pose proof (f_equal (fun k : CKey => let '(x, _, _, _, _, _, _, _, _, _) := k in x) H) as Hk.
  pose proof (f_equal (fun k : CKey => let '(_, _, x, _, _, _, _, _, _, _) := k in x) H) as Hup.
  pose proof (f_equal (fun k : CKey => let '(_, _, _, x, _, _, _, _, _, _) := k in x) H) as Hcd.
  pose proof (f_equal (fun k : CKey => let '(_, _, _, _, x, _, _, _, _, _) := k in x) H) as Hcs.
  pose proof (f_equal (fun k : CKey => let '(_, _, _, _, _, x, _, _, _, _) := k in x) H) as Hsd.
  pose proof (f_equal (fun k : CKey => let '(_, _, _, _, _, _, x, _, _, _) := k in x) H) as Hsa.
  pose proof (f_equal (fun k : CKey => let '(_, _, _, _, _, _, _, _, _, x) := k in x) H) as Hshoe.
  cbn in Hk, Hup, Hcd, Hcs, Hsd, Hsa, Hshoe. clear H.
  split; [apply handKey_Permutation; exact Hk |].
  split; [| apply shoeKey_eq; exact Hshoe].
  destruct ctx, ctx'. cbn in *. subst. reflexivity.
Qed.

Lemma cacheSound_insert (rules0 : Rules) (das0 : option bool) (cache : gmap CKey Qc)
    (hand : Hand) (ctx : PlayerContext) (s : Shoe) (fuel : nat) (v : Qc) :
  cacheSound rules0 das0 cache ->
  Ctx.rules ctx = rules0 -> Ctx.doubleAfterSplit ctx = das0 ->
  (drawable s < Z.of_nat fuel)%Z ->
  bestPure fuel hand ctx s = Ok v ->
  cacheSound rules0 das0 (<[cacheKey hand ctx s := v]> cache).
Proof.
  intros Hcache Hr Hd Hfuel Hpure key v' Hlook hand' ctx' s' fuel' Hkey Hr' Hd' Hf'.
  destruct (decide (cacheKey hand ctx s = key)) as [Heq | Hne].
  - rewrite <- Heq, lookup_insert_eq in Hlook. injection Hlook as <-.
    rewrite <- Heq in Hkey.
    destruct (cacheKey_inv _ _ _ _ _ _ Hkey) as (Hsame & -> & ->); [congruence | congruence |].
    rewrite (bestPure_sameCards fuel' hand' hand ctx s Hsame).
    rewrite (bestPure_fuel fuel' fuel hand ctx s) by assumption. exact Hpure.
  - rewrite lookup_insert_ne in Hlook by assumption.
    exact (Hcache key v' Hlook hand' ctx' s' fuel' Hkey Hr' Hd' Hf').
Qed.

Lemma standPure_run (ctx : PlayerContext) (h : Hand) (s : Shoe) :
  shoe_wf s ->
  standPure ctx h s = Ok (valueOf (evStand h (Ctx.upcard ctx) (Ctx.rules ctx) s)).
Proof.
  intros Hwf. unfold standPure. rewrite evStand_run by assumption. reflexivity.
Qed.

Section BlocksPure.
Context (rules0 : Rules) (das0 : option bool).
Context (recur : Hand -> PlayerContext -> M (Shoe * gmap CKey Qc) Qc).
Context (precur : Hand -> PlayerContext -> Shoe -> res Qc).
Context (n : Z).
Context (Hrecur : forall (h : Hand) (c : PlayerContext) (s : Shoe) (t : gmap CKey Qc),
           shoe_wf s -> (drawable s < n)%Z ->
           Ctx.rules c = rules0 -> Ctx.doubleAfterSplit c = das0 ->
           cacheSound rules0 das0 t ->
           exists (v : Qc) (t' : gmap CKey Qc), recur h c (s, t) = Ok (v, (s, t'))
                        /\ cacheSound rules0 das0 t' /\ precur h c s = Ok v).

Lemma hitBlock_pure (hand : Hand) (ctx : PlayerContext) (s : Shoe) (t : gmap CKey Qc) :
  shoe_wf s -> (drawable s <= n)%Z ->
  Ctx.rules ctx = rules0 -> Ctx.doubleAfterSplit ctx = das0 ->
  cacheSound rules0 das0 t ->
  exists (v : Qc) (t' : gmap CKey Qc), hitBlock recur hand ctx (s, t) = Ok (v, (s, t'))
               /\ cacheSound rules0 das0 t' /\ hitPure precur hand ctx s = Ok v.
Proof.
  intros Hwf Hn Hr Hd Ht. unfold hitBlock, hitPure.
  apply (drawLoop_pure (hitChild recur hand ctx)); try assumption.
  intros r t0 Hpos Ht0. unfold hitChild.
  assert (Hwf' : shoe_wf (draw s r)) by (apply shoe_wf_draw; assumption).
  destruct (Ctx.isSplitAces ctx && splitAcesOneCardOnly (Ctx.rules ctx)).
  - eexists _, t0. rewrite standOn_run, standPure_run by assumption. auto.
  - apply Hrecur; try assumption. rewrite drawable_draw by assumption. lia.
Qed.

Lemma doubleBlock_pure (hand : Hand) (ctx : PlayerContext) (s : Shoe) (t : gmap CKey Qc) :
  shoe_wf s ->
  exists v : Qc, doubleBlock hand ctx (s, t) = Ok (v, (s, t)) /\ doublePure hand ctx s = Ok v.
Proof.
  intros Hwf. unfold doubleBlock, doublePure.
  destruct (drawLoop_pure (fun r => standOn ctx (hand ++ [r]))
              (fun r => standPure ctx (hand ++ [r]) (draw s r))
              (fun v2 p v => v2 + p * v) 0 (fun t' => t' = t) s t Hwf eq_refl)
    as (acc & t' & E & -> & Hp).
  - intros r t0 Hpos ->.
    assert (Hwf' : shoe_wf (draw s r)) by (apply shoe_wf_draw; assumption).
    eexists _, t. rewrite standOn_run, standPure_run by assumption. auto.
  - rewrite (bind_Ok _ _ _ _ _ E), Hp. eexists. split; reflexivity.
Qed.

Lemma splitBlock_pure (ctx : PlayerContext) (h0 h1 : Rank) (s : Shoe) (t : gmap CKey Qc) :
  shoe_wf s -> (drawable s <= n)%Z ->
  Ctx.rules ctx = rules0 -> Ctx.doubleAfterSplit ctx = das0 ->
  cacheSound rules0 das0 t ->
  exists (v : Qc) (t' : gmap CKey Qc), splitBlock recur ctx h0 h1 (s, t) = Ok (v, (s, t'))
               /\ cacheSound rules0 das0 t' /\ splitPure precur ctx s h0 h1 = Ok v.
Proof.
  intros Hwf Hn Hr Hd Ht. unfold splitBlock, splitPure.
  destruct (drawLoop_pure (splitChild recur ctx h0 h1) (splitChildPure precur ctx s h0 h1)
              (fun lr p x => (fst lr + p * fst x, snd lr + p * snd x)) (0, 0)
              (cacheSound rules0 das0) s t Hwf Ht)
    as (acc & t' & E & Ht' & Hp).
  - intros r t0 Hpos Ht0. unfold splitChild, splitChildPure.
    set (aces := bool_decide (h0 = Ace) && bool_decide (h1 = Ace)).
    assert (Hwf' : shoe_wf (draw s r)) by (apply shoe_wf_draw; assumption).
    assert (Hn' : (drawable (draw s r) < n)%Z)
      by (rewrite drawable_draw by assumption; lia).
    destruct (aces && splitAcesOneCardOnly (Ctx.rules ctx)).
    + erewrite bind_Ok by (apply standOn_run; assumption).
      erewrite bind_Ok by (apply standOn_run; assumption).
      rewrite !standPure_run by assumption. eexists _, t0. auto.
    + match goal with |- context [recur [h0; r] ?c] => set (child := c) end.
      destruct (Hrecur [h0; r] child (draw s r) t0 Hwf' Hn' Hr Hd Ht0)
        as (v1 & t1 & E1 & Ht1 & P1).
      destruct (Hrecur [h1; r] child (draw s r) t1 Hwf' Hn' Hr Hd Ht1)
        as (v2 & t2 & E2 & Ht2 & P2).
      rewrite (bind_Ok _ _ _ _ _ E1), (bind_Ok _ _ _ _ _ E2), P1, P2.
      exists (v1, v2), t2. auto.
  - rewrite (bind_Ok _ _ _ _ _ E), Hp. eexists _, t'. auto.
Qed.
End BlocksPure.

Lemma bestActionEV_pure (rules0 : Rules) (das0 : option bool) (fuel : nat) :
  forall (hand : Hand) (ctx : PlayerContext) (s : Shoe) (cache : gmap CKey Qc),
    shoe_wf s -> (drawable s < Z.of_nat fuel)%Z ->
    Ctx.rules ctx = rules0 -> Ctx.doubleAfterSplit ctx = das0 ->
    cacheSound rules0 das0 cache ->
    exists (v : Qc) (cache' : gmap CKey Qc),
      bestActionEV fuel hand ctx (s, cache) = Ok (v, (s, cache'))
      /\ cacheSound rules0 das0 cache' /\ bestPure fuel hand ctx s = Ok v.
Proof.
  induction fuel as [| fuel IH]; intros hand ctx s cache Hwf Hfuel Hr Hd Hcache.
  - pose proof (drawable_nonneg s). lia.
  - assert (Hset : forall (v : Qc) (cache0 : gmap CKey Qc),
              bestPure (S fuel) hand ctx s = Ok v -> cacheSound rules0 das0 cache0 ->
              exists (v' : Qc) (cache' : gmap CKey Qc),
                cacheSet (cacheKey hand ctx s) v (s, cache0) = Ok (v', (s, cache'))
                /\ cacheSound rules0 das0 cache' /\ bestPure (S fuel) hand ctx s = Ok v').
    { intros v cache0 Hv Hc0. eexists _, _. rewrite cacheSet_run.
      split; [reflexivity |]. split; [| exact Hv].
      apply (cacheSound_insert rules0 das0 cache0 hand ctx s (S fuel) v); assumption. }
    revert Hset. cbn [bestActionEV bestPure]. intros Hset.
    rewrite (bind_Ok _ _ (s, cache) s (s, cache)) by reflexivity.
    rewrite (bind_Ok _ _ (s, cache) cache (s, cache)) by reflexivity.
    match goal with
    | |- context [match ?o with Some _ => _ | None => _ end] =>
        destruct o as [v |] eqn:Hlook
    end.
    { exists v, cache. split; [reflexivity |]. split; [assumption |].
      exact (Hcache _ v Hlook hand ctx s (S fuel) eq_refl Hr Hd Hfuel). }
    destruct (isBust hand); [apply Hset; [reflexivity | assumption] |].
    destruct (_ && isBlackjack hand).
    { erewrite bind_Ok by (apply liftShoe_run, evInitialBlackjack_run; assumption).
      apply Hset; [| assumption].
      rewrite evInitialBlackjack_run by assumption. reflexivity. }
    revert Hset. rewrite standPure_run by assumption. cbn [mbind res_bind]. intros Hset.
    erewrite bind_Ok by (apply standOn_run; assumption).
    assert (Hn : (drawable s <= Z.of_nat fuel)%Z) by lia.
    destruct (hitBlock_pure rules0 das0 (bestActionEV fuel) (bestPure fuel) (Z.of_nat fuel)
                IH hand ctx s cache Hwf Hn Hr Hd Hcache)
      as (hitEV & cache1 & Ehit & Hc1 & Phit).
    rewrite (bind_Ok _ _ _ _ _ Ehit). revert Hset. rewrite Phit. cbn [mbind res_bind].
    intros Hset.
    assert (Hdouble : exists doubleEV : option Qc,
              (if doubleCond hand ctx
               then v ← doubleBlock hand ctx; mret (Some v)
               else mret None) (s, cache1) = Ok (doubleEV, (s, cache1))
              /\ (if doubleCond hand ctx
                  then v ← doublePure hand ctx s; mret (Some v)
                  else mret None) = Ok doubleEV).
    { destruct (doubleCond hand ctx); [| eexists; split; reflexivity].
      destruct (doubleBlock_pure hand ctx s cache1 Hwf) as (v & Ev & Pv).
      rewrite (bind_Ok _ _ _ _ _ Ev), Pv. eexists; split; reflexivity. }
    destruct Hdouble as (doubleEV & Edouble & Pdouble).
    rewrite (bind_Ok _ _ _ _ _ Edouble). revert Hset. rewrite Pdouble.
    cbn [mbind res_bind]. intros Hset.
    assert (Hsplit : exists (splitEV : option Qc) (cache2 : gmap CKey Qc),
              (match hand with
               | [h0; h1] =>
                   if Ctx.canSplit ctx && pairCond hand
                   then v ← splitBlock (bestActionEV fuel) ctx h0 h1; mret (Some v)
                   else mret None
               | _ => mret None
               end) (s, cache1) = Ok (splitEV, (s, cache2))
              /\ cacheSound rules0 das0 cache2
              /\ (match hand with
                  | [h0; h1] =>
                      if Ctx.canSplit ctx && pairCond hand
                      then v ← splitPure (bestPure fuel) ctx s h0 h1; mret (Some v)
                      else mret None
                  | _ => mret None
                  end) = Ok splitEV).
    { destruct hand as [| h0 [| h1 [| h2 rest]]].
      1, 2, 4: (exists None, cache1; split; [reflexivity | split; [assumption | reflexivity]]).
      destruct (Ctx.canSplit ctx && pairCond [h0; h1]).
      - destruct (splitBlock_pure rules0 das0 (bestActionEV fuel) (bestPure fuel)
                    (Z.of_nat fuel) IH ctx h0 h1 s cache1 Hwf Hn Hr Hd Hc1)
          as (v & cache2 & Ev & Hc2 & Pv).
        rewrite (bind_Ok _ _ _ _ _ Ev), Pv. eexists _, cache2.
        split; [reflexivity | split; [assumption | reflexivity]].
      - exists None, cache1. split; [reflexivity | split; [assumption | reflexivity]]. }
    destruct Hsplit as (splitEV & cache2 & Esplit & Hc2 & Psplit).
    rewrite (bind_Ok _ _ _ _ _ Esplit). revert Hset. rewrite Psplit.
    cbn [mbind res_bind]. intros Hset.
    apply Hset; [reflexivity | assumption].
Qed.

Lemma cacheSound_empty (rules0 : Rules) (das0 : option bool) :
  cacheSound rules0 das0 (∅ : gmap CKey Qc).
Proof. intros key v Hlook. rewrite lookup_empty in Hlook. discriminate. Qed.

(** X22: the cache of the player recursion changes no result.  On a shoe
    with non-negative counts [bestActionEV], started on the empty cache,
    returns the value of the recursion without a cache and the shoe it was
    given, and the table of [actionEVsFinite] is the table whose Hit and
    Split entries are computed without a cache: a value stored under a key
    is the value of every hand, context and shoe that are given that key
    during the call. *)
Theorem player_cache_transparent (hand : Hand) (ctx : PlayerContext) (s : Shoe) :
  shoe_wf s ->
  (exists (v : Qc) (cache' : gmap CKey Qc),
     bestActionEV (fuelFor s) hand ctx (s, ∅) = Ok (v, (s, cache'))
     /\ bestPure (fuelFor s) hand ctx s = Ok v)
  /\ (exists tbl : Table,
        actionEVsFinite hand ctx s = Ok (tbl, s) /\ tablePure hand ctx s = Ok tbl).
Proof.
  intros Hwf.
  pose proof (fuelFor_enough s) as Hfuel.
  assert (Hn : (drawable s <= Z.of_nat (fuelFor s))%Z) by lia.
  set (rules0 := Ctx.rules ctx). set (das0 := Ctx.doubleAfterSplit ctx).
  pose proof (bestActionEV_pure rules0 das0 (fuelFor s)) as Hrec.
  split.
  - destruct (Hrec hand ctx s ∅ Hwf Hfuel eq_refl eq_refl (cacheSound_empty rules0 das0))
      as (v & cache' & E & _ & P).
    exists v, cache'. split; assumption.
  - destruct (hitBlock_pure rules0 das0 (bestActionEV (fuelFor s)) (bestPure (fuelFor s))
                (Z.of_nat (fuelFor s)) Hrec hand ctx s ∅ Hwf Hn eq_refl eq_refl
                (cacheSound_empty rules0 das0))
      as (hitEV & cache1 & Ehit & Hc1 & Phit).
    unfold tablePure. rewrite standPure_run, Phit by assumption. cbn [mbind res_bind].
    destruct hand as [| h0 [| h1 [| h2 rest]]].
    1, 2, 4: (eexists; split;
              [apply (actionEVsFinite_table_gen _ ctx s hitEV 0 cache1 cache1 Hwf Ehit);
               intros ? ? [=]
              | reflexivity]).
    destruct (splitBlock_pure rules0 das0 (bestActionEV (fuelFor s)) (bestPure (fuelFor s))
                (Z.of_nat (fuelFor s)) Hrec ctx h0 h1 s cache1 Hwf Hn eq_refl eq_refl Hc1)
      as (v & cache2 & Esplit & _ & Psplit).
    destruct (pairCond [h0; h1]) eqn:Hpair.
    + rewrite Psplit. cbn [mbind res_bind]. eexists. split; [| reflexivity].
      apply (actionEVsFinite_table_gen _ ctx s hitEV v cache1 cache2 Hwf Ehit).
      intros ? ? [= <- <-] _. exact Esplit.
    + cbn [mbind res_bind mret res_ret]. eexists. split; [| reflexivity].
      apply (actionEVsFinite_table_gen _ ctx s hitEV 0 cache1 cache1 Hwf Ehit).
      intros ? ? [= <- <-] Hp. congruence.
Qed.

Lemma player_cache_transparent_witness :
  let hand := [R8; R8] in
  let s := initShoeMulti 1 [hand] R10 in
  shoe_wf s
  /\ exists tbl : Table,
       actionEVsFinite hand (initialCtx DEFAULT_RULES R10 hand) s = Ok (tbl, s)
       /\ tablePure hand (initialCtx DEFAULT_RULES R10 hand) s = Ok tbl.
Proof.
  cbv zeta.
  assert (Hwf : shoe_wf (initShoeMulti 1 [[R8; R8]] R10))
    by (intros r; destruct r; vm_compute; discriminate).
  split; [exact Hwf |].
  exact (proj2 (player_cache_transparent [R8; R8]
                  (initialCtx DEFAULT_RULES R10 [R8; R8]) _ Hwf)).
Defined.

(** ** The recommended move *)

(** X23: [bestMoveFrom] after [actionEVsFinite]: on a shoe with
    non-negative counts the recommended move is an entry of the table, its
    EV is at least the stand EV of the hand, and at least -1/2 whenever the
    table holds Surrender. *)
Theorem best_move_at_least_stand (hand : Hand) (ctx : PlayerContext) (s : Shoe) :
  shoe_wf s ->
  exists (tbl : Table) (v : Qc),
    actionEVsFinite hand ctx s = Ok (tbl, s)
    /\ ev (bestMoveFrom tbl) = Some v
    /\ In (move (bestMoveFrom tbl), v) tbl
    /\ valueOf (evStand hand (Ctx.upcard ctx) (Ctx.rules ctx) s) <= v
    /\ (surrenderCond hand ctx = true -> Q2Qc (-1 # 2) <= v).
Proof.
  intros Hwf.
  destruct (actionEVsFinite_table hand ctx s Hwf) as (hitEV & splitEV & E).
  destruct (proj2 (bestMoveFrom_max (tableOf hand ctx s hitEV splitEV)))
    as (v & Hv & Hin & Hall); [discriminate |].
  exists (tableOf hand ctx s hitEV splitEV), v.
  split; [exact E |]. split; [exact Hv |]. split; [exact Hin |].
  rewrite List.Forall_forall in Hall.
  assert (Hstand : valueOf (evStand hand (Ctx.upcard ctx) (Ctx.rules ctx) s) <= v).
  { apply (Hall ("Stand"%string,
                  valueOf (evStand hand (Ctx.upcard ctx) (Ctx.rules ctx) s))).
    unfold tableOf. apply in_eq. }
  split; [exact Hstand |].
  intros Hsur. apply (Hall ("Surrender"%string, Q2Qc (-1 # 2))).
  unfold tableOf. rewrite Hsur. apply in_or_app. right.
  apply in_or_app. right. apply in_or_app. left. left. reflexivity.
Qed.

Lemma best_move_at_least_stand_witness :
  let hand := [R10; R6] in
  let s := initShoeMulti 1 [hand] R10 in
  let ctx := initialCtx DEFAULT_RULES R10 hand in
  shoe_wf s
  /\ exists (tbl : Table) (v : Qc),
       actionEVsFinite hand ctx s = Ok (tbl, s)
       /\ ev (bestMoveFrom tbl) = Some v
       /\ Q2Qc (-1 # 2) <= v.
Proof.
  cbv zeta.
  assert (Hwf : shoe_wf (initShoeMulti 1 [[R10; R6]] R10))
    by (intros r; destruct r; vm_compute; discriminate).
  split; [exact Hwf |].
  destruct (best_move_at_least_stand [R10; R6] (initialCtx DEFAULT_RULES R10 [R10; R6]) _ Hwf)
    as (tbl & v & E & Hv & _ & _ & Hsur).
  exists tbl, v. split; [exact E |]. split; [exact Hv |]. apply Hsur. reflexivity.
Defined.
